(** * web-ext: the file filter and the Firefox Desktop extension runner

    A shallow embedding of [file-filter.js] and of
    [extension-runners/firefox-desktop.js], with the properties of the
    design document stated and proved over it.

    Definitions
    - [JsString], [NodePath] : strings, and the part of Node's POSIX [path]
      module the filter uses ([resolve], [relative], [join]).
    - [Glob]       : [multimatch] over [minimatch] for the pattern fragment
                     made of literal segments, [*] and [**].
    - [FileFilter] : [isSubPath] and the [FileFilter] class.
    - [Runner]     : the [FirefoxDesktopExtensionRunner] class, as a state
                     and exception monad over a trace of collaborator calls.
    - [RunnerSpec], [RunnerExamples] : the vocabulary of the properties, and
                     collaborators to run the model on.

    Proofs
    - [FileFilterProperties] : the sub-path predicate, the exclusion of the
                     artifacts directory, negated patterns.
    - [RunnerProperties] : the map of reloadable extensions, reloads,
                     cleanup callbacks, [exit()].
    - [FileFilterExtras] : the sub-path order, resolution, the ignore list
                     and the default patterns.
    - [RunnerExtras] : the profile step, proxy installs, what each
                     operation records and changes, failures of a run. *)

From Stdlib Require Import String Ascii List Bool Arith Lia.
From stdpp Require Import gmap strings list.
Import ListNotations.

Local Open Scope string_scope.
Local Open Scope list_scope.

(* ===================================================================== *)
(** ** Strings as JavaScript uses them *)
(* ===================================================================== *)

Module JsString.

(** [s.split(sep)] for a one-character separator: never the empty array. *)
Fixpoint split (sep : ascii) (s : string) : list string :=
  match s with
  | EmptyString => [EmptyString]
  | String c s' =>
      if Ascii.eqb c sep then EmptyString :: split sep s'
      else match split sep s' with
           | [] => [String c EmptyString]
           | x :: xs => String c x :: xs
           end
  end.

(** [arr.join(sep)]. *)
Definition join (sep : string) (l : list string) : string :=
  String.concat sep l.

(** [s.startsWith(p)]. *)
Fixpoint startsWith (p s : string) : bool :=
  match p with
  | EmptyString => true
  | String a p' =>
      match s with
      | String b s' => Ascii.eqb a b && startsWith p' s'
      | EmptyString => false
      end
  end.

(** Truthiness of a string: only the empty string is falsy. *)
Definition truthy (s : string) : bool := negb (String.eqb s "").

(** [s.charAt(0) === c]. *)
Definition charAt0_is (c : ascii) (s : string) : bool :=
  match s with
  | String c' _ => Ascii.eqb c' c
  | EmptyString => false
  end.

(** [s.substr(1)] / [s.slice(1)]. *)
Definition substr1 (s : string) : string :=
  match s with
  | String _ s' => s'
  | EmptyString => EmptyString
  end.

(** Every character of [s] satisfies [p]. *)
Fixpoint all_chars (p : ascii -> bool) (s : string) : bool :=
  match s with
  | EmptyString => true
  | String c s' => p c && all_chars p s'
  end.

Definition slash : ascii := "/"%char.

Definition no_slash (s : string) : bool :=
  all_chars (fun c => negb (Ascii.eqb c slash)) s.

(** A string is a sequence of code units below 256.  Of the white space
    and line terminators of the language these are tab, line feed,
    vertical tab, form feed, carriage return, space and the no-break
    space. *)
Definition white_space (c : ascii) : bool :=
  existsb (Ascii.eqb c) (List.map ascii_of_nat [9; 10; 11; 12; 13; 32; 160]).

(** A line terminator: what [.] in a regular expression does not match. *)
Definition line_terminator (c : ascii) : bool :=
  existsb (Ascii.eqb c) (List.map ascii_of_nat [10; 13]).

(** [s.trimStart()], [s.trimEnd()] and [s.trim()]. *)
Fixpoint trimStart (s : string) : string :=
  match s with
  | EmptyString => EmptyString
  | String c s' => if white_space c then trimStart s' else s
  end.

Fixpoint trimEnd (s : string) : string :=
  match s with
  | EmptyString => EmptyString
  | String c s' =>
      match trimEnd s' with
      | EmptyString => if white_space c then EmptyString
                       else String c EmptyString
      | t => String c t
      end
  end.

Definition trim (s : string) : string := trimEnd (trimStart s).

(** A run of slashes is taken for one slash. *)
Fixpoint squeeze (s : string) : string :=
  match s with
  | EmptyString => EmptyString
  | String c s' =>
      if Ascii.eqb c slash && charAt0_is slash s' then squeeze s'
      else String c (squeeze s')
  end.

(** [s.split(/\/+/)]. *)
Definition slashSplit (s : string) : list string := split slash (squeeze s).

(** A segment a resolved path is made of: not empty, without a slash. *)
Definition solid (seg : string) : bool :=
  negb (String.eqb seg "") && no_slash seg.

End JsString.

(* ===================================================================== *)
(** ** Node's [path] module, POSIX flavour *)
(* ===================================================================== *)

(** [path] is Node's own module: it is modelled here from its documented
    behaviour on POSIX, on the segments of a path.  A resolved path is
    absolute and normalised, so it is known by its list of segments. *)

Module NodePath.
Import JsString.

(** [path.sep]. *)
Definition sep : string := "/".

Definition isAbsolute (p : string) : bool := charAt0_is slash p.

(** One step of [normalizeString]: empty and [.] segments are dropped,
    [..] removes the segment before it, or is kept when there is none to
    remove and the path is relative ([allowAboveRoot]). *)
Definition norm_step (allowAboveRoot : bool) (acc : list string) (seg : string)
  : list string :=
  if String.eqb seg "" || String.eqb seg "." then acc
  else if String.eqb seg ".." then
    match last acc with
    | None => if allowAboveRoot then [".."] else []
    | Some l => if String.eqb l ".."
                then (if allowAboveRoot then acc ++ [".."] else acc)
                else removelast acc
    end
  else acc ++ [seg].

Definition normalize_segs (allowAboveRoot : bool) (segs : list string)
  : list string :=
  fold_left (norm_step allowAboveRoot) segs [].

(** The string of an absolute path with the given segments. *)
Definition render (segs : list string) : string := "/" +:+ join "/" segs.

(** The right-to-left scan of [path.resolve]: arguments are prepended until
    an absolute one is met; empty arguments are skipped. *)
Fixpoint resolve_scan (rev_args : list string) (resolvedPath : string)
  : string * bool :=
  match rev_args with
  | [] => (resolvedPath, false)
  | p :: rest =>
      if String.eqb p "" then resolve_scan rest resolvedPath
      else
        let r := p +:+ "/" +:+ resolvedPath in
        if isAbsolute p then (r, true) else resolve_scan rest r
  end.

(** The segments of [path.resolve(...args)], with [cwd] the working
    directory of the process (always an absolute path). *)
Definition resolve_segs (cwd : string) (args : list string) : list string :=
  let '(r, abs) := resolve_scan (rev args) "" in
  let full := if abs then r else cwd +:+ "/" +:+ r in
  normalize_segs false (split slash full).

(** What [path.resolve] reads of a single non-empty argument. *)
Definition anchored (cwd p : string) : string :=
  if isAbsolute p then p else cwd +:+ String slash p.

(** [path.resolve(...args)]. *)
Definition resolve (cwd : string) (args : list string) : string :=
  render (resolve_segs cwd args).

(** The longest common prefix of two segment lists is dropped. *)
Fixpoint strip_common (a b : list string) : list string * list string :=
  match a, b with
  | x :: a', y :: b' => if String.eqb x y then strip_common a' b' else (a, b)
  | _, _ => (a, b)
  end.

(** [path.relative(from, to)]: both are resolved, one [..] per segment of
    [from] past the common prefix, then what is left of [to]. *)
Definition relative (cwd from to : string) : string :=
  if String.eqb from to then ""
  else
    let '(up, down) :=
      strip_common (resolve_segs cwd [from]) (resolve_segs cwd [to]) in
    join "/" (repeat ".." (length up) ++ down).

(** A segment that names a file or a directory: not empty, not [.] and not
    [..]. *)
Definition ordinary (seg : string) : bool :=
  negb (String.eqb seg "") && negb (String.eqb seg ".") &&
  negb (String.eqb seg "..").

(** The segments of a resolved path: ordinary names without a slash. *)
Definition clean (segs : list string) : Prop :=
  Forall (fun seg => ordinary seg = true /\ no_slash seg = true) segs.

(** [path.normalize(p)]. *)
Definition normalize (p : string) : string :=
  if String.eqb p "" then "."
  else
    let isAbs := isAbsolute p in
    let trailing :=
      match last (split slash p) with
      | Some l => String.eqb l ""
      | None => false
      end in
    let body := join "/" (normalize_segs (negb isAbs) (split slash p)) in
    if String.eqb body "" then
      (if isAbs then "/" else if trailing then "./" else ".")
    else
      let body := if trailing then body +:+ "/" else body in
      if isAbs then "/" +:+ body else body.

(** [path.join(...args)]: the non-empty arguments joined by [/], then
    normalised. *)
Definition join_paths (args : list string) : string :=
  let parts := List.filter truthy args in
  match parts with
  | [] => "."
  | _ => normalize (join "/" parts)
  end.

End NodePath.

(* ===================================================================== *)
(** ** [multimatch] over [minimatch] *)
(* ===================================================================== *)

(** [minimatch] is called with no options, so [dot] is unset: a [*] at the
    start of a segment and a [**] never match a segment that begins with a
    dot.  The library trims a pattern before it reads it, and the regular
    expression it makes of a segment with a [*] in it begins with [(?=.)],
    which a segment that begins with a line terminator does not satisfy.
    The fragment modelled is the one the filter's own patterns are written
    in: literal segments, [*] inside a segment, and [**] as a whole
    segment.  A pattern that uses any other glob syntax is handed to
    [extended_match], which stands for the rest of the library. *)

Module Glob.
Import JsString.

Inductive token : Type :=
| TChar (c : ascii)
| TStar.

Inductive part : Type :=
| Globstar
| Literal (s : string)
| Magic (toks : list token).

Definition star : ascii := "*"%char.

Definition has_star (s : string) : bool :=
  negb (all_chars (fun c => negb (Ascii.eqb c star)) s).

Fixpoint tokens (s : string) : list token :=
  match s with
  | EmptyString => []
  | String c s' => (if Ascii.eqb c star then TStar else TChar c) :: tokens s'
  end.

(** One segment of a pattern. *)
Definition parse_part (s : string) : part :=
  if String.eqb s "**" then Globstar
  else if has_star s then Magic (tokens s)
  else Literal s.

(** The regular expression of a segment with [*] in it: a [*] is
    [[^/]*?]. *)
Fixpoint wild (toks : list token) (s : string) : bool :=
  match toks with
  | [] => String.eqb s ""
  | TChar c :: ts =>
      match s with
      | String c' s' => Ascii.eqb c c' && wild ts s'
      | EmptyString => false
      end
  | TStar :: ts =>
      (fix skip (s : string) : bool :=
         wild ts s ||
         match s with
         | String _ s' => skip s'
         | EmptyString => false
         end) s
  end.

Definition dotted (s : string) : bool := charAt0_is "."%char s.

(** [(?=.)] at the start of a segment: there is a first character, and it
    is not a line terminator. *)
Definition lookahead_any (f : string) : bool :=
  match f with
  | String c _ => negb (line_terminator c)
  | EmptyString => false
  end.

(** The regular expression of a segment with magic in it begins with
    [(?=.)], and with [(?!\.)] before it when the segment starts with the
    magic: so it matches neither the empty segment nor one that begins with
    a line terminator, and one that starts with the magic does not match a
    dotted segment. *)
Definition magic_match (toks : list token) (f : string) : bool :=
  lookahead_any f &&
  match toks with
  | TStar :: _ => negb (dotted f)
  | _ => true
  end &&
  wild toks f.

(** [Minimatch.matchOne(file, pattern)], [partial] unset. *)
Fixpoint matchOne (pattern : list part) (file : list string) : bool :=
  match pattern with
  | [] =>
      match file with
      | [] => true
      | [f] => String.eqb f ""
      | _ => false
      end
  | Globstar :: pattern' =>
      match pattern' with
      | [] =>
          match file with
          | [] => false
          | _ => forallb (fun f => negb (dotted f)) file
          end
      | _ =>
          (fix swallow (file : list string) : bool :=
             match file with
             | [] => false
             | f :: file' =>
                 matchOne pattern' file ||
                 (if dotted f then false else swallow file')
             end) file
      end
  | Literal p :: pattern' =>
      match file with
      | [] => false
      | f :: file' => String.eqb f p && matchOne pattern' file'
      end
  | Magic toks :: pattern' =>
      match file with
      | [] => false
      | f :: file' => magic_match toks f && matchOne pattern' file'
      end
  end.

(** The segment begins with a line terminator. *)
Definition line_start (f : string) : bool :=
  match f with
  | String c _ => line_terminator c
  | EmptyString => false
  end.

(** A segment a [**] can stand for: not empty and not dotted. *)
Definition visible (seg : string) : bool :=
  negb (String.eqb seg "") && negb (dotted seg).

(** A segment a [*] at the start of a pattern segment can stand for the
    beginning of: visible, and not beginning with a line terminator. *)
Definition star_visible (seg : string) : bool :=
  lookahead_any seg && negb (dotted seg).

(** The characters that start glob syntax other than [*]. *)
Definition extended_meta (c : ascii) : bool :=
  existsb (Ascii.eqb c)
    ["?"; "["; "]"; "{"; "}"; "("; ")"; "\"]%char.

(** The pattern is in the modelled fragment: no other glob syntax, and
    neither a comment ([#...]) nor a negation ([!...]) of [minimatch]'s
    own. *)
Definition in_fragment (pattern : string) : bool :=
  all_chars (fun c => negb (extended_meta c)) pattern &&
  negb (charAt0_is "#"%char pattern) &&
  negb (charAt0_is "!"%char pattern).

(** No glob syntax at all: the string matches itself only. *)
Definition glob_free (s : string) : bool :=
  all_chars (fun c => negb (extended_meta c) && negb (Ascii.eqb c star)) s.

Section Matching.
(** The rest of [minimatch]: the verdict for a pattern outside the
    fragment. *)
Variable extended_match : string -> string -> bool.

(** [new Minimatch(pattern).match(file)], for a pattern within the length
    the library accepts: the pattern is trimmed first, and pattern and
    path are split at runs of slashes. *)
Definition minimatch (file pattern : string) : bool :=
  let pattern := trim pattern in
  if String.eqb pattern "" then String.eqb file ""
  else if in_fragment pattern then
    matchOne (List.map parse_part (slashSplit pattern)) (slashSplit file)
  else extended_match file pattern.

(** [minimatch.match([item], pattern)]. *)
Definition minimatch_match (item pattern : string) : list string :=
  if minimatch item pattern then [item] else [].

(** [array-union] and [array-differ] on string arrays. *)
Definition union (a b : list string) : list string :=
  a ++ List.filter (fun x => negb (existsb (String.eqb x) a)) b.

Definition difference (a b : list string) : list string :=
  List.filter (fun x => negb (existsb (String.eqb x) b)) a.

(** [multimatch(item, patterns)] for a single path: patterns are applied
    in order, a plain one adding its matches to the result and a negated
    one removing them. *)
Definition multimatch (item : string) (patterns : list string)
  : list string :=
  fold_left
    (fun result pattern =>
       if charAt0_is "!"%char pattern
       then difference result (minimatch_match item (substr1 pattern))
       else union result (minimatch_match item pattern))
    patterns [].
End Matching.

End Glob.

(* ===================================================================== *)
(** ** [file-filter.js] *)
(* ===================================================================== *)

Module FileFilter.
Import JsString NodePath.

Section Filter.
(** [process.cwd()]. *)
Variable cwd : string.
Variable extended_match : string -> string -> bool.

(** [isSubPath(src, target)]. *)
Definition isSubPath (src target : string) : bool :=
  let relate := relative cwd src target in
  if negb (truthy relate) then false
  else if String.eqb relate ".." then false
  else negb (startsWith (".." +:+ sep) relate).

(** The two fields of a [FileFilter]. *)
Record t : Type := mk {
  filesToIgnore : list string;
  sourceDir : string
}.

Definition defaultBaseIgnoredPatterns : list string :=
  [ "**/*.xpi"; "**/*.zip"; "**/.*"; "**/.*/**/*";
    "**/node_modules"; "**/node_modules/**/*" ].

(** [resolveWithSourceDir(file)]. *)
Definition resolveWithSourceDir (this : t) (file : string) : string :=
  resolve cwd [sourceDir this; file].

(** The segments of [resolveWithSourceDir(file)]. *)
Definition segmentsWithSourceDir (this : t) (file : string)
  : list string :=
  resolve_segs cwd [sourceDir this; file].

(** What one pattern adds to [filesToIgnore]. *)
Definition ignore_entry (src file : string) : string :=
  if charAt0_is "!"%char file
  then "!" +:+ resolve cwd [src; substr1 file]
  else resolve cwd [src; file].

(** [addToIgnoreList(files)]. *)
Definition addToIgnoreList (this : t) (files : list string) : t :=
  fold_left
    (fun this file =>
       if charAt0_is "!"%char file then
         let resolvedFile := resolveWithSourceDir this (substr1 file) in
         mk (filesToIgnore this ++ ["!" +:+ resolvedFile]) (sourceDir this)
       else
         mk (filesToIgnore this ++ [resolveWithSourceDir this file])
            (sourceDir this))
    files this.

(** The constructor.  An argument left out is [None]; [ignoreFiles] may
    also be given as [null], which is [None] as well. *)
Definition new (baseIgnoredPatterns ignoreFiles : option (list string))
    (sourceDir0 : string) (artifactsDir : option string) : t :=
  let baseIgnoredPatterns :=
    default defaultBaseIgnoredPatterns baseIgnoredPatterns in
  let sourceDir1 := resolve cwd [sourceDir0] in
  let this := mk [] sourceDir1 in
  let this := addToIgnoreList this baseIgnoredPatterns in
  let this :=
    match ignoreFiles with
    | Some files => addToIgnoreList this files
    | None => this
    end in
  match artifactsDir with
  | Some a =>
      if truthy a && isSubPath sourceDir1 a then
        let a' := resolve cwd [a] in
        addToIgnoreList this [a'; join_paths [a'; "**"; "*"]]
      else this
  | None => this
  end.

(** [wantFile(filePath)]. *)
Definition wantFile (this : t) (filePath : string) : bool :=
  let resolvedPath := resolveWithSourceDir this filePath in
  let matches :=
    Glob.multimatch extended_match resolvedPath (filesToIgnore this) in
  if Nat.ltb 0 (length matches) then false else true.

End Filter.
End FileFilter.

(* ===================================================================== *)
(** ** [extension-runners/firefox-desktop.js] *)
(* ===================================================================== *)

Module Runner.

(** *** Values *)

(** Modelled from the spec: the error classes of [errors.js], which the
    runner imports.  [WebExtError] is the class behind the kinds the design
    document names ConfigurationError, UntrackedExtensionError and
    UnsupportedInstallModeError; [RemoteTempInstallNotSupported] is what the
    protocol client rejects with on a browser too old for temporary
    installs; [MultiExtensionsReloadError] is the aggregate error, built
    from the per-directory map it carries.  All of them are [Error]s. *)
Inductive error_class : Type :=
| PlainError
| TypeError
| WebExtError
| RemoteTempInstallNotSupported
| OtherErrorClass (name : string).

#[local] Unset Elimination Schemes.
(** What a promise can reject with or a function throw: an [Error] object,
    the aggregate reload error, or any other JavaScript value.  Of the
    other values, some cannot be put into a template literal: a Symbol, an
    object with neither [toString] nor [valueOf], an object whose
    [toString] throws.  [Unprintable] is such a value, with what the
    conversion throws (a [TypeError] for the first two). *)
Inductive js_value : Type :=
| ErrorObject (cls : error_class) (message : string)
| MultiExtensionsReloadError (errorsBySourceDir : gmap string js_value)
| NonError (repr : string)
| Unprintable (conversionError : js_value).
#[local] Set Elimination Schemes.

(** [v instanceof Error]. *)
Definition instanceof_Error (v : js_value) : bool :=
  match v with
  | ErrorObject _ _ => true
  | MultiExtensionsReloadError _ => true
  | NonError _ => false
  | Unprintable _ => false
  end.

(** What the conversion of [v] in a template literal throws, if it
    throws. *)
Definition template_error (v : js_value) : option js_value :=
  match v with
  | Unprintable conversionError => Some conversionError
  | _ => None
  end.

(** [v instanceof RemoteTempInstallNotSupported]. *)
Definition instanceof_RemoteTempInstallNotSupported (v : js_value) : bool :=
  match v with
  | ErrorObject RemoteTempInstallNotSupported _ => true
  | _ => false
  end.

(** How an awaited call or a callback ends. *)
Inductive outcome (A : Type) : Type :=
| Returned (a : A)
| Thrown (v : js_value).
Arguments Returned {A} a.
Arguments Thrown {A} v.

(** Opaque handles handed out by the collaborators, and the identity of a
    callback function object. *)
Definition profile_handle : Type := nat.
Definition process_handle : Type := nat.
Definition session_handle : Type := nat.
Definition callback : Type := nat.

Record extension : Type := mkExtension {
  ext_sourceDir : string;
  ext_manifestData : option string
}.

Inductive start_url : Type :=
| NoStartUrl
| OneStartUrl (url : string)
| StartUrls (urls : list string).

Record params_t : Type := mkParams {
  customPrefs : option string;
  extensions : list extension;
  keepProfileChanges : bool;
  preInstall : bool;
  profilePath : option string;
  firefoxBinary : option string;
  browserConsole : bool;
  devtools : bool;
  startUrl : start_url;
  args : option (list string)
}.

(** What [firefoxApp.run] resolves to. *)
Record running_info : Type := mkRunningInfo {
  firefox : option process_handle;
  debuggerPort : N
}.

(** What [installTemporaryAddon] resolves to: [installResult.addon.id] is
    read from it, so a missing [installResult] or [addon] matters. *)
Inductive install_result : Type :=
| NoInstallResult
| NoAddon
| Addon (id : option string).

Inductive log_message : Type :=
| UsingProfile (path : string)
| CopyingProfile (path : string)
| CreatingProfile
| CaughtError (error : js_value)
| CleanupException (error : js_value).

(** The calls the runner makes on its collaborators, each with how it
    ended. *)
Inductive event : Type :=
| EvUseProfile (path : string) (r : outcome profile_handle)
| EvCopyProfile (path : string) (r : outcome profile_handle)
| EvCreateProfile (r : outcome profile_handle)
| EvInstallExtension (asProxy : bool) (extensionPath : string)
    (r : outcome unit)
| EvRun (binaryArgs : list string) (r : outcome (option running_info))
| EvOnClose (p : process_handle)
| EvKill (p : process_handle)
| EvConnect (port : N) (r : outcome (option session_handle))
| EvInstallTemporaryAddon (s : session_handle) (sourceDir : string)
    (devtools : bool) (r : outcome install_result)
| EvReloadAddon (s : session_handle) (addonId : string) (r : outcome unit)
| EvCleanupCallback (cb : callback) (r : outcome unit)
| EvLogDebug (m : log_message)
| EvLogError (m : log_message).

Definition trace : Type := list event.

(** The collaborators: each answer may depend on everything that happened
    before.  A cleanup callback is known by how it ends, returning or
    throwing; one that would register further callbacks while the observer
    runs is not modelled (the design document leaves that case undefined).
    Attaching the observer and sending the kill are recorded and do not
    throw. *)
Record collaborators : Type := mkCollaborators {
  useProfile : trace -> string -> outcome profile_handle;
  copyProfile : trace -> string -> outcome profile_handle;
  createProfile : trace -> outcome profile_handle;
  installExtension : trace -> string -> outcome unit;
  firefoxApp_run : trace -> list string -> outcome (option running_info);
  firefoxClient : trace -> N -> outcome (option session_handle);
  installTemporaryAddon :
    trace -> session_handle -> string -> bool -> outcome install_result;
  reloadAddon : trace -> session_handle -> string -> outcome unit;
  call_callback : trace -> callback -> outcome unit
}.

(** *** A [Set] in insertion order *)

Definition set_has (s : list callback) (x : callback) : bool :=
  existsb (Nat.eqb x) s.

(** [s.add(x)]. *)
Definition set_add (s : list callback) (x : callback) : list callback :=
  if set_has s x then s else s ++ [x].

(** *** The runner object *)

Record state : Type := mkState {
  cleanupCallbacks : list callback;
  params : params_t;
  profile : option profile_handle;
  reloadableExtensions : gmap string string;
  remoteFirefox : option session_handle;
  runningInfo : option running_info
}.

Record reload_result : Type := mkReloadResult {
  runnerName : string;
  sourceDir : option string;
  reloadError : option js_value
}.

(** [new FirefoxDesktopExtensionRunner(params)]. *)
Definition new (p : params_t) : state :=
  {| cleanupCallbacks := [];
     params := p;
     profile := None;
     reloadableExtensions := ∅;
     remoteFirefox := None;
     runningInfo := None |}.

(** *** The monad of the methods: runner state, trace, exceptions *)

Definition M (A : Type) : Type := state -> trace -> outcome A * state * trace.

Definition ret {A} (a : A) : M A := fun st tr => (Returned a, st, tr).

Definition throw {A} (v : js_value) : M A := fun st tr => (Thrown v, st, tr).

Definition bind {A B} (m : M A) (k : A -> M B) : M B :=
  fun st tr =>
    match m st tr with
    | (Returned a, st', tr') => k a st' tr'
    | (Thrown v, st', tr') => (Thrown v, st', tr')
    end.

Definition try_catch {A} (m : M A) (handler : js_value -> M A) : M A :=
  fun st tr =>
    match m st tr with
    | (Returned a, st', tr') => (Returned a, st', tr')
    | (Thrown v, st', tr') => handler v st' tr'
    end.

Definition get : M state := fun st tr => (Returned st, st, tr).

Definition modify (f : state -> state) : M unit :=
  fun st tr => (Returned tt, f st, tr).

Definition emit (e : event) : M unit :=
  fun st tr => (Returned tt, st, tr ++ [e]).

(** An awaited call: the collaborator answers from the trace so far, the
    call and its answer are recorded, a rejection is thrown. *)
Definition await {A} (answer : trace -> outcome A)
    (record : outcome A -> event) : M A :=
  fun st tr =>
    let r := answer tr in (r, st, tr ++ [record r]).

Declare Scope runner_scope.
Delimit Scope runner_scope with runner.
Notation "'let*' x ':=' m 'in' k" := (bind m (fun x => k))
  (at level 10, x name, m at level 100, k at level 200) : runner_scope.
Notation "m ';;;' k" := (bind m (fun _ => k))
  (at level 100, k at level 200, right associativity) : runner_scope.
Local Open Scope runner_scope.

(** [for (const x of l) { body }]. *)
Fixpoint for_of {A} (l : list A) (body : A -> M unit) : M unit :=
  match l with
  | [] => ret tt
  | x :: l' => body x ;;; for_of l' body
  end.

Definition set_profile (p : profile_handle) (st : state) : state :=
  {| cleanupCallbacks := cleanupCallbacks st;
     params := params st;
     profile := Some p;
     reloadableExtensions := reloadableExtensions st;
     remoteFirefox := remoteFirefox st;
     runningInfo := runningInfo st |}.

Definition set_runningInfo (ri : option running_info) (st : state) : state :=
  {| cleanupCallbacks := cleanupCallbacks st;
     params := params st;
     profile := profile st;
     reloadableExtensions := reloadableExtensions st;
     remoteFirefox := remoteFirefox st;
     runningInfo := ri |}.

Definition set_remoteFirefox (s : option session_handle) (st : state)
  : state :=
  {| cleanupCallbacks := cleanupCallbacks st;
     params := params st;
     profile := profile st;
     reloadableExtensions := reloadableExtensions st;
     remoteFirefox := s;
     runningInfo := runningInfo st |}.

Definition set_reloadable (k v : string) (st : state) : state :=
  {| cleanupCallbacks := cleanupCallbacks st;
     params := params st;
     profile := profile st;
     reloadableExtensions := <[k := v]> (reloadableExtensions st);
     remoteFirefox := remoteFirefox st;
     runningInfo := runningInfo st |}.

Definition add_cleanup (fn : callback) (st : state) : state :=
  {| cleanupCallbacks := set_add (cleanupCallbacks st) fn;
     params := params st;
     profile := profile st;
     reloadableExtensions := reloadableExtensions st;
     remoteFirefox := remoteFirefox st;
     runningInfo := runningInfo st |}.

Definition dquote : string := String (ascii_of_nat 34) EmptyString.

Definition not_reloadable_message (extensionSourceDir : string) : string :=
  "Extension not reloadable: " +:+
  ("no addonId has been mapped to " +:+ dquote +:+ extensionSourceDir
     +:+ dquote).

Definition no_instance_message : string :=
  "No firefox instance is currently running".

Definition missing_addonId_message : string :=
  "Unexpected missing addonId in the installAsTemporaryAddon result".

Definition temp_install_unsupported_message : string :=
  "Temporary add-on installation is not supported in this version" +:+
  " of Firefox (you need Firefox 49 or higher). For older Firefox" +:+
  " versions, use --pre-install".

(** The [TypeError] of reading a property of [undefined]. *)
Definition undefined_property (name : string) : js_value :=
  ErrorObject TypeError
    ("Cannot read properties of undefined (reading '" +:+ name +:+ "')").

Section Methods.
Variable world : collaborators.

(** [getName()]. *)
Definition getName : string := "Firefox Desktop".

(** [setupProfileDir()]. *)
Definition setupProfileDir : M unit :=
  let* st := get in
  let p := params st in
  (match profilePath p with
   | Some path =>
       if JsString.truthy path then
         if keepProfileChanges p then
           emit (EvLogDebug (UsingProfile path)) ;;;
           let* h := await (fun tr => useProfile world tr path)
                       (EvUseProfile path) in
           modify (set_profile h)
         else
           emit (EvLogDebug (CopyingProfile path)) ;;;
           let* h := await (fun tr => copyProfile world tr path)
                       (EvCopyProfile path) in
           modify (set_profile h)
       else
         emit (EvLogDebug CreatingProfile) ;;;
         let* h := await (createProfile world) EvCreateProfile in
         modify (set_profile h)
   | None =>
       emit (EvLogDebug CreatingProfile) ;;;
       let* h := await (createProfile world) EvCreateProfile in
       modify (set_profile h)
   end) ;;;
  if preInstall p then
    for_of (extensions p) (fun extension =>
      await (fun tr => installExtension world tr (ext_sourceDir extension))
        (EvInstallExtension true (ext_sourceDir extension)))
  else ret tt.

(** The arguments of the browser binary. *)
Definition binaryArgs_of (p : params_t) : list string :=
  (if browserConsole p then ["-jsconsole"] else []) ++
  (match startUrl p with
   | NoStartUrl => []
   | OneStartUrl url =>
       if JsString.truthy url then ["--url"; url] else []
   | StartUrls urls => flat_map (fun url => ["--url"; url]) urls
   end) ++
  (match args p with
   | Some a => a
   | None => []
   end).

(** The listener of the process's [close] event.  The message of the log
    entry is built in the [catch] block, from the value caught: when that
    value cannot be converted, the conversion throws out of the block, and
    so out of the loop and of the listener. *)
Definition closeObserver : M unit :=
  let* st := get in
  for_of (cleanupCallbacks st) (fun cleanupCb =>
    try_catch
      (await (fun tr => call_callback world tr cleanupCb)
         (EvCleanupCallback cleanupCb))
      (fun error =>
         match template_error error with
         | Some conversionError => throw conversionError
         | None => emit (EvLogError (CleanupException error))
         end)).

(** One turn of the loop that installs the temporary addons. *)
Definition install_one (remote : option session_handle) (devtools0 : bool)
    (extension : extension) : M unit :=
  try_catch
    (let* addonId :=
       match remote with
       | None => throw (undefined_property "installTemporaryAddon")
       | Some s =>
           let* installResult :=
             await (fun tr => installTemporaryAddon world tr s
                                (ext_sourceDir extension) devtools0)
               (EvInstallTemporaryAddon s (ext_sourceDir extension)
                  devtools0) in
           match installResult with
           | NoInstallResult => throw (undefined_property "addon")
           | NoAddon => throw (undefined_property "id")
           | Addon id => ret id
           end
       end in
     match addonId with
     | Some id =>
         if JsString.truthy id then
           modify (set_reloadable (ext_sourceDir extension) id)
         else throw (ErrorObject WebExtError missing_addonId_message)
     | None => throw (ErrorObject WebExtError missing_addonId_message)
     end)
    (fun error =>
       if instanceof_RemoteTempInstallNotSupported error then
         emit (EvLogDebug (CaughtError error)) ;;;
         throw (ErrorObject WebExtError temp_install_unsupported_message)
       else throw error).

(** [startFirefoxInstance()]. *)
Definition startFirefoxInstance : M unit :=
  let* st := get in
  let p := params st in
  let binaryArgs := binaryArgs_of p in
  let* ri := await (fun tr => firefoxApp_run world tr binaryArgs)
               (EvRun binaryArgs) in
  modify (set_runningInfo ri) ;;;
  (match ri with
   | None => throw (undefined_property "firefox")
   | Some info =>
       match firefox info with
       | None => throw (undefined_property "on")
       | Some proc => emit (EvOnClose proc)
       end ;;;
       if negb (preInstall p) then
         let* remote :=
           await (fun tr => firefoxClient world tr (debuggerPort info))
             (EvConnect (debuggerPort info)) in
         modify (set_remoteFirefox remote) ;;;
         for_of (extensions p) (install_one remote (devtools p))
       else ret tt
   end).

(** [run()]. *)
Definition run : M unit :=
  setupProfileDir ;;; startFirefoxInstance.

(** [reloadExtensionBySourceDir(extensionSourceDir)]. *)
Definition reloadExtensionBySourceDir (extensionSourceDir : string)
  : M (list reload_result) :=
  let runnerName := getName in
  let* st := get in
  let not_reloadable :=
    ret [ {| sourceDir := Some extensionSourceDir;
             reloadError :=
               Some (ErrorObject WebExtError
                       (not_reloadable_message extensionSourceDir));
             runnerName := runnerName |} ] in
  match reloadableExtensions st !! extensionSourceDir with
  | None => not_reloadable
  | Some addonId =>
      if negb (JsString.truthy addonId) then not_reloadable
      else
        try_catch
          (match remoteFirefox st with
           | None => throw (undefined_property "reloadAddon")
           | Some s =>
               await (fun tr => reloadAddon world tr s addonId)
                 (EvReloadAddon s addonId)
           end ;;;
           ret [ {| runnerName := runnerName;
                    sourceDir := Some extensionSourceDir;
                    reloadError := None |} ])
          (fun error =>
             ret [ {| sourceDir := Some extensionSourceDir;
                      reloadError := Some error;
                      runnerName := runnerName |} ])
  end.

(** [res.reloadError instanceof Error]. *)
Definition reloadError_is_Error (res : reload_result) : bool :=
  match reloadError res with
  | Some v => instanceof_Error v
  | None => false
  end.

(** The loop of [reloadAllExtensions], threading the local map
    [reloadErrors]. *)
Fixpoint reload_loop (exts : list extension)
    (reloadErrors : gmap string js_value) : M (gmap string js_value) :=
  match exts with
  | [] => ret reloadErrors
  | ext :: exts' =>
      let* results := reloadExtensionBySourceDir (ext_sourceDir ext) in
      match results with
      | res :: _ =>
          match reloadError res with
          | Some v =>
              if instanceof_Error v
              then reload_loop exts' (<[ext_sourceDir ext := v]> reloadErrors)
              else reload_loop exts' reloadErrors
          | None => reload_loop exts' reloadErrors
          end
      | [] => throw (undefined_property "reloadError")
      end
  end.

(** [reloadAllExtensions()]. *)
Definition reloadAllExtensions : M (list reload_result) :=
  let runnerName := getName in
  let* st := get in
  let* reloadErrors := reload_loop (extensions (params st)) ∅ in
  if Nat.ltb 0 (size reloadErrors) then
    ret [ {| runnerName := runnerName;
             sourceDir := None;
             reloadError := Some (MultiExtensionsReloadError reloadErrors) |} ]
  else
    ret [ {| runnerName := runnerName;
             sourceDir := None;
             reloadError := None |} ].

(** [registerCleanup(fn)]. *)
Definition registerCleanup (fn : callback) : M unit :=
  modify (add_cleanup fn).

(** [exit()]. *)
Definition exit : M unit :=
  let* st := get in
  match runningInfo st with
  | None => throw (ErrorObject WebExtError no_instance_message)
  | Some info =>
      match firefox info with
      | None => throw (ErrorObject WebExtError no_instance_message)
      | Some proc => emit (EvKill proc)
      end
  end.

(** *** Using a runner *)

(** What a client, or the browser process, can do with a runner. *)
Inductive operation : Type :=
| OpRun
| OpReloadAllExtensions
| OpReloadExtensionBySourceDir (extensionSourceDir : string)
| OpRegisterCleanup (fn : callback)
| OpExit
| OpProcessClose.

Definition forget {A} (m : M A) : M unit := m ;;; ret tt.

Definition perform (op : operation) : M unit :=
  match op with
  | OpRun => run
  | OpReloadAllExtensions => forget reloadAllExtensions
  | OpReloadExtensionBySourceDir d => forget (reloadExtensionBySourceDir d)
  | OpRegisterCleanup fn => registerCleanup fn
  | OpExit => exit
  | OpProcessClose => closeObserver
  end.

(** A history of operations on one runner; one that throws leaves the
    runner as it is at that point and the client carries on. *)
Fixpoint perform_all (ops : list operation) (st : state) (tr : trace)
  : state * trace :=
  match ops with
  | [] => (st, tr)
  | op :: ops' =>
      let '(_, st', tr') := perform op st tr in perform_all ops' st' tr'
  end.
End Methods.
End Runner.

(* ===================================================================== *)
(** ** Vocabulary for the properties of the runner *)
(* ===================================================================== *)

Module RunnerSpec.
Import Runner.

(** A specification of a method: from a runner and a trace that satisfy
    [P], the method ends in an outcome, a runner and a trace that satisfy
    [Q]. *)
Definition triple {A} (P : state -> trace -> Prop) (m : M A)
    (Q : outcome A -> state -> trace -> Prop) : Prop :=
  forall st tr, P st tr ->
    match m st tr with
    | (r, st', tr') => Q r st' tr'
    end.

Definition is_temporary_install (e : event) : bool :=
  match e with
  | EvInstallTemporaryAddon _ _ _ _ => true
  | _ => false
  end.

(** [m] keeps the invariant [I], whatever its outcome. *)
Definition keeps {A} (I : state -> trace -> Prop) (m : M A) : Prop :=
  triple I m (fun _ st tr => I st tr).

(** An invariant that survives the recording of any event but a temporary
    install, and any update of the runner but one of the map or of the
    callbacks. *)
Record stable (I : state -> trace -> Prop) : Prop := {
  stable_event : forall st tr e,
    is_temporary_install e = false -> I st tr -> I st (tr ++ [e]);
  stable_profile : forall st tr h, I st tr -> I (set_profile h st) tr;
  stable_runningInfo : forall st tr ri,
    I st tr -> I (set_runningInfo ri st) tr;
  stable_remoteFirefox : forall st tr s,
    I st tr -> I (set_remoteFirefox s st) tr
}.

(** An invariant that nothing but [registerCleanup] can break. *)
Record steady (I : state -> trace -> Prop) : Prop := {
  steady_event : forall st tr e, I st tr -> I st (tr ++ [e]);
  steady_profile : forall st tr h, I st tr -> I (set_profile h st) tr;
  steady_runningInfo : forall st tr ri,
    I st tr -> I (set_runningInfo ri st) tr;
  steady_remoteFirefox : forall st tr s,
    I st tr -> I (set_remoteFirefox s st) tr;
  steady_reloadable : forall st tr k v,
    I st tr -> I (set_reloadable k v st) tr
}.

(** The callbacks a trace shows as invoked, in order. *)
Fixpoint cleanup_calls (tr : trace) : list callback :=
  match tr with
  | [] => []
  | EvCleanupCallback cb _ :: tr' => cb :: cleanup_calls tr'
  | _ :: tr' => cleanup_calls tr'
  end.


(** The addon id is absent or empty: [!addonId]. *)
Definition missing_id (id : option string) : bool :=
  match id with
  | Some s => negb (JsString.truthy s)
  | None => true
  end.

(** A temporary install that resolved without a usable addon id. *)
Definition install_without_id (e : event) : bool :=
  match e with
  | EvInstallTemporaryAddon _ _ _ (Returned (Addon id)) => missing_id id
  | _ => false
  end.

(** The trace shows a temporary install of [dir] that completed: the
    session resolved it with the addon id [id]. *)
Definition installed_as (tr : trace) (dir id : string) : Prop :=
  id <> "" /\
  exists s dv,
    In (EvInstallTemporaryAddon s dir dv (Returned (Addon (Some id)))) tr.

Definition installed (tr : trace) (dir : string) : Prop :=
  exists id, installed_as tr dir id.

(** The invariant of the map of reloadable extensions. *)
Definition tracking_invariant (p : params_t) (st : state) (tr : trace)
  : Prop :=
  params st = p /\
  (forall dir id,
     reloadableExtensions st !! dir = Some id -> installed_as tr dir id) /\
  (forall dir, installed tr dir -> is_Some (reloadableExtensions st !! dir)) /\
  (preInstall p = true ->
   Forall (fun e => is_temporary_install e = false) tr).


(** The process [proc] of [info] is the one the runner tracks, and the
    close observer is attached to it. *)
Definition launched_with (info : running_info) (proc : process_handle)
    (st : state) (tr : trace) : Prop :=
  runningInfo st = Some info /\ firefox info = Some proc /\
  In (EvOnClose proc) tr.

(** Since the trace [tr0], no temporary install resolved without an addon
    id. *)
Definition no_missing_id_since (tr0 : trace) (st : state) (tr : trace)
  : Prop :=
  exists new,
    tr = tr0 ++ new /\ Forall (fun e => install_without_id e = false) new.

(** Since the trace [tr0], the last event, and only the last, is a
    temporary install that resolved without an addon id. *)
Definition stopped_at_missing_id (tr0 : trace) (tr : trace) : Prop :=
  exists pre e,
    tr = tr0 ++ pre ++ [e] /\ install_without_id e = true /\
    Forall (fun e => install_without_id e = false) pre.

(** [m] keeps [I] unless it throws, and then it may end in [E]
    instead. *)
Definition keeps_unless {A} (I : state -> trace -> Prop)
    (E : js_value -> state -> trace -> Prop) (m : M A) : Prop :=
  triple I m
    (fun r st tr =>
       I st tr \/
       match r with
       | Thrown v => E v st tr
       | Returned _ => False
       end).

(** The error of an install that resolved without an addon id. *)
Definition missing_addonId_error : js_value :=
  ErrorObject WebExtError missing_addonId_message.

(** [reloadErrors.set(sourceDir, error)]. *)
Definition record_failure (m : gmap string js_value)
    (f : string * js_value) : gmap string js_value :=
  <[f.1 := f.2]> m.

(** The result of a reload that was not attempted: no addon id is
    mapped to the directory. *)
Definition not_reloadable (dir : string) : reload_result :=
  {| runnerName := getName;
     sourceDir := Some dir;
     reloadError :=
       Some (ErrorObject WebExtError (not_reloadable_message dir)) |}.


Section Reloads.
Variable world : collaborators.

(** What the close observer does with the callbacks [cbs]: how it ends,
    and what it adds to the trace.  Each call is recorded with how it ended,
    and the log entry of one that threw right after it; a callback that
    throws a value the log entry cannot be built from ends the observer,
    with what the conversion throws. *)
Fixpoint close_run (cbs : list callback) (tr : trace)
  : outcome unit * list event :=
  match cbs with
  | [] => (Returned tt, [])
  | cb :: cbs' =>
      let r := call_callback world tr cb in
      let call := EvCleanupCallback cb r in
      match r with
      | Returned _ =>
          let '(o, es) := close_run cbs' (tr ++ [call]) in (o, call :: es)
      | Thrown error =>
          match template_error error with
          | Some conversionError => (Thrown conversionError, [call])
          | None =>
              let entry := EvLogError (CleanupException error) in
              let '(o, es) := close_run cbs' (tr ++ [call; entry]) in
              (o, call :: entry :: es)
          end
      end
  end.

Definition close_events (cbs : list callback) (tr : trace) : list event :=
  (close_run cbs tr).2.

(** The per-extension results of a batch: each directory reloaded in
    turn, on the trace the reloads before it left. *)
Fixpoint reload_each (dirs : list string) (st : state) (tr : trace)
  : list (string * reload_result) * trace :=
  match dirs with
  | [] => ([], tr)
  | dir :: dirs' =>
      match reloadExtensionBySourceDir world dir st tr with
      | (Returned (res :: _), _, tr1) =>
          let '(rs, tr2) := reload_each dirs' st tr1 in
          ((dir, res) :: rs, tr2)
      | (_, _, tr1) => ([], tr1)
      end
  end.

(** The per-directory errors of a batch, as [reloadAllExtensions] reads
    them: the results whose error is an [Error]. *)
Definition failures (rs : list (string * reload_result))
  : list (string * js_value) :=
  flat_map
    (fun '(dir, res) =>
       match reloadError res with
       | Some v => if instanceof_Error v then [(dir, v)] else []
       | None => []
       end) rs.
End Reloads.

End RunnerSpec.

(* ===================================================================== *)
(** ** Collaborators and configurations to run the model on *)
(* ===================================================================== *)

Module RunnerExamples.
Import Runner.

(** Collaborators that never fail: the browser starts as process 1 with
    its debugger on port 6000, the session is 1, and an extension installed
    from [dir] gets the addon id [addon@dir]. *)
Definition friendly : collaborators :=
  {| useProfile := fun _ _ => Returned 1;
     copyProfile := fun _ _ => Returned 2;
     createProfile := fun _ => Returned 3;
     installExtension := fun _ _ => Returned tt;
     firefoxApp_run := fun _ _ =>
       Returned (Some {| firefox := Some 1; debuggerPort := 6000%N |});
     firefoxClient := fun _ _ => Returned (Some 1);
     installTemporaryAddon := fun _ _ dir _ =>
       Returned (Addon (Some ("addon@" +:+ dir)));
     reloadAddon := fun _ _ _ => Returned tt;
     call_callback := fun _ _ => Returned tt |}.

(** As [friendly], but a reload rejects with a value that is not an
    [Error]. *)
Definition rejecting_with_a_string : collaborators :=
  {| useProfile := useProfile friendly;
     copyProfile := copyProfile friendly;
     createProfile := createProfile friendly;
     installExtension := installExtension friendly;
     firefoxApp_run := firefoxApp_run friendly;
     firefoxClient := firefoxClient friendly;
     installTemporaryAddon := installTemporaryAddon friendly;
     reloadAddon := fun _ _ _ => Thrown (NonError "connection lost");
     call_callback := call_callback friendly |}.

(** As [friendly], but a reload of the addon of [/ext/b] rejects with an
    [Error], and callback 2 throws. *)
Definition failing_b : collaborators :=
  {| useProfile := useProfile friendly;
     copyProfile := copyProfile friendly;
     createProfile := createProfile friendly;
     installExtension := installExtension friendly;
     firefoxApp_run := firefoxApp_run friendly;
     firefoxClient := firefoxClient friendly;
     installTemporaryAddon := installTemporaryAddon friendly;
     reloadAddon := fun _ _ addonId =>
       if String.eqb addonId "addon@/ext/b"
       then Thrown (ErrorObject WebExtError "reload failed")
       else Returned tt;
     call_callback := fun _ cb =>
       if Nat.eqb cb 2 then Thrown (ErrorObject PlainError "cleanup failed")
       else Returned tt |}.

(** As [friendly], but the install of [/ext/b] resolves with an empty
    addon id. *)
Definition forgetting_id_of_b : collaborators :=
  {| useProfile := useProfile friendly;
     copyProfile := copyProfile friendly;
     createProfile := createProfile friendly;
     installExtension := installExtension friendly;
     firefoxApp_run := firefoxApp_run friendly;
     firefoxClient := firefoxClient friendly;
     installTemporaryAddon := fun _ _ dir _ =>
       if String.eqb dir "/ext/b" then Returned (Addon (Some ""))
       else Returned (Addon (Some ("addon@" +:+ dir)));
     reloadAddon := reloadAddon friendly;
     call_callback := call_callback friendly |}.

(** As [friendly], but callback 2 throws a Symbol. *)
Definition throwing_a_symbol : collaborators :=
  {| useProfile := useProfile friendly;
     copyProfile := copyProfile friendly;
     createProfile := createProfile friendly;
     installExtension := installExtension friendly;
     firefoxApp_run := firefoxApp_run friendly;
     firefoxClient := firefoxClient friendly;
     installTemporaryAddon := installTemporaryAddon friendly;
     reloadAddon := reloadAddon friendly;
     call_callback := fun _ cb =>
       if Nat.eqb cb 2
       then Thrown (Unprintable
                      (ErrorObject TypeError
                         "Cannot convert a Symbol value to a string"))
       else Returned tt |}.

Definition ext_a : extension := mkExtension "/ext/a" None.
Definition ext_b : extension := mkExtension "/ext/b" None.
Definition ext_c : extension := mkExtension "/ext/c" None.

(** A configuration with the given extensions and [preInstall] flag, and
    nothing else set. *)
Definition config (exts : list extension) (preInstall0 : bool) : params_t :=
  {| customPrefs := None;
     extensions := exts;
     keepProfileChanges := false;
     preInstall := preInstall0;
     profilePath := None;
     firefoxBinary := None;
     browserConsole := false;
     devtools := false;
     startUrl := NoStartUrl;
     args := None |}.

End RunnerExamples.

(* ===================================================================== *)
(** ** Vocabulary for further properties of the file filter *)
(* ===================================================================== *)

Module FilterSpec.
Import JsString NodePath.

(** [s.endsWith(suffix)]. *)
Fixpoint endsWith (suffix s : string) : bool :=
  String.eqb s suffix ||
  match s with
  | String _ s' => endsWith suffix s'
  | EmptyString => false
  end.

(** An entry of [filesToIgnore] as the filter writes them: an absolute
    path, or [!] and an absolute path. *)
Definition absolute_entry (e : string) : bool :=
  isAbsolute e || (charAt0_is "!"%char e && isAbsolute (substr1 e)).

Section Verdict.
Variable extended_match : string -> string -> bool.

(** The last pattern that matches decides: a plain one ignores the path, a
    negated one does not; with no match the path is not ignored. *)
Definition ignored_by (item : string) (patterns : list string) : bool :=
  fold_left
    (fun verdict pattern =>
       if charAt0_is "!"%char pattern
       then (if Glob.minimatch extended_match item (substr1 pattern)
             then false else verdict)
       else (if Glob.minimatch extended_match item pattern
             then true else verdict))
    patterns false.
End Verdict.

(** What a part asks of the segment it is matched with. *)
Definition part_accepts (p : Glob.part) (f : string) : bool :=
  match p with
  | Glob.Globstar => true
  | Glob.Literal s => String.eqb f s
  | Glob.Magic toks => Glob.magic_match toks f
  end.

(** The default patterns, as segments below the source directory. *)
Definition default_segments : list (list string) :=
  List.map (split slash) FileFilter.defaultBaseIgnoredPatterns.

(** The default patterns, as pattern parts below the source directory. *)
Definition default_parts : list (list Glob.part) :=
  List.map (List.map Glob.parse_part) default_segments.

End FilterSpec.

(* ===================================================================== *)
(** ** Vocabulary for further properties of the runner *)
(* ===================================================================== *)

Module RunnerMoreSpec.
Import Runner RunnerSpec.

(** How [setupProfileDir] gets its profile. *)
Inductive profile_mode : Type :=
| UseInPlace (path : string)
| CopyFrom (path : string)
| Fresh.

(** The mode a configuration selects: a profile path that is set and not
    empty is used in place when changes are to be kept and copied
    otherwise; without one a new profile is created. *)
Definition profile_mode_of (p : params_t) : profile_mode :=
  match profilePath p with
  | Some path =>
      if JsString.truthy path
      then (if keepProfileChanges p then UseInPlace path else CopyFrom path)
      else Fresh
  | None => Fresh
  end.

Definition profile_log (mode : profile_mode) : log_message :=
  match mode with
  | UseInPlace path => UsingProfile path
  | CopyFrom path => CopyingProfile path
  | Fresh => CreatingProfile
  end.

Definition profile_event (mode : profile_mode) (r : outcome profile_handle)
  : event :=
  match mode with
  | UseInPlace path => EvUseProfile path r
  | CopyFrom path => EvCopyProfile path r
  | Fresh => EvCreateProfile r
  end.

Definition is_profile_event (e : event) : bool :=
  match e with
  | EvUseProfile _ _ | EvCopyProfile _ _ | EvCreateProfile _ => true
  | _ => false
  end.

Definition is_kill (e : event) : bool :=
  match e with
  | EvKill _ => true
  | _ => false
  end.

(** The events of a protocol session that [run()] can cause: opening it and
    installing over it. *)
Definition is_session_event (e : event) : bool :=
  match e with
  | EvConnect _ _ | EvInstallTemporaryAddon _ _ _ _ => true
  | _ => false
  end.

(** The record of proxy installs that resolved, one for each of [dirs]. *)
Definition resolved_proxies (dirs : list string) : list event :=
  List.map (fun dir => EvInstallExtension true dir (Returned tt)) dirs.

(** Since the trace [tr0], only events that satisfy [ok] were recorded. *)
Definition only_since (ok : event -> bool) (tr0 : trace) (st : state)
    (tr : trace) : Prop :=
  exists new, tr = tr0 ++ new /\ Forall (fun e => ok e = true) new.

(** The error a reload reports for a directory without an addon id. *)
Definition not_reloadable_error (dir : string) : js_value :=
  ErrorObject WebExtError (not_reloadable_message dir).

(** The calls each operation makes on the collaborators: [run()] sets up
    the profile, launches, attaches the observer, connects and installs;
    a reload only reloads; [exit()] only kills; the close observer only
    calls the callbacks and logs the ones that throw; a registration calls
    nothing. *)
Definition may_record (op : operation) (e : event) : bool :=
  match op with
  | OpRun =>
      match e with
      | EvKill _ | EvReloadAddon _ _ _ | EvCleanupCallback _ _
      | EvLogError _ => false
      | _ => true
      end
  | OpReloadAllExtensions | OpReloadExtensionBySourceDir _ =>
      match e with
      | EvReloadAddon _ _ _ => true
      | _ => false
      end
  | OpRegisterCleanup _ => false
  | OpExit => is_kill e
  | OpProcessClose =>
      match e with
      | EvCleanupCallback _ _ | EvLogError _ => true
      | _ => false
      end
  end.

(** The result of a reload of [dir] that was attempted and ended as
    [r]. *)
Definition reload_result_of (dir : string) (r : outcome unit)
  : reload_result :=
  {| runnerName := getName;
     sourceDir := Some dir;
     reloadError :=
       match r with
       | Returned _ => None
       | Thrown v => Some v
       end |}.

Section Requests.
Variable world : collaborators.

Definition profile_request (mode : profile_mode) (tr : trace)
  : outcome profile_handle :=
  match mode with
  | UseInPlace path => useProfile world tr path
  | CopyFrom path => copyProfile world tr path
  | Fresh => createProfile world tr
  end.

(** The proxy installs of the directories [dirs], in turn, up to the first
    that is rejected: how the loop ends, and what it records. *)
Fixpoint proxy_loop (dirs : list string) (tr : trace)
  : outcome unit * list event :=
  match dirs with
  | [] => (Returned tt, [])
  | dir :: dirs' =>
      let r := installExtension world tr dir in
      let e := EvInstallExtension true dir r in
      match r with
      | Returned _ =>
          let '(r', es) := proxy_loop dirs' (tr ++ [e]) in (r', e :: es)
      | Thrown v => (Thrown v, [e])
      end
  end.

(** The proxy installs of [dirs] all resolve, each asked on the trace the
    ones before it left. *)
Fixpoint proxies_resolve (dirs : list string) (tr : trace) : bool :=
  match dirs with
  | [] => true
  | dir :: dirs' =>
      match installExtension world tr dir with
      | Returned _ =>
          proxies_resolve dirs'
            (tr ++ [EvInstallExtension true dir (Returned tt)])
      | Thrown _ => false
      end
  end.
End Requests.

End RunnerMoreSpec.

Module RunnerMoreExamples.
Import Runner RunnerExamples.

(** As [friendly], but no profile can be created. *)
Definition broken_profile : collaborators :=
  {| useProfile := useProfile friendly;
     copyProfile := copyProfile friendly;
     createProfile := fun _ => Thrown (ErrorObject PlainError "disk full");
     installExtension := installExtension friendly;
     firefoxApp_run := firefoxApp_run friendly;
     firefoxClient := firefoxClient friendly;
     installTemporaryAddon := installTemporaryAddon friendly;
     reloadAddon := reloadAddon friendly;
     call_callback := call_callback friendly |}.

(** As [friendly], but [/ext/b] cannot be installed into a profile. *)
Definition rejecting_proxy_b : collaborators :=
  {| useProfile := useProfile friendly;
     copyProfile := copyProfile friendly;
     createProfile := createProfile friendly;
     installExtension := fun _ dir =>
       if String.eqb dir "/ext/b"
       then Thrown (ErrorObject PlainError "not an extension")
       else Returned tt;
     firefoxApp_run := firefoxApp_run friendly;
     firefoxClient := firefoxClient friendly;
     installTemporaryAddon := installTemporaryAddon friendly;
     reloadAddon := reloadAddon friendly;
     call_callback := call_callback friendly |}.

(** As [friendly], but the browser does not start. *)
Definition no_browser : collaborators :=
  {| useProfile := useProfile friendly;
     copyProfile := copyProfile friendly;
     createProfile := createProfile friendly;
     installExtension := installExtension friendly;
     firefoxApp_run := fun _ _ =>
       Thrown (ErrorObject PlainError "binary not found");
     firefoxClient := firefoxClient friendly;
     installTemporaryAddon := installTemporaryAddon friendly;
     reloadAddon := reloadAddon friendly;
     call_callback := call_callback friendly |}.

(** As [friendly], but the browser is too old for temporary installs. *)
Definition old_browser : collaborators :=
  {| useProfile := useProfile friendly;
     copyProfile := copyProfile friendly;
     createProfile := createProfile friendly;
     installExtension := installExtension friendly;
     firefoxApp_run := firefoxApp_run friendly;
     firefoxClient := firefoxClient friendly;
     installTemporaryAddon := fun _ _ _ _ =>
       Thrown (ErrorObject RemoteTempInstallNotSupported
                 "installTemporaryAddon is not supported");
     reloadAddon := reloadAddon friendly;
     call_callback := call_callback friendly |}.

(** As [friendly], but the session rejects the temporary install of
    [/ext/b] as not supported. *)
Definition failing_install_of_b : collaborators :=
  {| useProfile := useProfile friendly;
     copyProfile := copyProfile friendly;
     createProfile := createProfile friendly;
     installExtension := installExtension friendly;
     firefoxApp_run := firefoxApp_run friendly;
     firefoxClient := firefoxClient friendly;
     installTemporaryAddon := fun _ _ dir _ =>
       if String.eqb dir "/ext/b"
       then Thrown (ErrorObject RemoteTempInstallNotSupported "too old")
       else Returned (Addon (Some ("addon@" +:+ dir)));
     reloadAddon := reloadAddon friendly;
     call_callback := call_callback friendly |}.

End RunnerMoreExamples.

(* ===================================================================== *)
(** ** Facts about strings and paths *)
(* ===================================================================== *)

Module JsStringFacts.
Import JsString.
#[local] Arguments String.append !_ _ / : simpl nomatch.

Lemma append_assoc (a b c : string) : (a +:+ b) +:+ c = a +:+ (b +:+ c).
Proof. induction a as [|x a IH]; simpl; congruence. Qed.

Lemma split_not_nil sep s : split sep s <> [].
Proof.
  destruct s as [|c s]; simpl; [discriminate |].
  destruct (Ascii.eqb c sep); [discriminate |].
  destruct (split sep s); discriminate.
Qed.

(** Splitting distributes over a separator in the middle. *)
Lemma split_app sep a b :
  split sep (a +:+ String sep b) = split sep a ++ split sep b.
Proof.
  induction a as [|c a IH]; simpl.
  - now rewrite Ascii.eqb_refl.
  - destruct (Ascii.eqb c sep); [now rewrite IH |].
    rewrite IH. pose proof (split_not_nil sep a) as Hne.
    destruct (split sep a); [congruence | reflexivity].
Qed.

Lemma split_no_slash s : no_slash s = true -> split slash s = [s].
Proof.
  unfold no_slash. induction s as [|c s IH]; simpl; [reflexivity |].
  intros H. apply andb_true_iff in H as [Hc Hs].
  apply negb_true_iff in Hc. rewrite Hc, (IH Hs). reflexivity.
Qed.

Lemma split_pieces_no_slash s : Forall (fun x => no_slash x = true) (split slash s).
Proof.
  induction s as [|c s IH]; simpl.
  - repeat constructor.
  - destruct (Ascii.eqb c slash) eqn:Hc.
    + constructor; [reflexivity | exact IH].
    + destruct (split slash s) as [|x xs]; [repeat constructor; unfold no_slash; simpl; now rewrite Hc |].
      inversion IH; subst. constructor; [| assumption].
      unfold no_slash in *. simpl. now rewrite Hc.
Qed.

Lemma join_cons x y l : join "/" (x :: y :: l) = x +:+ String slash (join "/" (y :: l)).
Proof. reflexivity. Qed.

(** Joining pieces that hold no separator and splitting again is the
    identity. *)
Lemma split_join l :
  l <> [] -> Forall (fun x => no_slash x = true) l ->
  split slash (join "/" l) = l.
Proof.
  induction l as [|x l IH]; [congruence |]. intros _ Hall.
  inversion Hall as [|? ? Hx Hl]; subst.
  destruct l as [|y l].
  - simpl. now apply split_no_slash.
  - rewrite join_cons, split_app, (split_no_slash x Hx), IH; [reflexivity | discriminate | assumption].
Qed.

Lemma all_chars_app p a b :
  all_chars p (a +:+ b) = all_chars p a && all_chars p b.
Proof.
  induction a as [|c a IH]; simpl; [reflexivity |].
  now rewrite IH, andb_assoc.
Qed.

Lemma all_chars_join p l :
  p slash = true -> Forall (fun x => all_chars p x = true) l ->
  all_chars p (join "/" l) = true.
Proof.
  intros Hs. induction l as [|x l IH]; intros Hall; [reflexivity |].
  inversion Hall as [|? ? Hx Hl]; subst.
  destruct l as [|y l]; [exact Hx |].
  rewrite join_cons, all_chars_app, Hx. simpl. rewrite Hs. simpl. now apply IH.
Qed.

Lemma eqb_neq (a b : string) : a <> b -> String.eqb a b = false.
Proof. apply String.eqb_neq. Qed.

(** A joined list is the empty string only for no piece or one empty
    piece. *)
Lemma join_empty l : join "/" l = "" -> l = [] \/ l = [""].
Proof.
  destruct l as [|x [|y l]]; simpl; intros H; auto.
  - right. now subst.
  - destruct x; discriminate.
Qed.

Lemma join_singleton_inv l s :
  no_slash s = true -> Forall (fun x => no_slash x = true) l ->
  join "/" l = s -> l = [s] \/ (l = [] /\ s = "").
Proof.
  intros Hs Hl Hj.
  destruct l as [|x l]; [right; split; [reflexivity | now simpl in Hj] |].
  left. assert (Hsp : split slash (join "/" (x :: l)) = x :: l)
    by (apply split_join; [discriminate | assumption]).
  rewrite Hj, (split_no_slash s Hs) in Hsp. congruence.
Qed.

Lemma startsWith_inv p s :
  startsWith p s = true -> exists t, s = p +:+ t.
Proof.
  revert s. induction p as [|a p IH]; intros s H; simpl in *.
  - now exists s.
  - destruct s as [|b s]; [discriminate |].
    apply andb_true_iff in H as [Hab Hp].
    apply Ascii.eqb_eq in Hab. subst b.
    destruct (IH s Hp) as [t ->]. now exists t.
Qed.

(** A joined list starts with [../] only if its first piece is [..] and
    another piece follows. *)
Lemma startsWith_dotdot_join x l :
  Forall (fun x => no_slash x = true) (x :: l) ->
  startsWith "../" (join "/" (x :: l)) = true -> x = ".." /\ l <> [].
Proof.
  intros Hall H. apply startsWith_inv in H as [t Ht].
  assert (Hsp : split slash (join "/" (x :: l)) = x :: l)
    by (apply split_join; [discriminate | assumption]).
  rewrite Ht in Hsp. simpl in Hsp.
  pose proof (split_not_nil slash t) as Hne.
  destruct (split slash t) as [|y ys]; [congruence |].
  inversion Hsp; subst. split; [reflexivity | discriminate].
Qed.

(** *** Trimming and runs of slashes *)

Lemma append_empty_r (s : string) : s +:+ "" = s.
Proof. induction s as [|c s IH]; simpl; congruence. Qed.

(** A string that ends with a piece that trimming keeps is kept whole. *)
Lemma trimEnd_app pre x :
  x <> "" -> trimEnd x = x -> trimEnd (pre +:+ x) = pre +:+ x.
Proof.
  intros Hx Hfix. induction pre as [|c pre IH]; [exact Hfix |].
  simpl. rewrite IH. destruct (pre +:+ x) eqn:E; [| reflexivity].
  destruct pre; [simpl in E; congruence | discriminate].
Qed.

Lemma join_snoc l x : exists pre, join "/" (l ++ [x]) = pre +:+ x.
Proof.
  induction l as [|y l IH]; [now exists "" |].
  destruct IH as [pre IH]. exists (y +:+ String slash pre).
  cbn [app]. destruct (l ++ [x]) as [|z r] eqn:E.
  - destruct l; discriminate.
  - rewrite join_cons, IH. now rewrite append_assoc.
Qed.

Lemma trim_path_snoc l x :
  x <> "" -> trimEnd x = x ->
  trim (String slash (join "/" (l ++ [x]))) =
  String slash (join "/" (l ++ [x])).
Proof.
  intros Hx Hfix. destruct (join_snoc l x) as [pre ->].
  unfold trim. cbn [trimStart white_space existsb List.map].
  change (String slash (pre +:+ x)) with (String slash pre +:+ x).
  now apply trimEnd_app.
Qed.

Lemma squeeze_no_slash x rest :
  no_slash x = true -> squeeze (x +:+ rest) = x +:+ squeeze rest.
Proof.
  unfold no_slash. induction x as [|c x IH]; simpl; [reflexivity |].
  intros H. apply andb_true_iff in H as [Hc Hx].
  apply negb_true_iff in Hc. rewrite Hc. cbn [andb]. now rewrite IH.
Qed.

(** A path made of solid segments has no run of slashes. *)
Lemma squeeze_join l :
  Forall (fun x => solid x = true) l ->
  squeeze (String slash (join "/" l)) = String slash (join "/" l).
Proof.
  induction l as [|x l IH]; intros Hall; [reflexivity |].
  inversion Hall as [|? ? Hx Hl]; subst.
  unfold solid in Hx. apply andb_true_iff in Hx as [Hne Hns].
  assert (Hhead : forall rest,
            squeeze (String slash (x +:+ rest)) =
            String slash (x +:+ squeeze rest)).
  { intros rest. destruct x as [|a x]; [discriminate |].
    pose proof Hns as Ha. unfold no_slash in Ha. simpl in Ha.
    apply andb_true_iff in Ha as [Ha _]. apply negb_true_iff in Ha.
    change (squeeze (String slash (String a x +:+ rest)))
      with (if Ascii.eqb slash slash &&
               charAt0_is slash (String a (x +:+ rest))
            then squeeze (String a x +:+ rest)
            else String slash (squeeze (String a x +:+ rest))).
    cbn [charAt0_is]. rewrite Ha, andb_false_r.
    now rewrite squeeze_no_slash. }
  destruct l as [|y l].
  - change (join "/" [x]) with x.
    rewrite <- (append_empty_r x) at 1. rewrite Hhead.
    cbn [squeeze]. now rewrite append_empty_r.
  - rewrite join_cons, Hhead. now rewrite (IH Hl).
Qed.

Lemma solid_no_slash l :
  Forall (fun x => solid x = true) l -> Forall (fun x => no_slash x = true) l.
Proof.
  apply List.Forall_impl. intros x H.
  now apply andb_true_iff in H as [_ H].
Qed.

End JsStringFacts.

Module NodePathFacts.
Import JsString JsStringFacts NodePath.
#[local] Arguments String.append !_ _ / : simpl nomatch.

Lemma ordinary_inv seg :
  ordinary seg = true -> seg <> "" /\ seg <> "." /\ seg <> "..".
Proof.
  unfold ordinary. intros H.
  apply andb_true_iff in H as [H H3]. apply andb_true_iff in H as [H1 H2].
  apply negb_true_iff in H1, H2, H3.
  apply String.eqb_neq in H1, H2, H3. auto.
Qed.

Lemma norm_step_ordinary b acc seg :
  ordinary seg = true -> norm_step b acc seg = acc ++ [seg].
Proof.
  intros H. destruct (ordinary_inv seg H) as (H1 & H2 & H3).
  unfold norm_step.
  now rewrite (eqb_neq _ _ H1), (eqb_neq _ _ H2), (eqb_neq _ _ H3).
Qed.

Lemma norm_step_other b acc seg :
  seg <> ".." -> ordinary seg = false -> norm_step b acc seg = acc.
Proof.
  intros Hdd H. unfold norm_step, ordinary in *.
  rewrite (eqb_neq _ _ Hdd) in *. simpl in H. rewrite andb_true_r in H.
  destruct (String.eqb seg ""); [reflexivity |].
  destruct (String.eqb seg "."); [reflexivity | discriminate].
Qed.

(** Without a [..] among them, normalising segments keeps the ordinary
    ones. *)
Lemma fold_norm_no_dotdot b segs acc :
  Forall (fun seg => seg <> "..") segs ->
  fold_left (norm_step b) segs acc = acc ++ List.filter ordinary segs.
Proof.
  revert acc. induction segs as [|seg segs IH]; intros acc Hall; simpl.
  - now rewrite app_nil_r.
  - inversion Hall as [|? ? Hseg Hrest]; subst.
    destruct (ordinary seg) eqn:Ho.
    + rewrite norm_step_ordinary by assumption.
      rewrite IH by assumption. now rewrite <- app_assoc.
    + rewrite norm_step_other by assumption. now apply IH.
Qed.

Lemma clean_app a b : clean a -> clean b -> clean (a ++ b).
Proof. unfold clean. intros. now apply Forall_app. Qed.

Lemma clean_removelast a : clean a -> clean (removelast a).
Proof.
  unfold clean. induction a as [|x [|y a] IH]; intros H; simpl; auto.
  inversion H; subst. constructor; auto.
Qed.

Lemma clean_last_not_dotdot acc l :
  clean acc -> last acc = Some l -> String.eqb l ".." = false.
Proof.
  intros Hc Hl. apply last_Some in Hl as [acc' ->].
  apply Forall_app in Hc as [_ Hc]. inversion Hc as [|? ? [Ho _] _]; subst.
  apply eqb_neq. now apply ordinary_inv in Ho.
Qed.

Lemma norm_step_clean acc seg :
  clean acc -> no_slash seg = true -> clean (norm_step false acc seg).
Proof.
  intros Hc Hs. destruct (ordinary seg) eqn:Ho.
  - rewrite norm_step_ordinary by assumption.
    apply clean_app; [assumption |]. now repeat constructor.
  - destruct (String.eqb_spec seg "..") as [-> | Hne].
    + unfold norm_step. simpl.
      destruct (last acc) as [l|] eqn:Hl; [| constructor].
      rewrite (clean_last_not_dotdot acc l Hc Hl).
      now apply clean_removelast.
    + now rewrite norm_step_other.
Qed.

Lemma fold_norm_clean segs acc :
  clean acc -> Forall (fun x => no_slash x = true) segs ->
  clean (fold_left (norm_step false) segs acc).
Proof.
  revert acc. induction segs as [|seg segs IH]; intros acc Hc Hall; simpl.
  - assumption.
  - inversion Hall; subst. apply IH; [| assumption].
    now apply norm_step_clean.
Qed.

(** A resolved path has clean segments. *)
Lemma resolve_segs_clean cwd args : clean (resolve_segs cwd args).
Proof.
  unfold resolve_segs. destruct (resolve_scan (rev args) "") as [r abs].
  apply fold_norm_clean; [constructor | apply split_pieces_no_slash].
Qed.

Lemma clean_filter_ordinary segs :
  clean segs -> List.filter ordinary segs = segs.
Proof.
  induction 1 as [|x l [Ho _] _ IH]; simpl; [reflexivity |].
  now rewrite Ho, IH.
Qed.

Lemma clean_no_dotdot segs :
  clean segs -> Forall (fun seg => seg <> "..") segs.
Proof.
  induction 1 as [|x l [Ho _] _ IH]; constructor; [| assumption].
  now apply ordinary_inv in Ho.
Qed.

Lemma clean_no_slash segs :
  clean segs -> Forall (fun x => no_slash x = true) segs.
Proof. induction 1 as [|x l [_ Hs] _ IH]; constructor; assumption. Qed.

Lemma clean_solid segs :
  clean segs -> Forall (fun x => solid x = true) segs.
Proof.
  induction 1 as [|x l [Ho Hs] _ IH]; constructor; [| assumption].
  apply ordinary_inv in Ho as (Hne & _).
  unfold solid. now rewrite (eqb_neq _ _ Hne), Hs.
Qed.

Lemma resolve_segs_single cwd p :
  p <> "" ->
  resolve_segs cwd [p] =
  normalize_segs false (split slash (anchored cwd p)).
Proof.
  intros Hp. unfold resolve_segs, anchored. simpl.
  rewrite (eqb_neq _ _ Hp).
  destruct (isAbsolute p).
  - change (p +:+ "/" +:+ "") with (p +:+ String slash "").
    rewrite split_app. unfold normalize_segs. rewrite fold_left_app.
    reflexivity.
  - replace (cwd +:+ String "/" (p +:+ "/"))
      with ((cwd +:+ String slash p) +:+ String slash "")
      by (now rewrite append_assoc).
    rewrite split_app. unfold normalize_segs. rewrite fold_left_app.
    reflexivity.
Qed.

Lemma anchored_child cwd d x :
  d <> "" ->
  anchored cwd (d +:+ String slash x) = anchored cwd d +:+ String slash x.
Proof.
  intros Hd. unfold anchored. destruct d as [|c d]; [congruence |].
  simpl. destruct (Ascii.eqb c slash); [reflexivity |].
  now rewrite append_assoc.
Qed.

(** Resolving [d/x] carries on from the segments of [d]. *)
Lemma resolve_segs_child cwd d x :
  d <> "" ->
  resolve_segs cwd [d +:+ String slash x] =
  fold_left (norm_step false) (split slash x) (resolve_segs cwd [d]).
Proof.
  intros Hd.
  rewrite !resolve_segs_single;
    [| assumption | destruct d; [congruence | discriminate]].
  rewrite anchored_child by assumption.
  rewrite split_app. unfold normalize_segs. now rewrite fold_left_app.
Qed.

Lemma strip_common_extends a r : strip_common a (a ++ r) = ([], r).
Proof.
  induction a as [|x a IH]; simpl.
  - now destruct r.
  - now rewrite String.eqb_refl.
Qed.

Lemma strip_common_extended a r : strip_common (a ++ r) a = (r, []).
Proof.
  induction a as [|x a IH]; simpl.
  - now destruct r.
  - now rewrite String.eqb_refl.
Qed.

End NodePathFacts.

(* ===================================================================== *)
(** ** The sub-path predicate *)
(* ===================================================================== *)

Module SubPathFacts.
Import JsString JsStringFacts NodePath NodePathFacts FileFilter.
#[local] Arguments String.append !_ _ / : simpl nomatch.

Section SubPath.
Variable cwd : string.

Lemma relative_beneath D T r :
  resolve_segs cwd [T] = resolve_segs cwd [D] ++ r -> r <> [] ->
  relative cwd D T = join "/" r.
Proof.
  intros HT Hr. unfold relative.
  destruct (String.eqb_spec D T) as [-> | _].
  - exfalso. apply Hr.
    apply (app_inv_head (resolve_segs cwd [T])). now rewrite app_nil_r.
  - now rewrite HT, strip_common_extends.
Qed.

Lemma relative_above D T r :
  resolve_segs cwd [D] = resolve_segs cwd [T] ++ r ->
  relative cwd D T = join "/" (repeat ".." (length r)).
Proof.
  intros HD. unfold relative.
  destruct (String.eqb_spec D T) as [-> | _].
  - assert (r = []) as ->; [| reflexivity].
    apply (app_inv_head (resolve_segs cwd [T])). now rewrite app_nil_r.
  - now rewrite HD, strip_common_extended, app_nil_r.
Qed.

(** A target that resolves strictly beneath the source is a sub-path. *)
Lemma isSubPath_beneath D T r :
  resolve_segs cwd [T] = resolve_segs cwd [D] ++ r -> r <> [] ->
  isSubPath cwd D T = true.
Proof.
  intros HT Hr. unfold isSubPath. rewrite (relative_beneath D T r HT Hr).
  assert (Hc : clean r).
  { pose proof (resolve_segs_clean cwd [T]) as Hc. rewrite HT in Hc.
    now apply Forall_app in Hc as [_ Hc]. }
  destruct r as [|x l]; [congruence |].
  pose proof (clean_no_slash _ Hc) as Hns.
  inversion Hc as [|? ? [Ho Hx] Hl]; subst.
  destruct (ordinary_inv x Ho) as (Hx1 & _ & Hx3).
  assert (H1 : join "/" (x :: l) <> "").
  { intros He. apply join_empty in He as [He | He]; congruence. }
  assert (H2 : join "/" (x :: l) <> "..").
  { intros He. apply join_singleton_inv in He as [He | [He _]];
      [congruence | congruence | reflexivity | assumption]. }
  assert (H3 : startsWith "../" (join "/" (x :: l)) = false).
  { destruct (startsWith "../" (join "/" (x :: l))) eqn:Hs; [| reflexivity].
    apply startsWith_dotdot_join in Hs as [Hs _];
      [congruence | assumption]. }
  change (".." +:+ sep) with "../". unfold truthy.
  now rewrite (eqb_neq _ _ H1), (eqb_neq _ _ H2), H3.
Qed.

(** A target that resolves to the source or to one of its ancestors is
    not. *)
Lemma isSubPath_above D T r :
  resolve_segs cwd [D] = resolve_segs cwd [T] ++ r ->
  isSubPath cwd D T = false.
Proof.
  intros HD. unfold isSubPath. rewrite (relative_above D T r HD).
  destruct (length r) as [|[|n]]; reflexivity.
Qed.

Lemma resolve_segs_parent D :
  exists r,
    resolve_segs cwd [D] = resolve_segs cwd [D +:+ "/" +:+ ".."] ++ r.
Proof.
  destruct (String.eqb_spec D "") as [-> | Hne].
  - exists (resolve_segs cwd [""]). reflexivity.
  - change (D +:+ "/" +:+ "..") with (D +:+ String slash "..").
    rewrite resolve_segs_child by assumption. simpl.
    pose proof (resolve_segs_clean cwd [D]) as Hc.
    unfold norm_step. simpl.
    destruct (last (resolve_segs cwd [D])) as [l|] eqn:Hl.
    + rewrite (clean_last_not_dotdot _ l Hc Hl).
      apply last_Some in Hl as [l' Hl']. rewrite Hl'.
      rewrite removelast_last. now exists [l].
    + now exists (resolve_segs cwd [D]).
Qed.

Lemma resolve_segs_descend D x :
  D <> "" ->
  Forall (fun seg => seg <> "..") (split slash x) ->
  resolve_segs cwd [D +:+ "/" +:+ x] =
  resolve_segs cwd [D] ++ List.filter ordinary (split slash x).
Proof.
  intros Hne Hx.
  change (D +:+ "/" +:+ x) with (D +:+ String slash x).
  rewrite resolve_segs_child by assumption.
  now apply fold_norm_no_dotdot.
Qed.

Lemma filter_ordinary_not_nil segs :
  Exists (fun seg => ordinary seg = true) segs ->
  List.filter ordinary segs <> [].
Proof.
  induction 1 as [x l Hx | x l _ IH]; simpl.
  - now rewrite Hx.
  - destruct (ordinary x); [discriminate | assumption].
Qed.
End SubPath.

End SubPathFacts.

(* ===================================================================== *)
(** ** Facts about glob matching *)
(* ===================================================================== *)

Module GlobFacts.
Import JsString JsStringFacts NodePath NodePathFacts Glob.
#[local] Arguments String.append !_ _ / : simpl nomatch.

Lemma all_chars_impl (p q : ascii -> bool) s :
  (forall c, p c = true -> q c = true) ->
  all_chars p s = true -> all_chars q s = true.
Proof.
  intros Hpq. induction s as [|c s IH]; simpl; [reflexivity |].
  intros H. apply andb_true_iff in H as [Hc Hs].
  now rewrite (Hpq c Hc), (IH Hs).
Qed.

(** A segment without glob syntax is a literal part. *)
Lemma parse_part_glob_free s :
  glob_free s = true -> parse_part s = Literal s.
Proof.
  intros H. unfold parse_part.
  destruct (String.eqb_spec s "**") as [-> | _]; [discriminate |].
  unfold has_star, glob_free in *.
  assert (Hs : all_chars (fun c => negb (Ascii.eqb c star)) s = true).
  { revert H. apply all_chars_impl.
    intros c Hc. now apply andb_true_iff in Hc as [_ Hc]. }
  now rewrite Hs.
Qed.

Lemma map_parse_part_glob_free segs :
  Forall (fun seg => glob_free seg = true) segs ->
  List.map parse_part segs = List.map Literal segs.
Proof.
  induction 1 as [|x l Hx _ IH]; simpl; [reflexivity |].
  now rewrite (parse_part_glob_free x Hx), IH.
Qed.

Lemma glob_free_plain s :
  glob_free s = true ->
  all_chars (fun c => negb (extended_meta c)) s = true.
Proof.
  unfold glob_free. apply all_chars_impl. intros c Hc.
  now apply andb_true_iff in Hc as [Hc _].
Qed.

(** Literal parts consume the segments they spell. *)
Lemma matchOne_literal_prefix pre pattern file :
  matchOne (List.map Literal pre ++ pattern) (pre ++ file) =
  matchOne pattern file.
Proof.
  induction pre as [|x pre IH]; simpl; [reflexivity |].
  now rewrite String.eqb_refl.
Qed.

Lemma matchOne_literal_self segs : matchOne (List.map Literal segs) segs = true.
Proof.
  pose proof (matchOne_literal_prefix segs [] []) as H.
  now rewrite !app_nil_r in H.
Qed.

Lemma wild_star s : wild [TStar] s = true.
Proof.
  induction s as [|c s IH]; [reflexivity |].
  simpl in *. exact IH.
Qed.

Lemma magic_match_star f : magic_match [TStar] f = star_visible f.
Proof.
  unfold magic_match, star_visible. now rewrite wild_star, andb_true_r.
Qed.

Lemma lookahead_any_not_empty f : lookahead_any f = true -> f <> "".
Proof. now destruct f. Qed.

Lemma lookahead_any_line_start f :
  f <> "" -> line_start f = false -> lookahead_any f = true.
Proof.
  destruct f as [|c f]; [congruence |]. cbn [line_start lookahead_any].
  now intros _ ->.
Qed.

Lemma star_visible_visible f : star_visible f = true -> visible f = true.
Proof.
  unfold star_visible, visible. intros H.
  apply andb_true_iff in H as [Hany Hdot]. rewrite Hdot, andb_true_r.
  apply negb_true_iff, eqb_neq. now apply lookahead_any_not_empty.
Qed.

Lemma visible_not_dotted f : visible f = true -> dotted f = false.
Proof.
  unfold visible. intros H. apply andb_true_iff in H as [_ H].
  now apply negb_true_iff in H.
Qed.

(** [**] alone stands for any run of visible segments, but not the empty
    one. *)
Lemma matchOne_globstar_last r :
  r <> [] -> Forall (fun seg => visible seg = true) r ->
  matchOne [Globstar] r = true.
Proof.
  intros Hr Hall. destruct r as [|x l]; [congruence |].
  cbn [matchOne]. apply forallb_forall. intros f Hf.
  rewrite Forall_forall in Hall.
  apply negb_true_iff, visible_not_dotted, Hall.
  now apply list_elem_of_In.
Qed.

(** [**/*] stands for any non-empty run of visible segments whose last
    does not begin with a line terminator. *)
Lemma matchOne_globstar_star r name :
  Forall (fun seg => visible seg = true) r ->
  last r = Some name -> star_visible name = true ->
  matchOne [Globstar; Magic [TStar]] r = true.
Proof.
  induction r as [|x l IH]; [discriminate |]. intros Hall Hlast Hname.
  inversion Hall as [|? ? Hx Hl]; subst.
  destruct l as [|y l].
  - injection Hlast as ->.
    cbn [matchOne]. now rewrite magic_match_star, Hname.
  - assert (IH' : matchOne [Globstar; Magic [TStar]] (y :: l) = true)
      by (apply IH; assumption).
    cbn [matchOne] in IH' |- *.
    rewrite (visible_not_dotted x Hx).
    rewrite IH'. apply orb_true_r.
Qed.

Section Matching.
Variable extended_match : string -> string -> bool.

Lemma split_render segs :
  segs <> [] -> Forall (fun x => no_slash x = true) segs ->
  split slash (render segs) = "" :: segs.
Proof.
  intros Hne Hall. unfold render.
  change ("/" +:+ join "/" segs) with ("" +:+ String slash (join "/" segs)).
  now rewrite split_app, split_join.
Qed.

Lemma slashSplit_render segs :
  segs <> [] -> Forall (fun x => solid x = true) segs ->
  slashSplit (render segs) = "" :: segs.
Proof.
  intros Hne Hall. unfold slashSplit.
  change (render segs) with (String slash (join "/" segs)).
  rewrite squeeze_join by assumption.
  apply split_render; [assumption | now apply solid_no_slash].
Qed.

(** A resolved path that ends with a segment trimming keeps is not
    trimmed. *)
Lemma trim_render_snoc segs x :
  x <> "" -> trimEnd x = x -> trim (render (segs ++ [x])) = render (segs ++ [x]).
Proof. intros Hx Hfix. now apply trim_path_snoc. Qed.

Lemma in_fragment_render segs :
  Forall (fun seg => all_chars (fun c => negb (extended_meta c)) seg = true)
    segs ->
  in_fragment (render segs) = true.
Proof.
  intros Hall. unfold in_fragment, render. simpl.
  rewrite all_chars_join; [reflexivity | reflexivity | assumption].
Qed.

(** Matching one resolved path against another that trimming keeps,
    segment by segment. *)
Lemma minimatch_render file pattern :
  file <> [] -> pattern <> [] ->
  Forall (fun x => solid x = true) file ->
  Forall (fun x => solid x = true) pattern ->
  Forall (fun seg => all_chars (fun c => negb (extended_meta c)) seg = true)
    pattern ->
  trim (render pattern) = render pattern ->
  minimatch extended_match (render file) (render pattern) =
  matchOne (List.map parse_part pattern) file.
Proof.
  intros Hf Hp Hfs Hps Hfrag Htrim. unfold minimatch. cbv zeta.
  rewrite Htrim.
  change (String.eqb (render pattern) "") with false. cbv iota.
  rewrite in_fragment_render by assumption.
  rewrite !slashSplit_render by assumption.
  reflexivity.
Qed.

Lemma multimatch_snoc item patterns pattern :
  multimatch extended_match item (patterns ++ [pattern]) =
  if charAt0_is "!"%char pattern
  then difference (multimatch extended_match item patterns)
         (minimatch_match extended_match item (substr1 pattern))
  else union (multimatch extended_match item patterns)
         (minimatch_match extended_match item pattern).
Proof. unfold multimatch. now rewrite fold_left_app. Qed.

Lemma union_item res item :
  res = [] \/ res = [item] -> union res [item] = [item].
Proof.
  intros [-> | ->]; unfold union; simpl; [reflexivity |].
  now rewrite String.eqb_refl.
Qed.

Lemma union_nil res : union res [] = res.
Proof. unfold union. simpl. apply app_nil_r. Qed.

Lemma difference_item res item :
  res = [] \/ res = [item] -> difference res [item] = [].
Proof.
  intros [-> | ->]; unfold difference; simpl; [reflexivity |].
  now rewrite String.eqb_refl.
Qed.

Lemma difference_nil res : difference res [] = res.
Proof.
  unfold difference. induction res as [|x res IH]; simpl;
    [reflexivity | now f_equal].
Qed.

(** The result for one path holds that path or nothing. *)
Lemma multimatch_at_most_item item patterns :
  multimatch extended_match item patterns = [] \/
  multimatch extended_match item patterns = [item].
Proof.
  induction patterns as [|pattern patterns IH] using rev_ind.
  - now left.
  - rewrite multimatch_snoc. unfold minimatch_match.
    destruct (charAt0_is "!" pattern).
    + destruct (minimatch extended_match item (substr1 pattern)).
      * left. now apply difference_item.
      * now rewrite difference_nil.
    + destruct (minimatch extended_match item pattern).
      * right. now apply union_item.
      * now rewrite union_nil.
Qed.
End Matching.

End GlobFacts.

(* ===================================================================== *)
(** ** Facts about the file filter *)
(* ===================================================================== *)

Module FileFilterFacts.
Import JsString JsStringFacts NodePath NodePathFacts Glob GlobFacts.
Import FileFilter.
#[local] Arguments String.append !_ _ / : simpl nomatch.

Section Filter.
Variable cwd : string.
Variable extended_match : string -> string -> bool.

Lemma addToIgnoreList_spec this files :
  addToIgnoreList cwd this files =
  mk (filesToIgnore this ++
        List.map (ignore_entry cwd (sourceDir this)) files)
     (sourceDir this).
Proof.
  revert this. induction files as [|file files IH]; intros this; simpl.
  - rewrite app_nil_r. now destruct this.
  - rewrite IH. unfold ignore_entry, resolveWithSourceDir.
    destruct (charAt0_is "!" file); simpl; rewrite <- app_assoc;
      reflexivity.
Qed.

Lemma normalize_render segs :
  clean segs -> normalize_segs false (split slash (render segs)) = segs.
Proof.
  intros Hc. destruct segs as [|x l]; [reflexivity |].
  rewrite split_render; [| discriminate | now apply clean_no_slash].
  unfold normalize_segs.
  rewrite fold_norm_no_dotdot
    by (constructor; [discriminate | now apply clean_no_dotdot]).
  change (List.filter ordinary ("" :: x :: l))
    with (List.filter ordinary (x :: l)).
  now rewrite clean_filter_ordinary.
Qed.

Lemma resolve_scan_absolute f rest acc :
  f <> "" -> isAbsolute f = true ->
  resolve_scan (f :: rest) acc = (f +:+ String slash acc, true).
Proof.
  intros Hne Habs. cbn [resolve_scan].
  now rewrite (eqb_neq _ _ Hne), Habs.
Qed.

Lemma resolve_scan_relative f rest acc :
  f <> "" -> isAbsolute f = false ->
  resolve_scan (f :: rest) acc = resolve_scan rest (f +:+ String slash acc).
Proof.
  intros Hne Habs. cbn [resolve_scan].
  now rewrite (eqb_neq _ _ Hne), Habs.
Qed.

(** An absolute, resolved path resolves to itself whatever it is resolved
    against. *)
Lemma resolve_segs_absolute src segs :
  clean segs -> resolve_segs cwd [src; render segs] = segs.
Proof.
  intros Hc. unfold resolve_segs.
  change (rev [src; render segs]) with [render segs; src].
  rewrite resolve_scan_absolute by (discriminate || reflexivity).
  rewrite split_app. unfold normalize_segs. rewrite fold_left_app.
  fold (normalize_segs false (split slash (render segs))).
  now rewrite normalize_render.
Qed.

(** A relative path is resolved from the segments of the directory. *)
Lemma resolve_segs_relative segs rel :
  clean segs -> rel <> "" -> isAbsolute rel = false ->
  resolve_segs cwd [render segs; rel] =
  fold_left (norm_step false) (split slash rel) segs.
Proof.
  intros Hc Hne Hrel. unfold resolve_segs.
  change (rev [render segs; rel]) with [rel; render segs].
  rewrite resolve_scan_relative by assumption.
  rewrite resolve_scan_absolute by (discriminate || reflexivity).
  rewrite !split_app. unfold normalize_segs. rewrite !fold_left_app.
  fold (normalize_segs false (split slash (render segs))).
  now rewrite normalize_render.
Qed.

Lemma resolve_absolute src segs :
  clean segs -> resolve cwd [src; render segs] = render segs.
Proof. intros Hc. unfold resolve. now rewrite resolve_segs_absolute. Qed.

Lemma ignore_entry_absolute src segs :
  clean segs -> ignore_entry cwd src (render segs) = render segs.
Proof.
  intros Hc. unfold ignore_entry.
  change (charAt0_is "!" (render segs)) with false. cbv iota.
  now apply resolve_absolute.
Qed.

Lemma join_not_empty x l : x <> "" -> join "/" (x :: l) <> "".
Proof.
  intros Hx He. apply join_empty in He as [He | He]; congruence.
Qed.

(** [path.join(a, '**', '*')] for a resolved [a]. *)
Lemma join_paths_everything_beneath segs :
  clean segs ->
  join_paths [render segs; "**"; "*"] = render (segs ++ ["**"; "*"]).
Proof.
  intros Hc. unfold join_paths.
  change (List.filter truthy [render segs; "**"; "*"])
    with [render segs; "**"; "*"].
  cbv beta iota zeta.
  set (p := join "/" [render segs; "**"; "*"]).
  assert (Hp : p = render segs +:+ String slash ("**" +:+ String slash "*"))
    by reflexivity.
  assert (Hsplit : normalize_segs false (split slash p) = segs ++ ["**"; "*"]).
  { rewrite Hp, !split_app. unfold normalize_segs. rewrite !fold_left_app.
    fold (normalize_segs false (split slash (render segs))).
    rewrite normalize_render by assumption.
    change (split slash "**") with ["**"].
    change (split slash "*") with ["*"].
    cbn [fold_left]. rewrite !norm_step_ordinary by reflexivity.
    now rewrite <- app_assoc. }
  assert (Hlast : last (split slash p) = Some "*").
  { rewrite Hp, !split_app.
    change (split slash "**" ++ split slash "*") with (["**"] ++ ["*"]).
    now rewrite app_assoc, last_snoc. }
  unfold normalize. fold p.
  assert (Hpne : p <> "") by (rewrite Hp; discriminate).
  rewrite (eqb_neq _ _ Hpne), Hlast.
  assert (Habs : isAbsolute p = true) by (rewrite Hp; reflexivity).
  rewrite Habs. simpl negb. rewrite Hsplit.
  assert (Hbody : join "/" (segs ++ ["**"; "*"]) <> "").
  { destruct segs as [|x l]; [discriminate |].
    apply join_not_empty. inversion Hc as [|? ? [Ho _] _]; subst.
    now apply ordinary_inv in Ho. }
  rewrite (eqb_neq _ _ Hbody). reflexivity.
Qed.

Lemma clean_everything_beneath segs :
  clean segs -> clean (segs ++ ["**"; "*"]).
Proof. intros Hc. apply clean_app; [assumption |]. now repeat constructor. Qed.

(** The patterns of a filter, as the constructor lays them out. *)
Lemma new_spec base ignore src art :
  new cwd base ignore src art =
  let src' := resolve cwd [src] in
  mk (List.map (ignore_entry cwd src')
        (default defaultBaseIgnoredPatterns base) ++
      List.map (ignore_entry cwd src') (default [] ignore) ++
      match art with
      | Some a =>
          if truthy a && isSubPath cwd src' a
          then [resolve cwd [a];
                render (resolve_segs cwd [a] ++ ["**"; "*"])]
          else []
      | None => []
      end)
     src'.
Proof.
  unfold new. cbv zeta. rewrite addToIgnoreList_spec.
  cbn [filesToIgnore sourceDir app].
  set (src' := resolve cwd [src]).
  set (bases := List.map (ignore_entry cwd src')
                  (default defaultBaseIgnoredPatterns base)).
  assert (Hign :
    match ignore with
    | Some files => addToIgnoreList cwd (mk bases src') files
    | None => mk bases src'
    end =
    mk (bases ++ List.map (ignore_entry cwd src') (default [] ignore)) src').
  { destruct ignore as [files|]; cbn [default].
    - now rewrite addToIgnoreList_spec.
    - cbn [List.map]. now rewrite app_nil_r. }
  rewrite Hign. clear Hign.
  destruct art as [a|]; [| now rewrite app_nil_r].
  destruct (truthy a && isSubPath cwd src' a); [| now rewrite app_nil_r].
  rewrite addToIgnoreList_spec. cbn [filesToIgnore sourceDir List.map].
  pose proof (resolve_segs_clean cwd [a]) as Hc.
  change (resolve cwd [a]) with (render (resolve_segs cwd [a])).
  rewrite join_paths_everything_beneath by assumption.
  rewrite !ignore_entry_absolute;
    [| now apply clean_everything_beneath | assumption].
  now rewrite <- app_assoc.
Qed.

Lemma union_not_nil res more : res <> [] -> union res more <> [].
Proof. unfold union. destruct res; [congruence | discriminate]. Qed.

Lemma wantFile_ignored_iff this file :
  wantFile cwd extended_match this file = false <->
  multimatch extended_match (resolveWithSourceDir cwd this file)
    (filesToIgnore this) <> [].
Proof.
  unfold wantFile.
  destruct (multimatch extended_match (resolveWithSourceDir cwd this file)
              (filesToIgnore this)); simpl; split; congruence.
Qed.

(** The last pattern decides when it matches: a plain one excludes. *)
Lemma wantFile_last_plain this file patterns pattern :
  filesToIgnore this = patterns ++ [pattern] ->
  charAt0_is "!"%char pattern = false ->
  minimatch extended_match (resolveWithSourceDir cwd this file) pattern
    = true ->
  wantFile cwd extended_match this file = false.
Proof.
  intros Hpat Hplain Hm. apply wantFile_ignored_iff.
  rewrite Hpat, multimatch_snoc, Hplain. unfold minimatch_match.
  rewrite Hm, union_item by apply multimatch_at_most_item. discriminate.
Qed.

(** A plain pattern that matches keeps the path excluded through any
    plain pattern after it. *)
Lemma wantFile_before_last_plain this file patterns pattern after :
  filesToIgnore this = patterns ++ [pattern; after] ->
  charAt0_is "!"%char pattern = false ->
  charAt0_is "!"%char after = false ->
  minimatch extended_match (resolveWithSourceDir cwd this file) pattern
    = true ->
  wantFile cwd extended_match this file = false.
Proof.
  intros Hpat Hplain Hafter Hm. apply wantFile_ignored_iff.
  change (patterns ++ [pattern; after])
    with (patterns ++ [pattern] ++ [after]) in Hpat.
  rewrite Hpat, app_assoc, multimatch_snoc, Hafter.
  apply union_not_nil.
  rewrite multimatch_snoc, Hplain. unfold minimatch_match.
  rewrite Hm, union_item by apply multimatch_at_most_item. discriminate.
Qed.

(** A negated last pattern that matches includes the path again. *)
Lemma wantFile_last_negated this file patterns pattern :
  filesToIgnore this = patterns ++ ["!" +:+ pattern] ->
  minimatch extended_match (resolveWithSourceDir cwd this file) pattern
    = true ->
  wantFile cwd extended_match this file = true.
Proof.
  intros Hpat Hm.
  destruct (wantFile cwd extended_match this file) eqn:Hw; [reflexivity |].
  apply wantFile_ignored_iff in Hw. exfalso. apply Hw.
  rewrite Hpat, multimatch_snoc.
  change (charAt0_is "!" ("!" +:+ pattern)) with true.
  change (substr1 ("!" +:+ pattern)) with pattern.
  unfold minimatch_match. rewrite Hm.
  apply difference_item, multimatch_at_most_item.
Qed.

(** A plain pattern that matches, followed by a negated one that does
    not, excludes. *)
Lemma wantFile_negated_miss this file patterns pattern negated :
  filesToIgnore this = patterns ++ [pattern; "!" +:+ negated] ->
  charAt0_is "!"%char pattern = false ->
  minimatch extended_match (resolveWithSourceDir cwd this file) pattern
    = true ->
  minimatch extended_match (resolveWithSourceDir cwd this file) negated
    = false ->
  wantFile cwd extended_match this file = false.
Proof.
  intros Hpat Hplain Hm Hn. apply wantFile_ignored_iff.
  change (patterns ++ [pattern; "!" +:+ negated])
    with (patterns ++ [pattern] ++ ["!" +:+ negated]) in Hpat.
  rewrite Hpat, app_assoc, multimatch_snoc.
  change (charAt0_is "!" ("!" +:+ negated)) with true.
  change (substr1 ("!" +:+ negated)) with negated.
  unfold minimatch_match at 1. rewrite Hn, difference_nil.
  rewrite multimatch_snoc, Hplain. unfold minimatch_match.
  rewrite Hm, union_item by apply multimatch_at_most_item. discriminate.
Qed.

Lemma clean_visible segs :
  clean segs -> Forall (fun seg => dotted seg = false) segs ->
  Forall (fun seg => visible seg = true) segs.
Proof.
  intros Hc Hd. unfold clean in Hc.
  rewrite Forall_forall in *. intros seg Hin.
  destruct (Hc seg Hin) as [Ho _]. apply ordinary_inv in Ho as (Hne & _).
  unfold visible. now rewrite (eqb_neq _ _ Hne), (Hd seg Hin).
Qed.
End Filter.
End FileFilterFacts.

(* ===================================================================== *)
(** ** Properties of the file filter *)
(* ===================================================================== *)

Module FileFilterProperties.
Import JsString JsStringFacts NodePath NodePathFacts Glob GlobFacts.
Import FileFilter SubPathFacts FileFilterFacts.
#[local] Arguments String.append !_ _ / : simpl nomatch.

(** C7.  For every directory [D]: [isSubPath(D, D)] is false;
    [isSubPath(D, D/..)], the parent of [D], is false; a target whose
    relative path from [D] is [..] or begins with [../] is not a sub-path;
    and [isSubPath(D, D/x)] is true for every [x] that names something
    below [D]: [x] has no [..] segment and at least one segment that is a
    name ([D/..] and [D/.] are the parent and [D] itself, which the
    clauses before cover). *)
Theorem isSubPath_cases (cwd D x : string) :
  isSubPath cwd D D = false /\
  isSubPath cwd D (D +:+ "/" +:+ "..") = false /\
  (forall T,
     relative cwd D T = ".." \/ startsWith "../" (relative cwd D T) = true ->
     isSubPath cwd D T = false) /\
  (D <> "" ->
   Forall (fun seg => seg <> "..") (split slash x) ->
   Exists (fun seg => ordinary seg = true) (split slash x) ->
   isSubPath cwd D (D +:+ "/" +:+ x) = true).
Proof.
  split; [| split; [| split]].
  - apply (isSubPath_above cwd D D []). now rewrite app_nil_r.
  - destruct (resolve_segs_parent cwd D) as [r Hr].
    now apply (isSubPath_above cwd D _ r).
  - intros T [H | H]; unfold isSubPath.
    + rewrite H. reflexivity.
    + change (".." +:+ sep) with "../". rewrite H.
      destruct (negb (truthy (relative cwd D T))); [reflexivity |].
      now destruct (String.eqb (relative cwd D T) "..").
  - intros HD Hx Hex.
    apply (isSubPath_beneath cwd D _ (List.filter ordinary (split slash x))).
    + now apply resolve_segs_descend.
    + now apply filter_ordinary_not_nil.
Qed.

Lemma isSubPath_cases_witness :
  isSubPath "/home/dev" "/proj" ("/proj" +:+ "/" +:+ "web-ext-artifacts/out")
  = true.
Proof.
  apply (isSubPath_cases "/home/dev" "/proj" "web-ext-artifacts/out").
  - discriminate.
  - repeat constructor; discriminate.
  - apply Exists_cons_hd. reflexivity.
Defined.

(** C8, as the code has it.  For every filter constructed with an artifacts
    directory that is strictly a descendant of the source directory and has
    no glob syntax in its path, [wantFile] is false for the artifacts
    directory itself, when its resolved path is one that trimming keeps
    (it does not end with white space), and for every path beneath it none
    of whose segments below the artifacts directory begins with a dot and
    whose last segment does not begin with a line terminator; for an
    artifacts directory that is empty or not a descendant, no pattern is
    added and [wantFile] answers as without it. *)
Theorem artifactsDir_exclusion (cwd : string)
    (extended_match : string -> string -> bool)
    (base ignore : option (list string)) (src art : string) :
  (forall filePath r,
     truthy art = true ->
     isSubPath cwd (resolve cwd [src]) art = true ->
     Forall (fun seg => glob_free seg = true) (resolve_segs cwd [art]) ->
     segmentsWithSourceDir cwd (new cwd base ignore src (Some art)) filePath
       = resolve_segs cwd [art] ++ r ->
     Forall (fun seg => dotted seg = false) r ->
     (r = [] -> trim (resolve cwd [art]) = resolve cwd [art]) ->
     (forall name, last r = Some name -> line_start name = false) ->
     wantFile cwd extended_match (new cwd base ignore src (Some art)) filePath
       = false) /\
  (truthy art = false \/ isSubPath cwd (resolve cwd [src]) art = false ->
   filesToIgnore (new cwd base ignore src (Some art)) =
     filesToIgnore (new cwd base ignore src None) /\
   forall filePath,
     wantFile cwd extended_match (new cwd base ignore src (Some art)) filePath
     = wantFile cwd extended_match (new cwd base ignore src None) filePath).
Proof.
  split.
  - intros filePath r Htruthy Hsub Hfree Hsegs Hdots Htrim Hline.
    set (A := resolve_segs cwd [art]) in *.
    assert (HcA : clean A) by apply resolve_segs_clean.
    assert (HA : A <> []).
    { intros HA.
      rewrite (isSubPath_above cwd (resolve cwd [src]) art
                 (resolve_segs cwd [resolve cwd [src]])) in Hsub;
        [discriminate |].
      fold A. now rewrite HA. }
    assert (Hfiles :
      filesToIgnore (new cwd base ignore src (Some art)) =
      (List.map (ignore_entry cwd (resolve cwd [src]))
         (default defaultBaseIgnoredPatterns base) ++
       List.map (ignore_entry cwd (resolve cwd [src])) (default [] ignore)) ++
      [render A; render (A ++ ["**"; "*"])]).
    { rewrite new_spec. cbv zeta. cbn [filesToIgnore].
      rewrite Htruthy, Hsub. cbn [andb]. now rewrite app_assoc. }
    assert (Hc : clean (A ++ r)).
    { rewrite <- Hsegs. apply resolve_segs_clean. }
    assert (Hr : clean r) by now apply Forall_app in Hc as [_ Hc].
    assert (Hfile :
      resolveWithSourceDir cwd (new cwd base ignore src (Some art)) filePath
      = render (A ++ r)).
    { unfold resolveWithSourceDir, resolve.
      unfold segmentsWithSourceDir in Hsegs. now rewrite Hsegs. }
    assert (Hplain : forall segs,
      Forall (fun seg => glob_free seg = true) segs ->
      Forall (fun seg => all_chars (fun c => negb (extended_meta c)) seg
                         = true) segs).
    { intros segs. apply List.Forall_impl. intros seg.
      apply glob_free_plain. }
    destruct r as [|x l].
    + (* the artifacts directory itself *)
      apply (wantFile_before_last_plain cwd extended_match _ _ _ _ _ Hfiles);
        try reflexivity.
      rewrite Hfile, app_nil_r.
      rewrite minimatch_render;
        [| assumption | assumption | now apply clean_solid
         | now apply clean_solid | now apply Hplain
         | now apply Htrim].
      rewrite map_parse_part_glob_free by assumption.
      apply matchOne_literal_self.
    + (* a path beneath it *)
      change ([render A; render (A ++ ["**"; "*"])])
        with ([render A] ++ [render (A ++ ["**"; "*"])]) in Hfiles.
      rewrite app_assoc in Hfiles.
      apply (wantFile_last_plain cwd extended_match _ _ _ _ Hfiles);
        [reflexivity |].
      rewrite Hfile.
      rewrite minimatch_render.
      * rewrite map_app, map_parse_part_glob_free by assumption.
        change (List.map parse_part ["**"; "*"])
          with [Globstar; Magic [TStar]].
        rewrite matchOne_literal_prefix.
        destruct (last (x :: l)) as [name|] eqn:Hlast;
          [| now apply last_None in Hlast].
        apply (matchOne_globstar_star _ name);
          [now apply clean_visible | assumption |].
        pose proof (last_Some_elem_of _ _ Hlast) as Hin.
        unfold star_visible.
        rewrite (proj1 (Forall_forall _ _) Hdots name Hin), andb_true_r.
        apply lookahead_any_line_start; [| now apply Hline].
        destruct (proj1 (Forall_forall _ _) Hr name Hin) as [Ho _].
        now apply ordinary_inv in Ho as (Hne & _).
      * destruct A; discriminate.
      * destruct A; discriminate.
      * now apply clean_solid.
      * apply clean_solid. now apply clean_everything_beneath.
      * apply Forall_app. split; [now apply Hplain |].
        now repeat constructor.
      * change (A ++ ["**"; "*"]) with (A ++ ["**"] ++ ["*"]).
        rewrite app_assoc. now apply trim_render_snoc.
  - intros Hsub.
    assert (Hnew : new cwd base ignore src (Some art) =
                   new cwd base ignore src None).
    { rewrite !new_spec. cbv zeta.
      assert (Hcond : truthy art && isSubPath cwd (resolve cwd [src]) art
                      = false).
      { destruct Hsub as [H | H]; rewrite H;
          [reflexivity | apply andb_false_r]. }
      now rewrite Hcond. }
    rewrite Hnew. split; reflexivity.
Qed.

Lemma artifactsDir_exclusion_witness :
  wantFile "/home/dev" (fun _ _ => false)
    (new "/home/dev" None None "/proj" (Some "/proj/web-ext-artifacts"))
    "web-ext-artifacts/build/ext.js" = false /\
  wantFile "/home/dev" (fun _ _ => false)
    (new "/home/dev" None None "/proj" (Some "/other")) "src/a.js" =
  wantFile "/home/dev" (fun _ _ => false)
    (new "/home/dev" None None "/proj" None) "src/a.js".
Proof.
  pose proof (artifactsDir_exclusion "/home/dev" (fun _ _ => false)
                None None "/proj" "/proj/web-ext-artifacts") as [H1 _].
  pose proof (artifactsDir_exclusion "/home/dev" (fun _ _ => false)
                None None "/proj" "/other") as [_ H2].
  split.
  - apply (H1 "web-ext-artifacts/build/ext.js" ["build"; "ext.js"]).
    + reflexivity.
    + reflexivity.
    + repeat constructor.
    + reflexivity.
    + repeat constructor.
    + discriminate.
    + intros name [= <-]. reflexivity.
  - apply H2. right. reflexivity.
Defined.

(** C8 as stated fails: a hidden file inside a hidden directory beneath the
    artifacts directory is wanted, since neither [**] nor a leading [*]
    stands for a dotted segment and no default pattern covers it. *)
Lemma artifactsDir_hidden_nested_wanted :
  isSubPath "/home/dev" (resolve "/home/dev" ["/proj"])
    "/proj/web-ext-artifacts" = true /\
  wantFile "/home/dev" (fun _ _ => false)
    (new "/home/dev" None None "/proj" (Some "/proj/web-ext-artifacts"))
    "/proj/web-ext-artifacts/.cache/.lock" = true.
Proof. split; reflexivity. Qed.

(** Two more paths beneath an artifacts directory that are wanted.  The
    pattern of a directory whose name ends with a space is trimmed, and no
    longer spells the directory; and the [*] of the pattern for what is
    beneath does not stand for a name that begins with a line
    terminator. *)
Lemma artifactsDir_trimmed_wanted :
  isSubPath "/home/dev" (resolve "/home/dev" ["/proj"]) "/proj/out " = true /\
  wantFile "/home/dev" (fun _ _ => false)
    (new "/home/dev" None None "/proj" (Some "/proj/out ")) "/proj/out "
  = true.
Proof. split; reflexivity. Qed.

Lemma artifactsDir_line_start_wanted :
  wantFile "/home/dev" (fun _ _ => false)
    (new "/home/dev" None None "/proj" (Some "/proj/out"))
    ("/proj/out/" +:+ String (ascii_of_nat 10) "x")
  = true.
Proof. reflexivity. Qed.

(** C9, as the code has it.  For a filter whose ignore patterns are
    [src/dist/**] followed by [!src/dist/keep.js], over a source directory
    without glob syntax in its path: among the files under [src/dist/] that
    have no dotted segment below it, [wantFile] is true for
    [src/dist/keep.js] and false for every other one. *)
Theorem negated_pattern_reincludes (cwd : string)
    (extended_match : string -> string -> bool)
    (base : option (list string)) (src filePath : string)
    (r : list string) :
  let filter :=
    new cwd base (Some ["src/dist/**"; "!src/dist/keep.js"]) src None in
  Forall (fun seg => glob_free seg = true) (resolve_segs cwd [src]) ->
  segmentsWithSourceDir cwd filter filePath =
    resolve_segs cwd [src] ++ ["src"; "dist"] ++ r ->
  r <> [] ->
  Forall (fun seg => dotted seg = false) r ->
  (wantFile cwd extended_match filter filePath = true <-> r = ["keep.js"]).
Proof.
  intros filter Hfree Hsegs Hr Hdots.
  set (S := resolve_segs cwd [src]) in *.
  assert (HcS : clean S) by apply resolve_segs_clean.
  assert (Hentry : forall rel segs,
    rel <> "" -> isAbsolute rel = false ->
    Forall (fun seg => seg <> "..") (split slash rel) ->
    List.filter ordinary (split slash rel) = segs ->
    resolve cwd [resolve cwd [src]; rel] = render (S ++ segs)).
  { intros rel segs Hne Habs Hdd Hf. unfold resolve at 1.
    change (resolve cwd [src]) with (render S).
    rewrite resolve_segs_relative, fold_norm_no_dotdot by assumption.
    now rewrite Hf. }
  assert (Hfiles :
    filesToIgnore filter =
    List.map (ignore_entry cwd (resolve cwd [src]))
      (default defaultBaseIgnoredPatterns base) ++
    [render (S ++ ["src"; "dist"; "**"]);
     "!" +:+ render (S ++ ["src"; "dist"; "keep.js"])]).
  { unfold filter. rewrite new_spec. cbv zeta.
    cbn [filesToIgnore]. rewrite app_nil_r. f_equal.
    change (List.map (ignore_entry cwd (resolve cwd [src]))
              (default [] (Some ["src/dist/**"; "!src/dist/keep.js"])))
      with [resolve cwd [resolve cwd [src]; "src/dist/**"];
            "!" +:+ resolve cwd [resolve cwd [src]; "src/dist/keep.js"]].
    rewrite (Hentry "src/dist/**" ["src"; "dist"; "**"]);
      [| discriminate | reflexivity | repeat constructor; discriminate
       | reflexivity].
    rewrite (Hentry "src/dist/keep.js" ["src"; "dist"; "keep.js"]);
      [| discriminate | reflexivity | repeat constructor; discriminate
       | reflexivity].
    reflexivity. }
  assert (Hc : clean (S ++ ["src"; "dist"] ++ r)).
  { rewrite <- Hsegs. apply resolve_segs_clean. }
  assert (Hcr : clean r).
  { apply Forall_app in Hc as [_ Hc]. now apply Forall_app in Hc as [_ Hc]. }
  assert (Hfile : resolveWithSourceDir cwd filter filePath =
                  render (S ++ ["src"; "dist"] ++ r)).
  { unfold resolveWithSourceDir, resolve.
    unfold segmentsWithSourceDir in Hsegs. now rewrite Hsegs. }
  assert (Hplain :
    Forall (fun seg => all_chars (fun c => negb (extended_meta c)) seg = true)
      S).
  { revert Hfree. apply List.Forall_impl. intros seg.
    apply glob_free_plain. }
  assert (Hstar :
    minimatch extended_match (resolveWithSourceDir cwd filter filePath)
      (render (S ++ ["src"; "dist"; "**"])) = true).
  { rewrite Hfile, minimatch_render.
    - rewrite map_app, map_parse_part_glob_free by assumption.
      change (List.map parse_part ["src"; "dist"; "**"])
        with (List.map Literal ["src"; "dist"] ++ [Globstar]).
      rewrite matchOne_literal_prefix.
      rewrite (matchOne_literal_prefix ["src"; "dist"] [Globstar] r).
      apply matchOne_globstar_last; [assumption |].
      now apply clean_visible.
    - destruct S; discriminate.
    - destruct S; discriminate.
    - now apply clean_solid.
    - apply clean_solid, clean_app; [assumption |].
      now repeat constructor.
    - apply Forall_app. split; [assumption | now repeat constructor].
    - change (S ++ ["src"; "dist"; "**"])
        with (S ++ ["src"; "dist"] ++ ["**"]).
      rewrite app_assoc. now apply trim_render_snoc. }
  assert (Hkeep :
    minimatch extended_match (resolveWithSourceDir cwd filter filePath)
      (render (S ++ ["src"; "dist"; "keep.js"])) =
    match r with
    | [x] => String.eqb x "keep.js"
    | _ => false
    end).
  { rewrite Hfile, minimatch_render.
    - rewrite map_app, map_parse_part_glob_free by assumption.
      change (List.map parse_part ["src"; "dist"; "keep.js"])
        with (List.map Literal ["src"; "dist"] ++ [Literal "keep.js"]).
      rewrite matchOne_literal_prefix.
      rewrite (matchOne_literal_prefix ["src"; "dist"] [Literal "keep.js"] r).
      destruct r as [|x [|y l]]; [congruence | |].
      + cbn [matchOne]. apply andb_true_r.
      + cbn [matchOne].
        inversion Hcr as [|? ? _ Hcl]; subst.
        inversion Hcl as [|? ? [Ho _] _]; subst.
        apply ordinary_inv in Ho as (Hy & _).
        destruct l; [rewrite (eqb_neq _ _ Hy) |]; apply andb_false_r.
    - destruct S; discriminate.
    - destruct S; discriminate.
    - now apply clean_solid.
    - apply clean_solid, clean_app; [assumption |].
      now repeat constructor.
    - apply Forall_app. split; [assumption | now repeat constructor].
    - change (S ++ ["src"; "dist"; "keep.js"])
        with (S ++ ["src"; "dist"] ++ ["keep.js"]).
      rewrite app_assoc. now apply trim_render_snoc. }
  split.
  - intros Hw.
    destruct r as [|x [|y l]]; [congruence | |].
    + destruct (String.eqb_spec x "keep.js") as [-> | Hne]; [reflexivity |].
      rewrite (wantFile_negated_miss cwd extended_match _ _ _ _ _
                 Hfiles eq_refl Hstar Hkeep) in Hw. discriminate.
    + rewrite (wantFile_negated_miss cwd extended_match _ _ _ _ _
                 Hfiles eq_refl Hstar Hkeep) in Hw. discriminate.
  - intros ->.
    change ([render (S ++ ["src"; "dist"; "**"]);
             "!" +:+ render (S ++ ["src"; "dist"; "keep.js"])])
      with ([render (S ++ ["src"; "dist"; "**"])] ++
            ["!" +:+ render (S ++ ["src"; "dist"; "keep.js"])]) in Hfiles.
    rewrite app_assoc in Hfiles.
    apply (wantFile_last_negated cwd extended_match _ _ _ _ Hfiles).
    now rewrite Hkeep.
Qed.

Lemma negated_pattern_reincludes_witness :
  wantFile "/home/dev" (fun _ _ => false)
    (new "/home/dev" None (Some ["src/dist/**"; "!src/dist/keep.js"])
       "/proj" None)
    "src/dist/keep.js" = true.
Proof.
  apply (negated_pattern_reincludes "/home/dev" (fun _ _ => false) None
           "/proj" "src/dist/keep.js" ["keep.js"]).
  - repeat constructor.
  - reflexivity.
  - discriminate.
  - repeat constructor.
  - reflexivity.
Defined.

(** C9 as stated fails: another file under [src/dist/], a hidden file in a
    hidden directory, is wanted as well. *)
Lemma negated_pattern_hidden_nested_wanted :
  "src/dist/.cache/.lock" <> "src/dist/keep.js" /\
  segmentsWithSourceDir "/home/dev"
    (new "/home/dev" None (Some ["src/dist/**"; "!src/dist/keep.js"])
       "/proj" None)
    "src/dist/.cache/.lock" = ["proj"; "src"; "dist"; ".cache"; ".lock"] /\
  wantFile "/home/dev" (fun _ _ => false)
    (new "/home/dev" None (Some ["src/dist/**"; "!src/dist/keep.js"])
       "/proj" None)
    "src/dist/.cache/.lock" = true.
Proof. split; [discriminate | split; reflexivity]. Qed.

End FileFilterProperties.

(* ===================================================================== *)
(** ** Reasoning about the methods of the runner *)
(* ===================================================================== *)

Module RunnerLogic.
Import Runner RunnerSpec.
Local Open Scope runner_scope.

Section Rules.
Context {A B : Type}.

Lemma triple_ret (P : state -> trace -> Prop) (a : A) Q :
  (forall st tr, P st tr -> Q (Returned a) st tr) ->
  triple P (ret a) Q.
Proof. intros H st tr HP. now apply H. Qed.

Lemma triple_throw (P : state -> trace -> Prop) v
    (Q : outcome A -> state -> trace -> Prop) :
  (forall st tr, P st tr -> Q (Thrown v) st tr) ->
  triple P (throw v) Q.
Proof. intros H st tr HP. now apply H. Qed.

Lemma triple_bind P (m : M A) (k : A -> M B) Q1 Q :
  triple P m Q1 ->
  (forall a, triple (Q1 (Returned a)) (k a) Q) ->
  (forall v st tr, Q1 (Thrown v) st tr -> Q (Thrown v) st tr) ->
  triple P (bind m k) Q.
Proof.
  intros Hm Hk Hthrow st tr HP. unfold bind.
  specialize (Hm st tr HP).
  destruct (m st tr) as [[[a | v] st1] tr1].
  - exact (Hk a st1 tr1 Hm).
  - now apply Hthrow.
Qed.

Lemma triple_try_catch P (m : M A) (handler : js_value -> M A) Q1 Q :
  triple P m Q1 ->
  (forall v, triple (Q1 (Thrown v)) (handler v) Q) ->
  (forall a st tr, Q1 (Returned a) st tr -> Q (Returned a) st tr) ->
  triple P (try_catch m handler) Q.
Proof.
  intros Hm Hh Hret st tr HP. unfold try_catch.
  specialize (Hm st tr HP).
  destruct (m st tr) as [[[a | v] st1] tr1].
  - now apply Hret.
  - exact (Hh v st1 tr1 Hm).
Qed.

Lemma triple_conseq (P P' : state -> trace -> Prop) (m : M A)
    (Q Q' : outcome A -> state -> trace -> Prop) :
  triple P' m Q' ->
  (forall st tr, P st tr -> P' st tr) ->
  (forall r st tr, Q' r st tr -> Q r st tr) ->
  triple P m Q.
Proof.
  intros Hm HP HQ st tr H. specialize (Hm st tr (HP st tr H)).
  destruct (m st tr) as [[r st1] tr1]. now apply HQ.
Qed.

Lemma triple_await P (answer : trace -> outcome A) record
    (Q : outcome A -> state -> trace -> Prop) :
  (forall st tr, P st tr ->
     Q (answer tr) st (tr ++ [record (answer tr)])) ->
  triple P (await answer record) Q.
Proof. intros H st tr HP. now apply H. Qed.
End Rules.

Lemma triple_get P (Q : outcome state -> state -> trace -> Prop) :
  (forall st tr, P st tr -> Q (Returned st) st tr) ->
  triple P get Q.
Proof. intros H st tr HP. now apply H. Qed.

Lemma triple_modify P f (Q : outcome unit -> state -> trace -> Prop) :
  (forall st tr, P st tr -> Q (Returned tt) (f st) tr) ->
  triple P (modify f) Q.
Proof. intros H st tr HP. now apply H. Qed.

Lemma triple_emit P e (Q : outcome unit -> state -> trace -> Prop) :
  (forall st tr, P st tr -> Q (Returned tt) st (tr ++ [e])) ->
  triple P (emit e) Q.
Proof. intros H st tr HP. now apply H. Qed.

(** A loop keeps its invariant as long as no turn throws; a turn that
    throws ends it in [E]. *)
Lemma triple_for_of {A} (I : state -> trace -> Prop)
    (E : js_value -> state -> trace -> Prop) (l : list A) body :
  (forall x, In x l ->
     triple I (body x)
       (fun r st tr =>
          match r with
          | Returned _ => I st tr
          | Thrown v => E v st tr
          end)) ->
  triple I (for_of l body)
    (fun r st tr =>
       match r with
       | Returned _ => I st tr
       | Thrown v => E v st tr
       end).
Proof.
  induction l as [|x l IH]; intros Hbody.
  - apply triple_ret. auto.
  - cbn [for_of]. eapply triple_bind.
    + apply Hbody. now left.
    + intros []. apply IH. intros y Hy. apply Hbody. now right.
    + auto.
Qed.

(** *** Invariants *)

Lemma keeps_bind {A B} I (m : M A) (k : A -> M B) :
  keeps I m -> (forall a, keeps I (k a)) -> keeps I (bind m k).
Proof. intros Hm Hk. eapply triple_bind; eauto. Qed.

Lemma keeps_try_catch {A} I (m : M A) handler :
  keeps I m -> (forall v, keeps I (handler v)) -> keeps I (try_catch m handler).
Proof. intros Hm Hh. eapply triple_try_catch; eauto. Qed.

Lemma keeps_ret {A} I (a : A) : keeps I (ret a).
Proof. now apply triple_ret. Qed.

Lemma keeps_throw {A} I v : keeps I (@throw A v).
Proof. now apply triple_throw. Qed.

Lemma keeps_get I : keeps I get.
Proof. now apply triple_get. Qed.

Lemma keeps_for_of {A} I (l : list A) body :
  (forall x, keeps I (body x)) -> keeps I (for_of l body).
Proof.
  intros Hbody. unfold keeps.
  eapply triple_conseq;
    [apply (triple_for_of I (fun _ => I)) | auto |].
  - intros x _. eapply triple_conseq; [apply (Hbody x) | auto |].
    intros [] ? ?; auto.
  - intros [] ? ?; auto.
Qed.

Lemma steady_stable I : steady I -> stable I.
Proof.
  intros H. split; intros; now apply H.
Qed.

(** One turn of the install loop keeps what events and updates of the map
    keep. *)
Lemma keeps_install_one world I remote dv ext :
  (forall st tr e, I st tr -> I st (tr ++ [e])) ->
  (forall st tr k v, I st tr -> I (set_reloadable k v st) tr) ->
  keeps I (install_one world remote dv ext).
Proof.
  intros Hev Hrel st tr HI.
  unfold install_one, try_catch, bind, await, throw, modify, ret, emit.
  destruct remote as [s|]; [| cbn; exact HI].
  destruct (installTemporaryAddon world tr s (ext_sourceDir ext) dv)
    as [[| | [id|]] | v]; cbn; auto.
  - destruct (JsString.truthy id); cbn; auto.
  - destruct (instanceof_RemoteTempInstallNotSupported v); cbn; auto.
Qed.

Ltac keeps_side :=
  intros;
  first
    [ eassumption
    | match goal with H : _ |- _ => solve [ eapply H; eassumption ] end
    | solve [ eapply stable_event; [eassumption | reflexivity | eassumption] ]
    | solve [ eapply stable_profile; eassumption ]
    | solve [ eapply stable_runningInfo; eassumption ]
    | solve [ eapply stable_remoteFirefox; eassumption ]
    | solve [ eapply steady_event; eassumption ]
    | solve [ eapply steady_profile; eassumption ]
    | solve [ eapply steady_runningInfo; eassumption ]
    | solve [ eapply steady_remoteFirefox; eassumption ]
    | solve [ eapply steady_reloadable; eassumption ] ].

Ltac keeps_step :=
  lazymatch goal with
  | |- keeps _ (ret _) => apply keeps_ret
  | |- keeps _ (throw _) => apply keeps_throw
  | |- keeps _ get => apply keeps_get
  | |- keeps _ (emit _) => apply triple_emit; keeps_side
  | |- keeps _ (await _ _) => apply triple_await; keeps_side
  | |- keeps _ (modify _) => apply triple_modify; keeps_side
  | |- keeps _ (bind _ _) => apply keeps_bind; [| intros ?]
  | |- keeps _ (try_catch _ _) => apply keeps_try_catch; [| intros ?]
  | |- keeps _ (for_of _ _) => apply keeps_for_of; intros ?
  | |- keeps _ (install_one _ _ _ _) =>
      apply keeps_install_one; keeps_side
  | |- keeps _ (match ?x with _ => _ end) => destruct x eqn:?
  end.

Section Methods.
Variable world : collaborators.
Variable I : state -> trace -> Prop.
Hypothesis HI : stable I.

Lemma keeps_setupProfileDir : keeps I (setupProfileDir world).
Proof. unfold setupProfileDir. repeat keeps_step. Qed.

Lemma keeps_closeObserver : keeps I (closeObserver world).
Proof. unfold closeObserver. repeat keeps_step. Qed.

Lemma keeps_exit : keeps I (exit).
Proof. unfold exit. repeat keeps_step. Qed.

Lemma keeps_reloadExtensionBySourceDir dir :
  keeps I (reloadExtensionBySourceDir world dir).
Proof. unfold reloadExtensionBySourceDir. repeat keeps_step. Qed.

Lemma keeps_reload_loop exts errs : keeps I (reload_loop world exts errs).
Proof.
  revert errs. induction exts as [|ext exts IH]; intros errs;
    cbn [reload_loop].
  - apply keeps_ret.
  - apply keeps_bind; [apply keeps_reloadExtensionBySourceDir |].
    intros [|res results]; [apply keeps_throw |].
    destruct (reloadError res) as [v|]; [| apply IH].
    destruct (instanceof_Error v); apply IH.
Qed.

Lemma keeps_reloadAllExtensions : keeps I (reloadAllExtensions world).
Proof.
  unfold reloadAllExtensions.
  apply keeps_bind; [apply keeps_get | intros st].
  apply keeps_bind; [apply keeps_reload_loop | intros errs].
  repeat keeps_step.
Qed.
End Methods.

Section SteadyMethods.
Variable world : collaborators.
Variable I : state -> trace -> Prop.
Hypothesis HI : steady I.

Lemma keeps_startFirefoxInstance : keeps I (startFirefoxInstance world).
Proof. unfold startFirefoxInstance. repeat keeps_step. Qed.

Lemma keeps_run : keeps I (run world).
Proof.
  unfold run. apply keeps_bind.
  - apply keeps_setupProfileDir. now apply steady_stable.
  - intros _. apply keeps_startFirefoxInstance.
Qed.

End SteadyMethods.

End RunnerLogic.

(* ===================================================================== *)
(** ** The map of reloadable extensions *)
(* ===================================================================== *)

Module TrackingFacts.
Import Runner RunnerSpec RunnerLogic.
Local Open Scope runner_scope.

Lemma installed_as_mono tr more dir id :
  installed_as tr dir id -> installed_as (tr ++ more) dir id.
Proof.
  intros [Hid (s & dv & Hin)]. split; [assumption |].
  exists s, dv. apply in_or_app. now left.
Qed.

Lemma installed_as_snoc tr e dir id :
  installed_as (tr ++ [e]) dir id ->
  installed_as tr dir id \/
  (id <> "" /\
   exists s dv, e = EvInstallTemporaryAddon s dir dv (Returned (Addon (Some id)))).
Proof.
  intros [Hid (s & dv & Hin)]. apply in_app_or in Hin as [Hin | [Heq | []]].
  - left. split; [assumption |]. now exists s, dv.
  - right. split; [assumption |]. now exists s, dv.
Qed.

(** Recording an event that is not a completed install leaves the
    invariant as it is. *)
Lemma tracking_event p st tr e :
  (forall s dir dv id,
     e = EvInstallTemporaryAddon s dir dv (Returned (Addon (Some id))) ->
     id = "") ->
  (preInstall p = true -> is_temporary_install e = false) ->
  tracking_invariant p st tr -> tracking_invariant p st (tr ++ [e]).
Proof.
  intros He Hpre (Hp & Hfwd & Hbwd & Hnone).
  split; [| split; [| split]].
  - assumption.
  - intros dir id H. now apply installed_as_mono, Hfwd.
  - intros dir [id Hi]. apply Hbwd. exists id.
    apply installed_as_snoc in Hi as [Hi | (Hid & s & dv & ->)];
      [assumption |].
    now destruct Hid; apply (He s dir dv id).
  - intros Hpi. apply Forall_app. split; [now apply Hnone |].
    constructor; [now apply Hpre | constructor].
Qed.

Lemma tracking_stable p : stable (tracking_invariant p).
Proof.
  split.
  - intros st tr e He. apply tracking_event.
    + intros s dir dv id ->. discriminate.
    + auto.
  - intros st tr h H. exact H.
  - intros st tr ri H. exact H.
  - intros st tr s H. exact H.
Qed.

Section Tracking.
Variable world : collaborators.
Variable p : params_t.

(** A completed install adds its directory, and the event that shows
    it. *)
Lemma tracking_installed st tr s dir dv id :
  preInstall p = false -> id <> "" ->
  tracking_invariant p st tr ->
  tracking_invariant p (set_reloadable dir id st)
    (tr ++ [EvInstallTemporaryAddon s dir dv (Returned (Addon (Some id)))]).
Proof.
  intros Hpre Hid (Hp & Hfwd & Hbwd & Hnone).
  split; [| split; [| split]].
  - assumption.
  - intros dir0 id0 H. cbn [set_reloadable reloadableExtensions] in H.
    destruct (decide (dir = dir0)) as [<- | Hne].
    + rewrite lookup_insert_eq in H. injection H as <-.
      split; [assumption |].
      exists s, dv. apply in_or_app. right. now left.
    + rewrite lookup_insert_ne in H by assumption.
      now apply installed_as_mono, Hfwd.
  - intros dir0 [id0 Hi]. cbn [set_reloadable reloadableExtensions].
    destruct (decide (dir = dir0)) as [<- | Hne].
    + rewrite lookup_insert_eq. eauto.
    + rewrite lookup_insert_ne by assumption. apply Hbwd. exists id0.
      apply installed_as_snoc in Hi as [Hi | (_ & s' & dv' & Heq)];
        [assumption | congruence].
  - congruence.
Qed.

Lemma truthy_not_empty id : JsString.truthy id = true -> id <> "".
Proof.
  unfold JsString.truthy. intros H ->. discriminate.
Qed.

Lemma truthy_false_empty id : JsString.truthy id = false -> id = "".
Proof.
  unfold JsString.truthy. intros H.
  apply negb_false_iff in H. now apply String.eqb_eq in H.
Qed.

(** One turn of the install loop keeps the invariant, whether it adds the
    directory or throws. *)
Lemma tracking_install_one remote dv ext :
  preInstall p = false ->
  keeps (tracking_invariant p) (install_one world remote dv ext).
Proof.
  intros Hpre st tr Hinv.
  unfold install_one, try_catch, bind, await, throw, modify, ret, emit.
  destruct remote as [s|]; [| cbn; exact Hinv].
  destruct (installTemporaryAddon world tr s (ext_sourceDir ext) dv)
    as [[| | [id|]] | v] eqn:Hres; cbn.
  - apply tracking_event; [intros; congruence | congruence | assumption].
  - apply tracking_event; [intros; congruence | congruence | assumption].
  - destruct (JsString.truthy id) eqn:Hid; cbn.
    + apply tracking_installed; auto using truthy_not_empty.
    + apply tracking_event; [| congruence | assumption].
      intros ? ? ? ? [= _ _ _ <-]. now apply truthy_false_empty.
  - apply tracking_event; [intros; congruence | congruence | assumption].
  - destruct (instanceof_RemoteTempInstallNotSupported v); cbn.
    + apply tracking_event; [intros; congruence | reflexivity |].
      apply tracking_event; [intros; congruence | congruence | assumption].
    + apply tracking_event; [intros; congruence | congruence | assumption].
Qed.

Lemma keeps_bind_get {A} (I : state -> trace -> Prop) (k : state -> M A) :
  (forall st tr, I st tr -> params st = p) ->
  (forall st0, params st0 = p -> keeps I (k st0)) ->
  keeps I (bind get k).
Proof.
  intros Hp Hk st tr HI. unfold bind, get.
  exact (Hk st (Hp st tr HI) st tr HI).
Qed.

Lemma tracking_params st tr : tracking_invariant p st tr -> params st = p.
Proof. now intros [H _]. Qed.

Lemma tracking_startFirefoxInstance :
  keeps (tracking_invariant p) (startFirefoxInstance world).
Proof.
  pose proof (tracking_stable p) as HI.
  unfold startFirefoxInstance.
  apply keeps_bind_get; [apply tracking_params |]. intros st0 ->.
  repeat keeps_step.
  apply tracking_install_one. now apply negb_true_iff.
Qed.

Lemma tracking_run : keeps (tracking_invariant p) (run world).
Proof.
  unfold run. apply keeps_bind.
  - apply keeps_setupProfileDir, tracking_stable.
  - intros _. apply tracking_startFirefoxInstance.
Qed.

Lemma tracking_perform op :
  keeps (tracking_invariant p) (perform world op).
Proof.
  pose proof (tracking_stable p) as HI.
  destruct op; cbn [perform]; unfold forget.
  - apply tracking_run.
  - apply keeps_bind; [now apply keeps_reloadAllExtensions |].
    intros; apply keeps_ret.
  - apply keeps_bind; [now apply keeps_reloadExtensionBySourceDir |].
    intros; apply keeps_ret.
  - intros st tr H. exact H.
  - now apply keeps_exit.
  - now apply keeps_closeObserver.
Qed.

Lemma tracking_perform_all ops st tr :
  tracking_invariant p st tr ->
  tracking_invariant p (perform_all world ops st tr).1
    (perform_all world ops st tr).2.
Proof.
  revert st tr. induction ops as [|op ops IH]; intros st tr H;
    cbn [perform_all]; [exact H |].
  pose proof (tracking_perform op st tr H) as Hop.
  destruct (perform world op st tr) as [[r st1] tr1]. now apply IH.
Qed.

Lemma tracking_new : tracking_invariant p (new p) [].
Proof.
  split; [| split; [| split]].
  - reflexivity.
  - intros dir id H. cbn in H. now rewrite lookup_empty in H.
  - intros dir (id & _ & s & dv & []).
  - constructor.
Qed.

(** A turn of the install loop that throws leaves the map as it was. *)
Lemma install_one_thrown remote dv ext st tr v st' tr' :
  install_one world remote dv ext st tr = (Thrown v, st', tr') ->
  st' = st.
Proof.
  unfold install_one, try_catch, bind, await, throw, modify, ret, emit.
  destruct remote as [s|]; [| cbn; congruence].
  destruct (installTemporaryAddon world tr s (ext_sourceDir ext) dv)
    as [[| | [id|]] | v0]; cbn; try congruence.
  - destruct (JsString.truthy id); cbn; congruence.
  - destruct (instanceof_RemoteTempInstallNotSupported v0); cbn;
      congruence.
Qed.
End Tracking.

End TrackingFacts.

(* ===================================================================== *)
(** ** Installs that resolve without an addon id *)
(* ===================================================================== *)

Module InstallFacts.
Import Runner RunnerSpec RunnerLogic TrackingFacts.
Local Open Scope runner_scope.

Lemma for_of_app {A} (l1 l2 : list A) body st tr :
  for_of (l1 ++ l2) body st tr =
  match for_of l1 body st tr with
  | (Returned _, st1, tr1) => for_of l2 body st1 tr1
  | (Thrown v, st1, tr1) => (Thrown v, st1, tr1)
  end.
Proof.
  revert st tr. induction l1 as [|x l1 IH]; intros st tr; cbn [for_of app].
  - reflexivity.
  - unfold bind. destruct (body x st tr) as [[[[] | v] st1] tr1];
      [apply IH | reflexivity].
Qed.

Lemma keeps_unless_of_keeps {A} I E (m : M A) :
  keeps I m -> keeps_unless I E m.
Proof.
  intros H. eapply triple_conseq; [exact H | auto |]. intros; now left.
Qed.

Lemma keeps_unless_bind {A B} I E (m : M A) (k : A -> M B) :
  keeps_unless I E m -> (forall a, keeps_unless I E (k a)) ->
  keeps_unless I E (bind m k).
Proof.
  intros Hm Hk. eapply triple_bind; [exact Hm | |].
  - intros a. eapply triple_conseq; [apply (Hk a) | | auto].
    intros st tr [H | []]. exact H.
  - intros v st tr H. exact H.
Qed.

Lemma keeps_unless_for_of {A} I E (l : list A) body :
  (forall x, keeps_unless I E (body x)) -> keeps_unless I E (for_of l body).
Proof.
  intros Hbody. induction l as [|x l IH]; cbn [for_of].
  - apply keeps_unless_of_keeps, keeps_ret.
  - apply keeps_unless_bind; [apply Hbody | intros _; apply IH].
Qed.

Lemma no_missing_id_stable tr0 : stable (no_missing_id_since tr0).
Proof.
  split; try (intros; assumption).
  intros st tr e He (new & -> & Hall). exists (new ++ [e]). split.
  - now rewrite app_assoc.
  - apply Forall_app. split; [assumption |]. constructor; [| constructor].
    destruct e; try reflexivity. discriminate.
Qed.

Lemma no_missing_id_snoc tr0 st tr e :
  install_without_id e = false ->
  no_missing_id_since tr0 st tr -> no_missing_id_since tr0 st (tr ++ [e]).
Proof.
  intros He (new & -> & Hall). exists (new ++ [e]). split.
  - now rewrite app_assoc.
  - apply Forall_app. split; [assumption |]. now constructor.
Qed.

Section Installs.
Variable world : collaborators.

(** One turn of the install loop on an install that resolves without an
    addon id. *)
Lemma install_one_missing_id s dv ext id st tr :
  installTemporaryAddon world tr s (ext_sourceDir ext) dv
    = Returned (Addon id) ->
  missing_id id = true ->
  install_one world (Some s) dv ext st tr =
  (Thrown missing_addonId_error, st,
   tr ++ [EvInstallTemporaryAddon s (ext_sourceDir ext) dv
            (Returned (Addon id))]).
Proof.
  intros Hres Hid.
  unfold install_one, try_catch, bind, await, throw, modify, ret, emit.
  rewrite Hres. destruct id as [id|]; cbn in *.
  - apply negb_true_iff in Hid. rewrite Hid. reflexivity.
  - reflexivity.
Qed.

Lemma install_one_unless tr0 remote dv ext :
  keeps_unless (no_missing_id_since tr0)
    (fun v _ tr => v = missing_addonId_error /\
                   stopped_at_missing_id tr0 tr)
    (install_one world remote dv ext).
Proof.
  intros st tr HI.
  unfold install_one, try_catch, bind, await, throw, modify, ret, emit.
  destruct remote as [s|]; [| cbn; now left].
  destruct (installTemporaryAddon world tr s (ext_sourceDir ext) dv)
    as [[| | [id|]] | v] eqn:Hres; cbn.
  - left. now apply no_missing_id_snoc.
  - left. now apply no_missing_id_snoc.
  - destruct (JsString.truthy id) eqn:Hid; cbn.
    + left. apply (no_missing_id_snoc tr0 st); [| assumption].
      cbn. now rewrite Hid.
    + right. split; [reflexivity |].
      destruct HI as (new & -> & Hall). exists new. eexists.
      split; [now rewrite app_assoc | split; [| assumption]].
      cbn. now rewrite Hid.
  - right. split; [reflexivity |].
    destruct HI as (new & -> & Hall). exists new. eexists.
    split; [now rewrite app_assoc | split; [reflexivity | assumption]].
  - destruct (instanceof_RemoteTempInstallNotSupported v); cbn; left.
    + apply no_missing_id_snoc; [reflexivity |].
      now apply no_missing_id_snoc.
    + now apply no_missing_id_snoc.
Qed.

Lemma startFirefoxInstance_unless tr0 :
  keeps_unless (no_missing_id_since tr0)
    (fun v _ tr => v = missing_addonId_error /\
                   stopped_at_missing_id tr0 tr)
    (startFirefoxInstance world).
Proof.
  pose proof (no_missing_id_stable tr0) as HI.
  unfold startFirefoxInstance.
  repeat
    lazymatch goal with
    | |- keeps_unless _ _ (bind _ _) =>
        apply keeps_unless_bind; [| intros ?]
    | |- keeps_unless _ _ (for_of _ _) =>
        apply keeps_unless_for_of; intros ?
    | |- keeps_unless _ _ (install_one _ _ _ _) => apply install_one_unless
    | |- keeps_unless _ _ (match ?x with _ => _ end) => destruct x eqn:?
    | |- keeps_unless _ _ _ =>
        apply keeps_unless_of_keeps; repeat keeps_step
    end.
Qed.

Lemma run_unless tr0 :
  keeps_unless (no_missing_id_since tr0)
    (fun v _ tr => v = missing_addonId_error /\
                   stopped_at_missing_id tr0 tr)
    (run world).
Proof.
  unfold run. apply keeps_unless_bind.
  - apply keeps_unless_of_keeps, keeps_setupProfileDir,
      no_missing_id_stable.
  - intros _. apply startFirefoxInstance_unless.
Qed.

Lemma Forall_false_In (bad : event -> bool) l e :
  Forall (fun e => bad e = false) l -> In e l -> bad e = true -> False.
Proof.
  intros Hall Hin He. rewrite Forall_forall in Hall.
  apply list_elem_of_In in Hin. rewrite (Hall e Hin) in He. discriminate.
Qed.
End Installs.

End InstallFacts.

(* ===================================================================== *)
(** ** Cleanup callbacks *)
(* ===================================================================== *)

Module CleanupFacts.
Import Runner RunnerSpec RunnerLogic.
Local Open Scope runner_scope.







Lemma cleanup_calls_app a b :
  cleanup_calls (a ++ b) = cleanup_calls a ++ cleanup_calls b.
Proof.
  induction a as [|e a IH]; [reflexivity |].
  destruct e; cbn; now rewrite ?IH.
Qed.


Section Close.
Variable world : collaborators.

Lemma close_loop cbs st tr :
  for_of cbs
    (fun cleanupCb =>
       try_catch
         (await (fun tr => call_callback world tr cleanupCb)
            (EvCleanupCallback cleanupCb))
         (fun error =>
            match template_error error with
            | Some conversionError => throw conversionError
            | None => emit (EvLogError (CleanupException error))
            end))
    st tr =
  ((close_run world cbs tr).1, st, tr ++ (close_run world cbs tr).2).
Proof.
  revert tr. induction cbs as [|cb cbs IH]; intros tr;
    cbn [for_of close_run].
  - unfold ret. cbn. now rewrite app_nil_r.
  - unfold bind at 1, try_catch, await.
    destruct (call_callback world tr cb) as [[] | v].
    + rewrite IH.
      destruct (close_run world cbs
                  (tr ++ [EvCleanupCallback cb (Returned ())])) as [o es].
      cbn [fst snd]. now rewrite <- app_assoc.
    + destruct (template_error v) as [conversionError|]; [reflexivity |].
      unfold emit. rewrite <- app_assoc. rewrite IH. cbn [app].
      destruct (close_run world cbs _) as [o es].
      cbn [fst snd]. now rewrite <- app_assoc.
Qed.

(** The close observer calls the callbacks of the set in its order and
    logs the ones that throw, up to one that throws a value no log entry
    can be built from; the runner is left as it is. *)
Lemma closeObserver_spec st tr :
  closeObserver world st tr =
  ((close_run world (cleanupCallbacks st) tr).1, st,
   tr ++ close_events world (cleanupCallbacks st) tr).
Proof. unfold closeObserver, bind, get. apply close_loop. Qed.





End Close.

End CleanupFacts.

(* ===================================================================== *)
(** ** Reloads *)
(* ===================================================================== *)

Module ReloadFacts.
Import Runner RunnerSpec RunnerLogic.
Local Open Scope runner_scope.

Lemma fold_record_lookup l (m : gmap string js_value) d v :
  fold_left record_failure l m !! d = Some v ->
  m !! d = Some v \/ In (d, v) l.
Proof.
  revert m. induction l as [|[d0 v0] l IH]; intros m; cbn [fold_left];
    [auto |].
  intros H. apply IH in H as [H | H]; [| right; now right].
  unfold record_failure in H. cbn in H.
  destruct (decide (d0 = d)) as [-> | Hne].
  - rewrite lookup_insert_eq in H. injection H as ->. right. now left.
  - rewrite lookup_insert_ne in H by assumption. now left.
Qed.

Lemma fold_record_is_Some l (m : gmap string js_value) d :
  is_Some (m !! d) \/ (exists v, In (d, v) l) ->
  is_Some (fold_left record_failure l m !! d).
Proof.
  revert m. induction l as [|[d0 v0] l IH]; intros m; cbn [fold_left].
  - intros [H | [v []]]. exact H.
  - intros [H | [v [Heq | Hin]]]; apply IH.
    + left. unfold record_failure. cbn.
      destruct (decide (d0 = d)) as [-> | Hne].
      * rewrite lookup_insert_eq. eauto.
      * now rewrite lookup_insert_ne.
    + injection Heq as -> ->. left. unfold record_failure. cbn.
      rewrite lookup_insert_eq. eauto.
    + right. eauto.
Qed.

Section Reload.
Variable world : collaborators.

(** A reload of one extension never throws and never touches the
    runner: it returns one result, for the directory asked. *)
Lemma reloadExtensionBySourceDir_total dir st tr :
  exists res new,
    reloadExtensionBySourceDir world dir st tr =
      (Returned [res], st, tr ++ new) /\
    sourceDir res = Some dir /\ runnerName res = getName.
Proof.
  unfold reloadExtensionBySourceDir, bind, get, try_catch, ret, throw, await.
  assert (Hnone : forall res : reload_result,
    sourceDir res = Some dir -> runnerName res = getName ->
    exists res' new,
      (Returned [res], st, tr) = (Returned [res'], st, tr ++ new) /\
      sourceDir res' = Some dir /\ runnerName res' = getName).
  { intros res H1 H2. exists res, []. now rewrite app_nil_r. }
  destruct (reloadableExtensions st !! dir) as [addonId|];
    [| now apply Hnone].
  destruct (JsString.truthy addonId); cbn; [| now apply Hnone].
  destruct (remoteFirefox st) as [s|]; [| now apply Hnone].
  destruct (reloadAddon world tr s addonId) as [[] | v];
    (eexists; eexists; split; [reflexivity | split; reflexivity]).
Qed.

Lemma reload_each_dirs dirs st tr :
  List.map fst (reload_each world dirs st tr).1 = dirs.
Proof.
  revert tr. induction dirs as [|dir dirs IH]; intros tr; [reflexivity |].
  cbn [reload_each].
  destruct (reloadExtensionBySourceDir_total dir st tr)
    as (res & new & -> & _ & _).
  specialize (IH (tr ++ new)).
  destruct (reload_each world dirs st (tr ++ new)) as [rs tr2].
  cbn in *. now rewrite IH.
Qed.

(** The loop of [reloadAllExtensions] records the failures of the batch,
    in order. *)
Lemma reload_loop_spec exts errs st tr :
  reload_loop world exts errs st tr =
  (Returned
     (fold_left record_failure
        (failures (reload_each world (List.map ext_sourceDir exts) st tr).1)
        errs),
   st,
   (reload_each world (List.map ext_sourceDir exts) st tr).2).
Proof.
  revert errs tr. induction exts as [|ext exts IH]; intros errs tr;
    [reflexivity |].
  cbn [reload_loop List.map reload_each]. unfold bind at 1.
  destruct (reloadExtensionBySourceDir_total (ext_sourceDir ext) st tr)
    as (res & new & -> & _ & _).
  destruct (reload_each world (List.map ext_sourceDir exts) st (tr ++ new))
    as [rs tr2] eqn:Heach.
  cbn [fst snd failures flat_map].
  destruct (reloadError res) as [v|].
  - destruct (instanceof_Error v); rewrite IH, Heach; reflexivity.
  - rewrite IH, Heach. reflexivity.
Qed.
End Reload.

End ReloadFacts.

(* ===================================================================== *)
(** ** Properties of the runner *)
(* ===================================================================== *)

Module RunnerProperties.
Import Runner RunnerSpec RunnerLogic RunnerExamples.
Import TrackingFacts InstallFacts CleanupFacts ReloadFacts.
Local Open Scope runner_scope.

(** C1.  Whatever is done with a runner, a source directory is a key of
    [reloadableExtensions] if and only if a temporary install for it
    completed over the session (it resolved with an addon id), and the
    value is such an id; with [preInstall] nothing is ever added; and a
    turn of the install loop that fails adds nothing. *)
Theorem reloadable_iff_installed (world : collaborators) (p : params_t)
    (ops : list operation) :
  let st := (perform_all world ops (new p) []).1 in
  let tr := (perform_all world ops (new p) []).2 in
  (forall dir,
     is_Some (reloadableExtensions st !! dir) <-> installed tr dir) /\
  (forall dir id,
     reloadableExtensions st !! dir = Some id -> installed_as tr dir id) /\
  (preInstall p = true -> reloadableExtensions st = ∅) /\
  (forall remote dv ext st0 tr0 v st1 tr1,
     install_one world remote dv ext st0 tr0 = (Thrown v, st1, tr1) ->
     reloadableExtensions st1 = reloadableExtensions st0).
Proof.
  intros st tr.
  destruct (tracking_perform_all world p ops (new p) [] (tracking_new p))
    as (Hp & Hfwd & Hbwd & Hnone).
  fold st tr in Hp, Hfwd, Hbwd, Hnone.
  split; [| split; [| split]].
  - intros dir. split; [| apply Hbwd].
    intros [id Hid]. exists id. now apply Hfwd.
  - exact Hfwd.
  - intros Hpre. apply map_empty. intros dir.
    destruct (reloadableExtensions st !! dir) as [id|] eqn:Hid;
      [| reflexivity].
    destruct (Hfwd dir id Hid) as [_ (s & dv & Hin)].
    specialize (Hnone Hpre). rewrite Forall_forall in Hnone.
    apply list_elem_of_In in Hin. specialize (Hnone _ Hin). discriminate.
  - intros remote dv ext st0 tr0 v st1 tr1 Hone.
    now rewrite (install_one_thrown world remote dv ext st0 tr0 v st1 tr1).
Qed.

Lemma reloadable_iff_installed_witness :
  reloadableExtensions
    (perform_all friendly [OpRun; OpReloadAllExtensions]
       (new (config [ext_a; ext_b] true)) []).1 = ∅ /\
  reloadableExtensions
    (install_one forgetting_id_of_b (Some 1) false ext_b
       (new (config [ext_b] false)) []).1.2 = ∅.
Proof.
  split.
  - apply (reloadable_iff_installed friendly (config [ext_a; ext_b] true)
             [OpRun; OpReloadAllExtensions]).
    reflexivity.
  - apply (proj2 (proj2 (proj2
             (reloadable_iff_installed forgetting_id_of_b
                (config [ext_b] false) [])))
             (Some 1) false ext_b (new (config [ext_b] false)) []
             missing_addonId_error _
             [EvInstallTemporaryAddon 1 "/ext/b" false
                (Returned (Addon (Some "")))]).
    reflexivity.
Defined.

(** C3.  A directory without a recorded addon id, be it never installed
    or installed with [preInstall] only, gets the single result that says
    it is not reloadable, and nothing is asked of the session; for a
    tracked directory a rejection of [reloadAddon] ends up in the result;
    the method never throws. *)
Theorem reload_untracked_or_captured (world : collaborators)
    (dir : string) :
  (forall st tr,
     reloadableExtensions st !! dir = None ->
     reloadExtensionBySourceDir world dir st tr =
       (Returned [not_reloadable dir], st, tr)) /\
  (forall p ops,
     let st := (perform_all world ops (new p) []).1 in
     let tr := (perform_all world ops (new p) []).2 in
     preInstall p = true \/ ~ installed tr dir ->
     reloadExtensionBySourceDir world dir st tr =
       (Returned [not_reloadable dir], st, tr)) /\
  (forall st tr addonId s v,
     reloadableExtensions st !! dir = Some addonId ->
     JsString.truthy addonId = true ->
     remoteFirefox st = Some s ->
     reloadAddon world tr s addonId = Thrown v ->
     reloadExtensionBySourceDir world dir st tr =
       (Returned [ {| runnerName := getName;
                      sourceDir := Some dir;
                      reloadError := Some v |} ],
        st, tr ++ [EvReloadAddon s addonId (Thrown v)])) /\
  (forall st tr,
     exists res new,
       reloadExtensionBySourceDir world dir st tr =
         (Returned [res], st, tr ++ new)).
Proof.
  assert (Hnone : forall st tr,
    reloadableExtensions st !! dir = None ->
    reloadExtensionBySourceDir world dir st tr =
      (Returned [not_reloadable dir], st, tr)).
  { intros st tr H. unfold reloadExtensionBySourceDir, bind, get.
    now rewrite H. }
  split; [exact Hnone | split; [| split]].
  - intros p ops st tr Hcase. apply Hnone.
    destruct (tracking_perform_all world p ops (new p) [] (tracking_new p))
      as (Hp & Hfwd & Hbwd & Hno).
    fold st tr in Hp, Hfwd, Hbwd, Hno.
    destruct (reloadableExtensions st !! dir) as [id|] eqn:Hid;
      [| reflexivity].
    exfalso. destruct Hcase as [Hpre | Hnot].
    + destruct (Hfwd dir id Hid) as [_ (s & dv & Hin)].
      specialize (Hno Hpre). rewrite Forall_forall in Hno.
      apply list_elem_of_In in Hin. specialize (Hno _ Hin). discriminate.
    + apply Hnot. exists id. now apply Hfwd.
  - intros st tr addonId s v Hid Htruthy Hs Hv.
    unfold reloadExtensionBySourceDir, bind, get, try_catch, await, ret.
    rewrite Hid, Htruthy, Hs. cbn. now rewrite Hv.
  - intros st tr.
    destruct (reloadExtensionBySourceDir_total world dir st tr)
      as (res & new & H & _). now exists res, new.
Qed.

Lemma reload_untracked_or_captured_witness :
  reloadExtensionBySourceDir friendly "/ext/never"
    (perform_all friendly [OpRun] (new (config [ext_a] false)) []).1
    (perform_all friendly [OpRun] (new (config [ext_a] false)) []).2
  = (Returned [not_reloadable "/ext/never"],
     (perform_all friendly [OpRun] (new (config [ext_a] false)) []).1,
     (perform_all friendly [OpRun] (new (config [ext_a] false)) []).2) /\
  reloadExtensionBySourceDir friendly "/ext/a"
    (perform_all friendly [OpRun] (new (config [ext_a] true)) []).1
    (perform_all friendly [OpRun] (new (config [ext_a] true)) []).2
  = (Returned [not_reloadable "/ext/a"],
     (perform_all friendly [OpRun] (new (config [ext_a] true)) []).1,
     (perform_all friendly [OpRun] (new (config [ext_a] true)) []).2) /\
  (reloadExtensionBySourceDir failing_b "/ext/b"
    (perform_all failing_b [OpRun] (new (config [ext_b] false)) []).1
    (perform_all failing_b [OpRun] (new (config [ext_b] false)) []).2).1.1
  = Returned [ {| runnerName := getName;
                  sourceDir := Some "/ext/b";
                  reloadError :=
                    Some (ErrorObject WebExtError "reload failed") |} ].
Proof.
  split; [| split].
  - apply (proj1 (reload_untracked_or_captured friendly "/ext/never")).
    reflexivity.
  - apply (proj1 (proj2 (reload_untracked_or_captured friendly "/ext/a"))
             (config [ext_a] true) [OpRun]).
    now left.
  - erewrite (proj1 (proj2 (proj2
               (reload_untracked_or_captured failing_b "/ext/b")))
               _ _ "addon@/ext/b" 1
               (ErrorObject WebExtError "reload failed"));
      reflexivity.
Defined.

(** C4.  The claim is what the observer is written for, and the code
    misses it: the log entry of a callback that threw is built in the
    [catch] block with a template literal, and for a value that cannot be
    converted to a string, such as a Symbol, the conversion throws there.
    With three callbacks registered, of which the second throws a Symbol,
    the observer calls the first two and then throws the [TypeError] of
    the conversion: the third callback is not called, nothing is logged,
    and the failure leaves the observer. *)
Theorem close_observer_cut_short :
  closeObserver throwing_a_symbol
    (perform_all throwing_a_symbol
       [OpRegisterCleanup 1; OpRegisterCleanup 2; OpRegisterCleanup 3; OpRun]
       (new (config [ext_a] false)) []).1
    (perform_all throwing_a_symbol
       [OpRegisterCleanup 1; OpRegisterCleanup 2; OpRegisterCleanup 3; OpRun]
       (new (config [ext_a] false)) []).2 =
  (Thrown (ErrorObject TypeError "Cannot convert a Symbol value to a string"),
   (perform_all throwing_a_symbol
      [OpRegisterCleanup 1; OpRegisterCleanup 2; OpRegisterCleanup 3; OpRun]
      (new (config [ext_a] false)) []).1,
   (perform_all throwing_a_symbol
      [OpRegisterCleanup 1; OpRegisterCleanup 2; OpRegisterCleanup 3; OpRun]
      (new (config [ext_a] false)) []).2 ++
   [EvCleanupCallback 1 (Returned tt);
    EvCleanupCallback 2
      (Thrown (Unprintable
                 (ErrorObject TypeError
                    "Cannot convert a Symbol value to a string")))]).
Proof. reflexivity. Qed.



(** C6.  [exit()] throws, and changes nothing, when no process was
    launched or the process handle is absent; after a [run()] that
    succeeded it sends the kill to the process the run launched and the
    observer watches, and that is all it does: no callback is called. *)
Theorem exit_kills_or_throws (world : collaborators) (st : state)
    (tr : trace) :
  (runningInfo st = None \/
   (exists info, runningInfo st = Some info /\ firefox info = None) ->
   exit st tr = (Thrown (ErrorObject WebExtError no_instance_message), st, tr))
  /\
  (forall p,
     exit (new p) [] =
     (Thrown (ErrorObject WebExtError no_instance_message), new p, [])) /\
  (forall st' tr',
     run world st tr = (Returned tt, st', tr') ->
     exists info proc,
       launched_with info proc st' tr' /\
       exit st' tr' = (Returned tt, st', tr' ++ [EvKill proc]) /\
       cleanup_calls [EvKill proc] = []).
Proof.
  split; [| split].
  - intros [Hnone | (info & Hinfo & Hproc)]; unfold exit, bind, get, throw.
    + now rewrite Hnone.
    + now rewrite Hinfo, Hproc.
  - reflexivity.
  - intros st' tr' Hrun.
    assert (Hlaunched : exists info proc, launched_with info proc st' tr').
    { unfold run in Hrun. unfold bind at 1 in Hrun.
      destruct (setupProfileDir world st tr) as [[[[] | v] st1] tr1];
        [| discriminate].
      unfold startFirefoxInstance in Hrun.
      cbv [bind get await modify throw emit ret] in Hrun.
      destruct (firefoxApp_run world tr1 (binaryArgs_of (params st1)))
        as [[info|] | v]; [| discriminate | discriminate].
      destruct (firefox info) as [proc|] eqn:Hproc; [| discriminate].
      exists info, proc.
      assert (Hnow :
        launched_with info proc (set_runningInfo (Some info) st1)
          ((tr1 ++ [EvRun (binaryArgs_of (params st1))
                      (Returned (Some info))]) ++ [EvOnClose proc])).
      { split; [reflexivity | split; [assumption |]].
        apply in_or_app. right. now left. }
      destruct (negb (preInstall (params st1))).
      - destruct (firefoxClient world _ (debuggerPort info))
          as [remote | v]; [| discriminate].
        assert (Hev : forall st tr e, launched_with info proc st tr ->
                                      launched_with info proc st (tr ++ [e])).
        { intros s0 t0 e (H1 & H2 & H3). split; [assumption |].
          split; [assumption |]. apply in_or_app. now left. }
        pose proof (keeps_for_of (launched_with info proc)
                      (extensions (params st1))
                      (install_one world remote (devtools (params st1)))
                      (fun ext =>
                         keeps_install_one world _ remote _ ext Hev
                           (fun st tr k v H => H))) as Hloop.
        specialize
          (Hloop (set_remoteFirefox remote (set_runningInfo (Some info) st1))
             _ (Hev (set_remoteFirefox remote
                       (set_runningInfo (Some info) st1)) _
                  (EvConnect (debuggerPort info) (Returned remote)) Hnow)).
        now rewrite Hrun in Hloop.
      - injection Hrun as <- <-. exact Hnow. }
    destruct Hlaunched as (info & proc & Hl). exists info, proc.
    split; [exact Hl | split; [| reflexivity]].
    destruct Hl as (Hinfo & Hproc & _).
    unfold exit, bind, get, emit. now rewrite Hinfo, Hproc.
Qed.

Lemma exit_kills_or_throws_witness :
  exit (new (config [ext_a] false)) [] =
    (Thrown (ErrorObject WebExtError no_instance_message),
     new (config [ext_a] false), []) /\
  exists info proc,
    launched_with info proc
      (run friendly (new (config [ext_a] false)) []).1.2
      (run friendly (new (config [ext_a] false)) []).2 /\
    exit (run friendly (new (config [ext_a] false)) []).1.2
      (run friendly (new (config [ext_a] false)) []).2 =
    (Returned tt, (run friendly (new (config [ext_a] false)) []).1.2,
     (run friendly (new (config [ext_a] false)) []).2 ++ [EvKill proc]) /\
    cleanup_calls [EvKill proc] = [].
Proof.
  split.
  - apply (proj1 (exit_kills_or_throws friendly
                    (new (config [ext_a] false)) [])).
    now left.
  - apply (proj2 (proj2 (exit_kills_or_throws friendly
                           (new (config [ext_a] false)) []))).
    reflexivity.
Defined.

(** C10.  When the temporary install of an extension resolves without an
    addon id (absent or empty), the install loop throws the
    missing-addonId error at once: the runner is as the installs before
    left it, so the directory is not added, and the extensions after it are
    not installed.  For [run()] as a whole: such an install is the last
    thing the run does, and the run throws that error.  And a directory
    whose installs all resolved without an id is not a key of the map. *)
Theorem missing_addonId_aborts (world : collaborators) :
  (forall before ext after s dv id st tr st1 tr1,
     for_of before (install_one world (Some s) dv) st tr =
       (Returned tt, st1, tr1) ->
     installTemporaryAddon world tr1 s (ext_sourceDir ext) dv
       = Returned (Addon id) ->
     missing_id id = true ->
     for_of (before ++ ext :: after) (install_one world (Some s) dv) st tr =
       (Thrown missing_addonId_error, st1,
        tr1 ++ [EvInstallTemporaryAddon s (ext_sourceDir ext) dv
                  (Returned (Addon id))])) /\
  (forall st tr,
     exists new,
       (run world st tr).2 = tr ++ new /\
       forall e,
         In e new -> install_without_id e = true ->
         (run world st tr).1.1 = Thrown missing_addonId_error /\
         exists pre,
           new = pre ++ [e] /\
           Forall (fun e => install_without_id e = false) pre) /\
  (forall p ops dir,
     let st := (perform_all world ops (new p) []).1 in
     let tr := (perform_all world ops (new p) []).2 in
     (forall s dv r,
        In (EvInstallTemporaryAddon s dir dv r) tr ->
        install_without_id (EvInstallTemporaryAddon s dir dv r) = true) ->
     reloadableExtensions st !! dir = None).
Proof.
  split; [| split].
  - intros before ext after s dv id st tr st1 tr1 Hbefore Hres Hid.
    rewrite for_of_app, Hbefore. cbn [for_of]. unfold bind.
    now rewrite (install_one_missing_id world s dv ext id st1 tr1 Hres Hid).
  - intros st tr.
    assert (Hstart : no_missing_id_since tr st tr).
    { exists []. split; [now rewrite app_nil_r | constructor]. }
    pose proof (run_unless world tr st tr Hstart) as Hrun.
    destruct (run world st tr) as [[r st'] tr']. cbn [fst snd].
    destruct Hrun as [(new & -> & Hall) | Hstop].
    + exists new. split; [reflexivity |]. intros e Hin He.
      destruct (Forall_false_In install_without_id new e Hall Hin He).
    + destruct r as [a | v]; [destruct Hstop |].
      destruct Hstop as (-> & pre & e0 & -> & He0 & Hpre).
      exists (pre ++ [e0]). split; [reflexivity |]. intros e Hin He.
      split; [reflexivity |]. exists pre.
      apply in_app_or in Hin as [Hin | [<- | []]].
      * destruct (Forall_false_In install_without_id pre e Hpre Hin He).
      * split; [reflexivity | assumption].
  - intros p ops dir st tr Hall.
    destruct (tracking_perform_all world p ops (new p) [] (tracking_new p))
      as (_ & Hfwd & _).
    fold st tr in Hfwd.
    destruct (reloadableExtensions st !! dir) as [id|] eqn:Hid;
      [| reflexivity].
    destruct (Hfwd dir id Hid) as [Hne (s & dv & Hin)].
    specialize (Hall s dv _ Hin). cbn in Hall.
    apply negb_true_iff, truthy_false_empty in Hall. contradiction.
Qed.

Lemma missing_addonId_aborts_witness :
  for_of ([ext_a] ++ ext_b :: [ext_c])
    (install_one forgetting_id_of_b (Some 1) false)
    (new (config [ext_a; ext_b; ext_c] false)) [] =
  (Thrown missing_addonId_error,
   set_reloadable "/ext/a" "addon@/ext/a"
     (new (config [ext_a; ext_b; ext_c] false)),
   [EvInstallTemporaryAddon 1 "/ext/a" false
      (Returned (Addon (Some "addon@/ext/a")))] ++
   [EvInstallTemporaryAddon 1 (ext_sourceDir ext_b) false
      (Returned (Addon (Some "")))]).
Proof.
  apply (proj1 (missing_addonId_aborts forgetting_id_of_b)); reflexivity.
Defined.

(** C2, as the code has it.  [reloadAllExtensions] reloads every
    configured extension in turn, in the order of the configuration, and
    never throws.  It returns one result.  When no per-extension result
    carries an error that is an [Error], the result has no error; otherwise
    its error is the aggregate whose map has exactly the directories of
    those results as keys, each with such an error of it.  (A rejection
    with a value that is not an [Error] is captured by the per-extension
    reload, and is not counted here.) *)
Theorem reloadAll_aggregates (world : collaborators) (st : state)
    (tr : trace) :
  let dirs := List.map ext_sourceDir (extensions (params st)) in
  let rs := (reload_each world dirs st tr).1 in
  let tr' := (reload_each world dirs st tr).2 in
  let errors := fold_left record_failure (failures rs) ∅ in
  List.map fst rs = dirs /\
  (failures rs = [] ->
   reloadAllExtensions world st tr =
     (Returned [ {| runnerName := getName;
                    sourceDir := None;
                    reloadError := None |} ], st, tr')) /\
  (failures rs <> [] ->
   reloadAllExtensions world st tr =
     (Returned [ {| runnerName := getName;
                    sourceDir := None;
                    reloadError := Some (MultiExtensionsReloadError errors) |} ],
      st, tr')) /\
  (forall dir,
     is_Some (errors !! dir) <-> exists v, In (dir, v) (failures rs)) /\
  (forall dir v, errors !! dir = Some v -> In (dir, v) (failures rs)).
Proof.
  intros dirs rs tr' errors.
  assert (Hall : reloadAllExtensions world st tr =
                 ((if Nat.ltb 0 (size errors)
                   then Returned [ {| runnerName := getName;
                                      sourceDir := None;
                                      reloadError :=
                                        Some (MultiExtensionsReloadError
                                                errors) |} ]
                   else Returned [ {| runnerName := getName;
                                      sourceDir := None;
                                      reloadError := None |} ]),
                  st, tr')).
  { unfold reloadAllExtensions, bind, get.
    rewrite reload_loop_spec. fold dirs rs tr' errors.
    now destruct (Nat.ltb 0 (size errors)). }
  assert (Hdom : forall dir,
    is_Some (errors !! dir) <-> exists v, In (dir, v) (failures rs)).
  { intros dir. split.
    - intros [v Hv]. exists v.
      apply fold_record_lookup in Hv as [Hv | Hv]; [| assumption].
      now rewrite lookup_empty in Hv.
    - intros H. apply fold_record_is_Some. now right. }
  split; [apply reload_each_dirs | split; [| split; [| split]]].
  - intros Hnone. rewrite Hall. unfold errors. now rewrite Hnone.
  - intros Hsome. rewrite Hall.
    assert (Hsize : size errors <> 0).
    { apply map_size_non_empty_iff. intros Hempty.
      destruct (failures rs) as [|[d v] l] eqn:Hf; [congruence |].
      assert (Hd : is_Some (errors !! d)).
      { apply Hdom. exists v. rewrite ?Hf. now left. }
      rewrite Hempty, lookup_empty in Hd. now destruct Hd. }
    destruct (size errors); [congruence | reflexivity].
  - exact Hdom.
  - intros dir v Hv.
    apply fold_record_lookup in Hv as [Hv | Hv]; [| assumption].
    now rewrite lookup_empty in Hv.
Qed.

Lemma reloadAll_aggregates_witness :
  (reloadAllExtensions failing_b
     (perform_all failing_b [OpRun] (new (config [ext_a; ext_b] false)) []).1
     (perform_all failing_b [OpRun] (new (config [ext_a; ext_b] false)) []).2
  ).1.1 =
  Returned
    [ {| runnerName := getName;
         sourceDir := None;
         reloadError :=
           Some (MultiExtensionsReloadError
                   (<["/ext/b" := ErrorObject WebExtError "reload failed"]> ∅))
      |} ] /\
  (reloadAllExtensions friendly
     (perform_all friendly [OpRun] (new (config [ext_a; ext_b] false)) []).1
     (perform_all friendly [OpRun] (new (config [ext_a; ext_b] false)) []).2
  ).1.1 =
  Returned [ {| runnerName := getName;
                sourceDir := None;
                reloadError := None |} ].
Proof.
  split.
  - rewrite (proj1 (proj2 (proj2
               (reloadAll_aggregates failing_b
                  (perform_all failing_b [OpRun]
                     (new (config [ext_a; ext_b] false)) []).1
                  (perform_all failing_b [OpRun]
                     (new (config [ext_a; ext_b] false)) []).2)))).
    + reflexivity.
    + vm_compute. discriminate.
  - rewrite (proj1 (proj2
               (reloadAll_aggregates friendly
                  (perform_all friendly [OpRun]
                     (new (config [ext_a; ext_b] false)) []).1
                  (perform_all friendly [OpRun]
                     (new (config [ext_a; ext_b] false)) []).2))).
    + reflexivity.
    + reflexivity.
Defined.

(** C2 as stated fails: a reload that rejects with a value that is not an
    [Error] fails, its result carries that value as its error, and the
    batch still returns a result without an error. *)
Lemma reloadAll_misses_non_error_rejection :
  (reloadExtensionBySourceDir rejecting_with_a_string "/ext/a"
     (perform_all rejecting_with_a_string [OpRun]
        (new (config [ext_a] false)) []).1
     (perform_all rejecting_with_a_string [OpRun]
        (new (config [ext_a] false)) []).2).1.1 =
  Returned [ {| runnerName := getName;
                sourceDir := Some "/ext/a";
                reloadError := Some (NonError "connection lost") |} ] /\
  (reloadAllExtensions rejecting_with_a_string
     (perform_all rejecting_with_a_string [OpRun]
        (new (config [ext_a] false)) []).1
     (perform_all rejecting_with_a_string [OpRun]
        (new (config [ext_a] false)) []).2).1.1 =
  Returned [ {| runnerName := getName;
                sourceDir := None;
                reloadError := None |} ].
Proof. split; reflexivity. Qed.
End RunnerProperties.

(* ===================================================================== *)
(** ** More on the sub-path predicate and on resolution *)
(* ===================================================================== *)

Module SubPathOrder.
Import JsString JsStringFacts NodePath NodePathFacts FileFilter SubPathFacts.
Import FileFilterFacts.
#[local] Arguments String.append !_ _ / : simpl nomatch.

Lemma strip_common_spec a b :
  exists c,
    a = c ++ (strip_common a b).1 /\ b = c ++ (strip_common a b).2.
Proof.
  revert b. induction a as [|x a IH]; intros b.
  - exists []. now destruct b.
  - destruct b as [|y b]; [now exists [] |]. cbn [strip_common].
    destruct (String.eqb_spec x y) as [-> | Hne]; [| now exists []].
    destruct (IH b) as (c & Ha & Hb). exists (y :: c).
    cbn. now rewrite <- Ha, <- Hb.
Qed.

Section Order.
Variable cwd : string.

(** A sub-path resolves strictly beneath the source. *)
Lemma isSubPath_true_inv D T :
  isSubPath cwd D T = true ->
  exists r, r <> [] /\ resolve_segs cwd [T] = resolve_segs cwd [D] ++ r.
Proof.
  unfold isSubPath, relative.
  destruct (String.eqb D T); [discriminate |].
  destruct (strip_common_spec (resolve_segs cwd [D]) (resolve_segs cwd [T]))
    as (c & HD & HT).
  destruct (strip_common (resolve_segs cwd [D]) (resolve_segs cwd [T]))
    as [up down]. cbn [fst snd] in HD, HT.
  destruct up as [|u up].
  - rewrite app_nil_r in HD. subst c. cbn [length repeat app].
    destruct down as [|d down]; [discriminate |].
    intros _. exists (d :: down). split; [discriminate | assumption].
  - cbn [length repeat app].
    destruct (repeat ".." (length up) ++ down) as [|y l]; [discriminate |].
    change (".." +:+ sep) with "../".
    change (startsWith "../" (join "/" (".." :: y :: l))) with true.
    destruct (negb (truthy (join "/" (".." :: y :: l)))); [discriminate |].
    destruct (String.eqb (join "/" (".." :: y :: l)) ".."); discriminate.
Qed.
End Order.

End SubPathOrder.

(* ===================================================================== *)
(** ** More on glob matching *)
(* ===================================================================== *)

Module GlobMore.
Import JsString JsStringFacts NodePath NodePathFacts Glob GlobFacts.
Import FileFilter FileFilterFacts FilterSpec.
#[local] Arguments String.append !_ _ / : simpl nomatch.

Lemma endsWith_iff suffix s :
  endsWith suffix s = true <-> exists stem, s = stem +:+ suffix.
Proof.
  split.
  - induction s as [|c s IH]; cbn [endsWith]; intros H.
    + rewrite orb_false_r in H. apply String.eqb_eq in H. now exists "".
    + apply orb_true_iff in H as [H | H].
      * apply String.eqb_eq in H. now exists "".
      * destruct (IH H) as [stem ->]. now exists (String c stem).
  - intros [stem ->]. induction stem as [|c stem IH].
    + cbn [String.append]. destruct suffix; cbn [endsWith];
        now rewrite String.eqb_refl.
    + cbn [String.append endsWith]. rewrite IH. apply orb_true_r.
Qed.

(** A pattern without a star matches itself and nothing else. *)
Lemma wild_literal s f :
  has_star s = false -> wild (tokens s) f = String.eqb f s.
Proof.
  unfold has_star. rewrite negb_false_iff.
  revert f. induction s as [|c s IH]; intros f H; cbn [tokens wild].
  - reflexivity.
  - cbn [all_chars] in H. apply andb_true_iff in H as [Hc Hs].
    apply negb_true_iff in Hc. rewrite Hc. cbn [wild].
    destruct f as [|c' f]; [reflexivity |].
    rewrite (IH f Hs). cbn [String.eqb]. now rewrite (Ascii.eqb_sym c c').
Qed.

Lemma wild_star_cons ts c s :
  wild (TStar :: ts) (String c s) = wild ts (String c s) || wild (TStar :: ts) s.
Proof. reflexivity. Qed.

Lemma wild_star_nil ts : wild (TStar :: ts) "" = wild ts "".
Proof. cbn. apply orb_false_r. Qed.

(** A leading star stands for any stem. *)
Lemma wild_star_stem ts stem s :
  wild ts s = true -> wild (TStar :: ts) (stem +:+ s) = true.
Proof.
  intros H. induction stem as [|c stem IH]; cbn [String.append].
  - destruct s; [now rewrite wild_star_nil |].
    rewrite wild_star_cons, H. reflexivity.
  - rewrite wild_star_cons, IH. apply orb_true_r.
Qed.

Lemma wild_star_inv ts s :
  wild (TStar :: ts) s = true ->
  exists stem rest, s = stem +:+ rest /\ wild ts rest = true.
Proof.
  induction s as [|c s IH].
  - rewrite wild_star_nil. intros H. now exists "", "".
  - rewrite wild_star_cons. intros H. apply orb_true_iff in H as [H | H].
    + now exists "", (String c s).
    + destruct (IH H) as (stem & rest & -> & Hrest).
      now exists (String c stem), rest.
Qed.

Lemma matchOne_globstar_cons p rest f file :
  matchOne (Globstar :: p :: rest) (f :: file) =
  matchOne (p :: rest) (f :: file) ||
  (if dotted f then false else matchOne (Globstar :: p :: rest) file).
Proof. destruct file; reflexivity. Qed.

Lemma matchOne_globstar_nil p rest :
  matchOne (Globstar :: p :: rest) [] = false.
Proof. reflexivity. Qed.

(** [**] may stand for any run of visible segments. *)
Lemma matchOne_globstar_skip p rest skipped file :
  Forall (fun seg => visible seg = true) skipped ->
  matchOne (Globstar :: p :: rest) file = true ->
  matchOne (Globstar :: p :: rest) (skipped ++ file) = true.
Proof.
  intros Hall Hm. induction Hall as [|x l Hx _ IH]; [exact Hm |].
  cbn [app]. rewrite matchOne_globstar_cons, (visible_not_dotted x Hx), IH.
  apply orb_true_r.
Qed.

Lemma matchOne_globstar_here p rest f file :
  matchOne (p :: rest) (f :: file) = true ->
  matchOne (Globstar :: p :: rest) (f :: file) = true.
Proof. intros H. now rewrite matchOne_globstar_cons, H. Qed.

Lemma matchOne_head p rest f file :
  p <> Globstar ->
  matchOne (p :: rest) (f :: file) = part_accepts p f && matchOne rest file.
Proof. destruct p; [congruence | reflexivity | reflexivity]. Qed.

(** If [**/p/...] matches, some segment is accepted by [p]. *)
Lemma matchOne_globstar_some p rest file :
  p <> Globstar ->
  matchOne (Globstar :: p :: rest) file = true ->
  Exists (fun f => part_accepts p f = true) file.
Proof.
  intros Hp. induction file as [|f file IH].
  - discriminate.
  - rewrite matchOne_globstar_cons, matchOne_head by assumption.
    intros H. apply orb_true_iff in H as [H | H].
    + apply andb_true_iff in H as [H _]. now apply Exists_cons_hd.
    + destruct (dotted f); [discriminate |]. now apply Exists_cons_tl, IH.
Qed.

(** If [**/p] matches segments none of which is empty, the last one is
    accepted by [p]. *)
Lemma matchOne_globstar_last_accepts p file :
  p <> Globstar ->
  Forall (fun f => f <> "") file ->
  matchOne [Globstar; p] file = true ->
  exists f, last file = Some f /\ part_accepts p f = true.
Proof.
  intros Hp Hall. induction Hall as [|f file Hf Hfile IH].
  - discriminate.
  - rewrite matchOne_globstar_cons, matchOne_head by assumption.
    intros H. apply orb_true_iff in H as [H | H].
    + apply andb_true_iff in H as [Hacc Hrest].
      destruct file as [|g file]; [now exists f |].
      cbn [matchOne] in Hrest. destruct file; [| discriminate].
      inversion Hfile as [|? ? Hg _]; subst.
      apply String.eqb_eq in Hrest. congruence.
    + destruct (dotted f); [discriminate |].
      destruct (IH H) as (g & Hlast & Hacc). exists g. split; [| assumption].
      destruct file; [discriminate | exact Hlast].
Qed.

Section Verdict.
Variable extended_match : string -> string -> bool.

(** [multimatch] on one path is the verdict of the last pattern that
    matches. *)
Lemma multimatch_verdict item patterns :
  multimatch extended_match item patterns =
  if ignored_by extended_match item patterns then [item] else [].
Proof.
  unfold ignored_by.
  induction patterns as [|pattern patterns IH] using rev_ind; [reflexivity |].
  rewrite multimatch_snoc, fold_left_app. cbn [fold_left].
  pose proof (multimatch_at_most_item extended_match item patterns) as Hres.
  unfold minimatch_match.
  destruct (charAt0_is "!" pattern).
  - destruct (minimatch extended_match item (substr1 pattern)).
    + now apply difference_item.
    + now rewrite difference_nil.
  - destruct (minimatch extended_match item pattern).
    + now apply union_item.
    + now rewrite union_nil.
Qed.

Lemma ignored_by_plain item patterns :
  Forall (fun p => charAt0_is "!"%char p = false) patterns ->
  ignored_by extended_match item patterns =
  existsb (minimatch extended_match item) patterns.
Proof.
  unfold ignored_by. intros Hall.
  assert (Hgen : forall acc,
    fold_left
      (fun verdict pattern =>
         if charAt0_is "!" pattern
         then (if minimatch extended_match item (substr1 pattern)
               then false else verdict)
         else (if minimatch extended_match item pattern
               then true else verdict))
      patterns acc =
    acc || existsb (minimatch extended_match item) patterns).
  { induction Hall as [|p l Hp _ IH]; intros acc; cbn [fold_left existsb].
    - now rewrite orb_false_r.
    - rewrite Hp, IH.
      destruct (minimatch extended_match item p); cbn;
        [now rewrite orb_true_r | reflexivity]. }
  apply Hgen.
Qed.
End Verdict.

End GlobMore.

(* ===================================================================== *)
(** ** The default patterns *)
(* ===================================================================== *)

Module DefaultPatterns.
Import JsString JsStringFacts NodePath NodePathFacts Glob GlobFacts.
Import FileFilter FileFilterFacts FilterSpec GlobMore.
#[local] Arguments String.append !_ _ / : simpl nomatch.

Section Defaults.
Variable cwd : string.
Variable extended_match : string -> string -> bool.

(** The entry of a relative, plain pattern: the source directory and the
    segments of the pattern. *)
Lemma ignore_entry_relative src rel :
  rel <> "" -> isAbsolute rel = false -> charAt0_is "!"%char rel = false ->
  Forall (fun seg => seg <> "..") (split slash rel) ->
  ignore_entry cwd (resolve cwd [src]) rel =
  render (resolve_segs cwd [src] ++ List.filter ordinary (split slash rel)).
Proof.
  intros Hne Habs Hplain Hdd. unfold ignore_entry. rewrite Hplain.
  unfold resolve at 1. change (resolve cwd [src]) with (render (resolve_segs cwd [src])).
  rewrite resolve_segs_relative, fold_norm_no_dotdot;
    auto using resolve_segs_clean.
Qed.

Lemma default_entries src :
  List.map (ignore_entry cwd (resolve cwd [src])) defaultBaseIgnoredPatterns =
  List.map (fun segs => render (resolve_segs cwd [src] ++ segs))
    default_segments.
Proof.
  unfold defaultBaseIgnoredPatterns, default_segments. cbn [List.map].
  rewrite !ignore_entry_relative;
    try reflexivity; try discriminate;
    repeat constructor; discriminate.
Qed.

Lemma ignore_entry_plain src file :
  charAt0_is "!"%char file = false ->
  charAt0_is "!"%char (ignore_entry cwd src file) = false.
Proof. intros H. unfold ignore_entry. now rewrite H. Qed.

(** Matching a path beneath the source directory against a pattern written
    beneath it: the segments below are matched with the parts below. *)
Lemma minimatch_beneath S r segs :
  Forall (fun seg => glob_free seg = true) S ->
  clean (S ++ r) -> r <> [] -> segs <> [] ->
  Forall (fun x => solid x = true) segs ->
  Forall (fun seg => all_chars (fun c => negb (extended_meta c)) seg = true)
    segs ->
  (forall x, last segs = Some x -> x <> "" /\ trimEnd x = x) ->
  minimatch extended_match (render (S ++ r)) (render (S ++ segs)) =
  matchOne (List.map parse_part segs) r.
Proof.
  intros Hfree Hc Hr Hsegs Hns Hplain Hlast.
  assert (HcS : clean S) by now apply Forall_app in Hc as [Hc _].
  rewrite minimatch_render.
  - rewrite map_app, map_parse_part_glob_free by assumption.
    apply matchOne_literal_prefix.
  - destruct S, r; try discriminate. congruence.
  - destruct S, segs; try discriminate. congruence.
  - now apply clean_solid.
  - apply Forall_app. split; [now apply clean_solid | assumption].
  - apply Forall_app. split; [| assumption].
    revert Hfree. apply List.Forall_impl. intros seg. apply glob_free_plain.
  - destruct (last segs) as [x|] eqn:Hx; [| now apply last_None in Hx].
    destruct (Hlast x eq_refl) as [Hne Hfix].
    apply last_Some in Hx as [pre ->]. rewrite app_assoc.
    now apply trim_render_snoc.
Qed.

Lemma default_segments_fine :
  Forall (fun segs =>
            segs <> [] /\
            Forall (fun x => solid x = true) segs /\
            Forall (fun seg =>
                      all_chars (fun c => negb (extended_meta c)) seg = true)
              segs /\
            forall x, last segs = Some x -> x <> "" /\ trimEnd x = x)
    default_segments.
Proof.
  repeat (constructor;
          [split; [discriminate |];
           split; [now repeat constructor |];
           split; [now repeat constructor |];
           intros x H; cbn in H; injection H as <-;
           split; [discriminate | reflexivity] |]).
  constructor.
Qed.

(** Against the default entries, only the segments below the source
    directory count. *)
Lemma existsb_default_entries src r :
  Forall (fun seg => glob_free seg = true) (resolve_segs cwd [src]) ->
  clean (resolve_segs cwd [src] ++ r) -> r <> [] ->
  existsb (minimatch extended_match (render (resolve_segs cwd [src] ++ r)))
    (List.map (ignore_entry cwd (resolve cwd [src]))
       defaultBaseIgnoredPatterns) =
  existsb (fun parts => matchOne parts r) default_parts.
Proof.
  intros Hfree Hc Hr. rewrite default_entries. unfold default_parts.
  pose proof default_segments_fine as Hfine.
  induction Hfine as [|segs l (H1 & H2 & H3 & H4) _ IH]; [reflexivity |].
  cbn [List.map existsb]. rewrite IH.
  now rewrite minimatch_beneath.
Qed.

(** With the default patterns, plain additional patterns and any artifacts
    directory, a path that a default pattern matches is not wanted. *)
Lemma wantFile_default_match ignore src art file r parts :
  Forall (fun p => charAt0_is "!"%char p = false) (default [] ignore) ->
  Forall (fun seg => glob_free seg = true) (resolve_segs cwd [src]) ->
  segmentsWithSourceDir cwd (new cwd None ignore src art) file =
    resolve_segs cwd [src] ++ r ->
  r <> [] ->
  In parts default_parts -> matchOne parts r = true ->
  wantFile cwd extended_match (new cwd None ignore src art) file = false.
Proof.
  intros Hplain Hfree Hsegs Hr Hin Hm.
  apply wantFile_ignored_iff. rewrite multimatch_verdict.
  assert (Hc : clean (resolve_segs cwd [src] ++ r)).
  { rewrite <- Hsegs. apply resolve_segs_clean. }
  assert (Hfile : resolveWithSourceDir cwd (new cwd None ignore src art) file =
                  render (resolve_segs cwd [src] ++ r)).
  { unfold resolveWithSourceDir, resolve.
    unfold segmentsWithSourceDir in Hsegs. now rewrite Hsegs. }
  rewrite Hfile, new_spec. cbv zeta. cbn [filesToIgnore default].
  rewrite ignored_by_plain.
  - rewrite existsb_app, existsb_default_entries by assumption.
    assert (Hex : existsb (fun parts => matchOne parts r) default_parts = true).
    { apply existsb_exists. now exists parts. }
    rewrite Hex. discriminate.
  - repeat (apply Forall_app; split).
    + apply List.Forall_map. cbn [from_option].
      repeat (constructor; [now apply ignore_entry_plain |]). constructor.
    + apply List.Forall_map. revert Hplain. apply List.Forall_impl.
      intros p. apply ignore_entry_plain.
    + destruct art as [a|]; [| constructor].
      destruct (truthy a && isSubPath cwd (resolve cwd [src]) a);
        repeat constructor.
Qed.

(** With the default patterns alone, a path is wanted exactly when no
    default pattern matches its segments below the source directory. *)
Lemma wantFile_defaults_only src file r :
  Forall (fun seg => glob_free seg = true) (resolve_segs cwd [src]) ->
  segmentsWithSourceDir cwd (new cwd None None src None) file =
    resolve_segs cwd [src] ++ r ->
  r <> [] ->
  wantFile cwd extended_match (new cwd None None src None) file =
  negb (existsb (fun parts => matchOne parts r) default_parts).
Proof.
  intros Hfree Hsegs Hr.
  assert (Hc : clean (resolve_segs cwd [src] ++ r)).
  { rewrite <- Hsegs. apply resolve_segs_clean. }
  assert (Hfile : resolveWithSourceDir cwd (new cwd None None src None) file =
                  render (resolve_segs cwd [src] ++ r)).
  { unfold resolveWithSourceDir, resolve.
    unfold segmentsWithSourceDir in Hsegs. now rewrite Hsegs. }
  unfold wantFile. rewrite multimatch_verdict, Hfile, new_spec. cbv zeta.
  cbn [filesToIgnore default List.map]. rewrite !app_nil_r.
  rewrite ignored_by_plain.
  - rewrite existsb_default_entries by assumption.
    now destruct (existsb (fun parts => matchOne parts r) default_parts).
  - apply List.Forall_map.
    repeat (constructor; [now apply ignore_entry_plain |]). constructor.
Qed.
End Defaults.

Lemma dotted_accepts f :
  dotted f = true -> magic_match (tokens ".*") f = true.
Proof.
  destruct f as [|c f]; [discriminate |]. cbn [dotted charAt0_is].
  intros H. apply Ascii.eqb_eq in H. subst c.
  unfold magic_match. cbn [tokens]. cbn [wild Ascii.eqb].
  change (wild [TStar] f) with (wild [TStar] f). rewrite wild_star.
  reflexivity.
Qed.

Lemma dotted_accepts_inv f :
  magic_match (tokens ".*") f = true -> dotted f = true.
Proof.
  unfold magic_match. destruct f as [|c f]; [discriminate |].
  intros H. apply andb_true_iff in H as [_ H]. cbn [tokens wild] in H.
  change (Ascii.eqb "." star) with false in H. cbn iota in H.
  apply andb_true_iff in H as [H _]. cbn [dotted charAt0_is].
  now rewrite Ascii.eqb_sym.
Qed.

(** [*.ext] accepts the visible names that do not begin with a line
    terminator and end with [.ext]. *)
Lemma extension_accepts ext f :
  has_star ext = false -> star_visible f = true -> endsWith ext f = true ->
  magic_match (TStar :: tokens ext) f = true.
Proof.
  intros Hext Hvis Hend. apply endsWith_iff in Hend as [stem ->].
  unfold magic_match. unfold star_visible in Hvis. rewrite Hvis.
  apply wild_star_stem. rewrite wild_literal by assumption.
  apply String.eqb_refl.
Qed.

Lemma visible_star_visible f :
  visible f = true -> line_start f = false -> star_visible f = true.
Proof.
  unfold visible, star_visible. intros H Hline.
  apply andb_true_iff in H as [Hne Hdot]. rewrite Hdot, andb_true_r.
  apply lookahead_any_line_start; [| assumption].
  intros ->. discriminate.
Qed.

(** [**/*] stands for a non-empty run of visible segments whose last does
    not begin with a line terminator. *)
Lemma matchOne_globstar_star_last r :
  r <> [] -> Forall (fun seg => visible seg = true) r ->
  (forall name, last r = Some name -> line_start name = false) ->
  matchOne [Globstar; Magic [TStar]] r = true.
Proof.
  intros Hr Hvis Hline.
  destruct (last r) as [name|] eqn:Hlast; [| now apply last_None in Hlast].
  apply (matchOne_globstar_star r name); [assumption | assumption |].
  apply visible_star_visible; [| now apply Hline].
  apply (proj1 (Forall_forall _ _) Hvis).
  now apply last_Some_elem_of.
Qed.

Lemma extension_accepts_inv ext f :
  has_star ext = false ->
  magic_match (TStar :: tokens ext) f = true -> endsWith ext f = true.
Proof.
  intros Hext H. unfold magic_match in H.
  apply andb_true_iff in H as [_ H].
  apply wild_star_inv in H as (stem & rest & -> & Hrest).
  rewrite wild_literal in Hrest by assumption.
  apply String.eqb_eq in Hrest. subst rest. apply endsWith_iff. now exists stem.
Qed.

End DefaultPatterns.

(* ===================================================================== *)
(** ** Further properties of the file filter *)
(* ===================================================================== *)

Module FileFilterExtras.
Import JsString JsStringFacts NodePath NodePathFacts Glob GlobFacts.
Import FileFilter SubPathFacts FileFilterFacts FilterSpec SubPathOrder.
Import GlobMore DefaultPatterns.
#[local] Arguments String.append !_ _ / : simpl nomatch.

(** X1.  [isSubPath(src, target)] holds exactly when the target resolves to
    a path strictly beneath the one the source resolves to. *)
Theorem isSubPath_iff_strictly_beneath (cwd D T : string) :
  isSubPath cwd D T = true <->
  exists r, r <> [] /\ resolve_segs cwd [T] = resolve_segs cwd [D] ++ r.
Proof.
  split.
  - apply isSubPath_true_inv.
  - intros (r & Hr & HT). now apply (isSubPath_beneath cwd D T r).
Qed.

Lemma isSubPath_iff_strictly_beneath_witness :
  isSubPath "/work" "/ext" "/ext/lib/a.js" = true.
Proof.
  apply (proj2 (isSubPath_iff_strictly_beneath "/work" "/ext"
                  "/ext/lib/a.js")).
  exists ["lib"; "a.js"]. split; [discriminate | reflexivity].
Defined.

(** X2.  [isSubPath] is a strict order on directories: it never holds both
    ways, and a sub-path of a sub-path is a sub-path. *)
Theorem isSubPath_strict_order (cwd D T U : string) :
  (isSubPath cwd D T = true -> isSubPath cwd T D = false) /\
  (isSubPath cwd D T = true -> isSubPath cwd T U = true ->
   isSubPath cwd D U = true).
Proof.
  split.
  - intros H. apply isSubPath_true_inv in H as (r & _ & HT).
    now apply (isSubPath_above cwd T D r).
  - intros H1 H2.
    apply isSubPath_true_inv in H1 as (r1 & Hr1 & HT).
    apply isSubPath_true_inv in H2 as (r2 & Hr2 & HU).
    apply (isSubPath_beneath cwd D U (r1 ++ r2)).
    + now rewrite HU, HT, app_assoc.
    + destruct r1; [congruence | discriminate].
Qed.

Lemma isSubPath_strict_order_witness :
  isSubPath "/home/dev" "/proj/out" "/proj" = false /\
  isSubPath "/home/dev" "/proj" "/proj/out/build" = true.
Proof.
  split.
  - apply (isSubPath_strict_order "/home/dev" "/proj" "/proj/out" "/proj").
    reflexivity.
  - apply (isSubPath_strict_order "/home/dev" "/proj" "/proj/out"
             "/proj/out/build"); reflexivity.
Defined.

(** X3.  Resolving against the source directory is idempotent, [wantFile]
    answers the same for a path and for its resolved form, and an absolute
    path is resolved without regard to the source directory. *)
Theorem resolveWithSourceDir_idempotent (cwd : string)
    (extended_match : string -> string -> bool) (this : t) (file : string) :
  resolveWithSourceDir cwd this (resolveWithSourceDir cwd this file) =
    resolveWithSourceDir cwd this file /\
  wantFile cwd extended_match this (resolveWithSourceDir cwd this file) =
    wantFile cwd extended_match this file /\
  (isAbsolute file = true ->
   resolveWithSourceDir cwd this file = resolve cwd [file]).
Proof.
  assert (Hidem :
    resolveWithSourceDir cwd this (resolveWithSourceDir cwd this file) =
    resolveWithSourceDir cwd this file).
  { unfold resolveWithSourceDir at 1 3. unfold resolveWithSourceDir, resolve at 2.
    apply resolve_absolute, resolve_segs_clean. }
  split; [exact Hidem | split].
  - unfold wantFile. now rewrite Hidem.
  - intros Habs. unfold resolveWithSourceDir, resolve, resolve_segs.
    assert (Hne : file <> "") by (destruct file; [discriminate | congruence]).
    change (rev [sourceDir this; file]) with [file; sourceDir this].
    change (rev [file]) with [file].
    now rewrite !resolve_scan_absolute.
Qed.

Lemma resolveWithSourceDir_idempotent_witness :
  resolveWithSourceDir "/home/dev"
    (new "/home/dev" None None "/proj" None) "/tmp/x/../y.js" =
  resolve "/home/dev" ["/tmp/x/../y.js"].
Proof.
  apply (resolveWithSourceDir_idempotent "/home/dev" (fun _ _ => false)).
  reflexivity.
Defined.

Lemma ignore_entry_is_absolute cwd src file :
  absolute_entry (ignore_entry cwd src file) = true.
Proof.
  unfold ignore_entry. destruct (charAt0_is "!" file); reflexivity.
Qed.

(** X4.  Every entry of [filesToIgnore] is an absolute path, or [!] and an
    absolute path, for a filter as constructed and after any later calls of
    [addToIgnoreList]; the source directory stays the resolved one. *)
Theorem filesToIgnore_absolute (cwd : string)
    (base ignore : option (list string)) (src : string)
    (art : option string) (more : list (list string)) :
  let filter :=
    fold_left (addToIgnoreList cwd) more (new cwd base ignore src art) in
  Forall (fun e => absolute_entry e = true) (filesToIgnore filter) /\
  sourceDir filter = resolve cwd [src].
Proof.
  cbv zeta.
  assert (Hnew :
    Forall (fun e => absolute_entry e = true)
      (filesToIgnore (new cwd base ignore src art)) /\
    sourceDir (new cwd base ignore src art) = resolve cwd [src]).
  { rewrite new_spec. cbv zeta. cbn [filesToIgnore sourceDir].
    split; [| reflexivity].
    repeat (apply Forall_app; split).
    - apply List.Forall_map, Forall_forall. intros. apply ignore_entry_is_absolute.
    - apply List.Forall_map, Forall_forall. intros. apply ignore_entry_is_absolute.
    - destruct art as [a|]; [| constructor].
      destruct (truthy a && isSubPath cwd (resolve cwd [src]) a);
        repeat constructor. }
  revert Hnew. generalize (new cwd base ignore src art).
  induction more as [|files more IH]; intros this [Hall Hsrc];
    cbn [fold_left]; [now split |].
  apply IH. rewrite addToIgnoreList_spec. cbn [filesToIgnore sourceDir].
  split; [| assumption].
  apply Forall_app. split; [assumption |].
  apply List.Forall_map, Forall_forall. intros. apply ignore_entry_is_absolute.
Qed.

(** X5.  [wantFile] is decided by the last pattern that matches the
    resolved path: it is false when that pattern is plain, true when it is
    negated or when no pattern matches. *)
Theorem wantFile_last_match_decides (cwd : string)
    (extended_match : string -> string -> bool) (this : t) (file : string) :
  wantFile cwd extended_match this file =
  negb (ignored_by extended_match (resolveWithSourceDir cwd this file)
          (filesToIgnore this)).
Proof.
  unfold wantFile. rewrite multimatch_verdict.
  now destruct (ignored_by extended_match (resolveWithSourceDir cwd this file)
                  (filesToIgnore this)).
Qed.

(** X6.  For a source directory without glob syntax in its resolved path:
    with the default patterns, whatever plain patterns and artifacts
    directory are added, a hidden file or directory below visible
    directories is not wanted, and neither is anything visible inside it
    whose name does not begin with a line terminator. *)
Theorem hidden_paths_excluded (cwd : string)
    (extended_match : string -> string -> bool)
    (ignore : option (list string)) (src : string) (art : option string)
    (file : string) (above : list string) (hidden : string)
    (inside : list string) :
  Forall (fun p => charAt0_is "!"%char p = false) (default [] ignore) ->
  Forall (fun seg => glob_free seg = true) (resolve_segs cwd [src]) ->
  segmentsWithSourceDir cwd (new cwd None ignore src art) file =
    resolve_segs cwd [src] ++ above ++ hidden :: inside ->
  Forall (fun seg => visible seg = true) above ->
  dotted hidden = true ->
  Forall (fun seg => visible seg = true) inside ->
  (forall name, last inside = Some name -> line_start name = false) ->
  wantFile cwd extended_match (new cwd None ignore src art) file = false.
Proof.
  intros Hplain Hfree Hsegs Habove Hhidden Hinside Hline.
  destruct inside as [|x inside].
  - apply (wantFile_default_match cwd extended_match ignore src art file
             (above ++ [hidden]) [Globstar; Magic (tokens ".*")]);
      try assumption.
    + destruct above; discriminate.
    + do 2 right. now left.
    + apply matchOne_globstar_skip; [assumption |].
      apply matchOne_globstar_here. cbn [matchOne].
      now rewrite dotted_accepts.
  - apply (wantFile_default_match cwd extended_match ignore src art file
             (above ++ hidden :: x :: inside)
             [Globstar; Magic (tokens ".*"); Globstar; Magic (tokens "*")]);
      try assumption.
    + destruct above; discriminate.
    + do 3 right. now left.
    + apply matchOne_globstar_skip; [assumption |].
      apply matchOne_globstar_here.
      rewrite matchOne_head by discriminate.
      cbn [part_accepts]. rewrite dotted_accepts by assumption.
      apply matchOne_globstar_star_last;
        [discriminate | assumption | assumption].
Qed.

Lemma hidden_paths_excluded_witness :
  wantFile "/home/dev" (fun _ _ => false)
    (new "/home/dev" None None "/proj" None) "src/.hidden/file.js" = false.
Proof.
  apply (hidden_paths_excluded "/home/dev" (fun _ _ => false) None "/proj"
           None "src/.hidden/file.js" ["src"] ".hidden" ["file.js"]).
  - constructor.
  - repeat constructor.
  - reflexivity.
  - repeat constructor.
  - reflexivity.
  - repeat constructor.
  - intros name [= <-]. reflexivity.
Defined.

(** X7.  For a source directory without glob syntax in its resolved path:
    with the default patterns, whatever plain patterns and artifacts
    directory are added, a [node_modules] directory below visible
    directories is not wanted, and neither is anything visible inside it
    whose name does not begin with a line terminator. *)
Theorem node_modules_excluded (cwd : string)
    (extended_match : string -> string -> bool)
    (ignore : option (list string)) (src : string) (art : option string)
    (file : string) (above inside : list string) :
  Forall (fun p => charAt0_is "!"%char p = false) (default [] ignore) ->
  Forall (fun seg => glob_free seg = true) (resolve_segs cwd [src]) ->
  segmentsWithSourceDir cwd (new cwd None ignore src art) file =
    resolve_segs cwd [src] ++ above ++ "node_modules" :: inside ->
  Forall (fun seg => visible seg = true) above ->
  Forall (fun seg => visible seg = true) inside ->
  (forall name, last inside = Some name -> line_start name = false) ->
  wantFile cwd extended_match (new cwd None ignore src art) file = false.
Proof.
  intros Hplain Hfree Hsegs Habove Hinside Hline.
  destruct inside as [|x inside].
  - apply (wantFile_default_match cwd extended_match ignore src art file
             (above ++ ["node_modules"]) [Globstar; Literal "node_modules"]);
      try assumption.
    + destruct above; discriminate.
    + do 4 right. now left.
    + apply matchOne_globstar_skip; [assumption | reflexivity].
  - apply (wantFile_default_match cwd extended_match ignore src art file
             (above ++ "node_modules" :: x :: inside)
             [Globstar; Literal "node_modules"; Globstar;
              Magic (tokens "*")]);
      try assumption.
    + destruct above; discriminate.
    + do 5 right. now left.
    + apply matchOne_globstar_skip; [assumption |].
      apply matchOne_globstar_here.
      rewrite matchOne_head by discriminate. cbn [part_accepts String.eqb].
      apply matchOne_globstar_star_last;
        [discriminate | assumption | assumption].
Qed.

Lemma node_modules_excluded_witness :
  wantFile "/home/dev" (fun _ _ => false)
    (new "/home/dev" None None "/proj" None) "src/node_modules/pkg/index.js"
  = false.
Proof.
  apply (node_modules_excluded "/home/dev" (fun _ _ => false) None "/proj"
           None "src/node_modules/pkg/index.js" ["src"] ["pkg"; "index.js"]).
  - constructor.
  - repeat constructor.
  - reflexivity.
  - repeat constructor.
  - repeat constructor.
  - intros name [= <-]. reflexivity.
Defined.

(** X8.  For a source directory without glob syntax in its resolved path:
    with the default patterns, whatever plain patterns and artifacts
    directory are added, a visible file below visible directories whose
    name ends with [.xpi] or [.zip], and does not begin with a line
    terminator, is not wanted. *)
Theorem archives_excluded (cwd : string)
    (extended_match : string -> string -> bool)
    (ignore : option (list string)) (src : string) (art : option string)
    (file : string) (above : list string) (name : string) :
  Forall (fun p => charAt0_is "!"%char p = false) (default [] ignore) ->
  Forall (fun seg => glob_free seg = true) (resolve_segs cwd [src]) ->
  segmentsWithSourceDir cwd (new cwd None ignore src art) file =
    resolve_segs cwd [src] ++ above ++ [name] ->
  Forall (fun seg => visible seg = true) above ->
  visible name = true ->
  line_start name = false ->
  endsWith ".xpi" name || endsWith ".zip" name = true ->
  wantFile cwd extended_match (new cwd None ignore src art) file = false.
Proof.
  intros Hplain Hfree Hsegs Habove Hvisible Hline Hext.
  pose proof (visible_star_visible name Hvisible Hline) as Hname.
  apply orb_true_iff in Hext as [Hext | Hext].
  - apply (wantFile_default_match cwd extended_match ignore src art file
             (above ++ [name]) [Globstar; Magic (tokens "*.xpi")]);
      try assumption.
    + destruct above; discriminate.
    + now left.
    + apply matchOne_globstar_skip; [assumption |].
      apply matchOne_globstar_here. cbn [matchOne].
      change (tokens "*.xpi") with (TStar :: tokens ".xpi").
      rewrite (extension_accepts ".xpi" name eq_refl Hname Hext). reflexivity.
  - apply (wantFile_default_match cwd extended_match ignore src art file
             (above ++ [name]) [Globstar; Magic (tokens "*.zip")]);
      try assumption.
    + destruct above; discriminate.
    + right. now left.
    + apply matchOne_globstar_skip; [assumption |].
      apply matchOne_globstar_here. cbn [matchOne].
      change (tokens "*.zip") with (TStar :: tokens ".zip").
      rewrite (extension_accepts ".zip" name eq_refl Hname Hext). reflexivity.
Qed.

Lemma archives_excluded_witness :
  wantFile "/home/dev" (fun _ _ => false)
    (new "/home/dev" None (Some ["docs/**"]) "/proj" None)
    "web-ext-artifacts/my-ext-1.0.zip" = false.
Proof.
  apply (archives_excluded "/home/dev" (fun _ _ => false) (Some ["docs/**"])
           "/proj" None "web-ext-artifacts/my-ext-1.0.zip"
           ["web-ext-artifacts"] "my-ext-1.0.zip").
  - repeat constructor.
  - repeat constructor.
  - reflexivity.
  - repeat constructor.
  - reflexivity.
  - reflexivity.
  - reflexivity.
Defined.

(** X9.  For a source directory without glob syntax in its resolved path:
    with the default patterns alone, a path below the source directory is
    wanted when all its segments below it are visible, none is
    [node_modules], and its name ends neither with [.xpi] nor with
    [.zip]. *)
Theorem ordinary_files_wanted (cwd : string)
    (extended_match : string -> string -> bool) (src file : string)
    (below : list string) (name : string) :
  Forall (fun seg => glob_free seg = true) (resolve_segs cwd [src]) ->
  segmentsWithSourceDir cwd (new cwd None None src None) file =
    resolve_segs cwd [src] ++ below ->
  last below = Some name ->
  Forall (fun seg => visible seg = true) below ->
  Forall (fun seg => seg <> "node_modules") below ->
  endsWith ".xpi" name = false -> endsWith ".zip" name = false ->
  wantFile cwd extended_match (new cwd None None src None) file = true.
Proof.
  intros Hfree Hsegs Hlast Hvis Hnm Hxpi Hzip.
  assert (Hne : below <> []) by (intros ->; discriminate).
  rewrite (wantFile_defaults_only cwd extended_match src file below)
    by assumption.
  apply negb_true_iff.
  assert (Hnonempty : Forall (fun f => f <> "") below).
  { revert Hvis. apply List.Forall_impl. intros f Hf ->. discriminate. }
  assert (Hext : forall ext,
    has_star ext = false -> endsWith ext name = false ->
    matchOne [Globstar; Magic (TStar :: tokens ext)] below = false).
  { intros ext Hstar Hend.
    destruct (matchOne [Globstar; Magic (TStar :: tokens ext)] below) eqn:Hm;
      [| reflexivity].
    apply matchOne_globstar_last_accepts in Hm as (f & Hf & Hacc);
      [| discriminate | assumption].
    rewrite Hlast in Hf. injection Hf as <-.
    apply extension_accepts_inv in Hacc; [congruence | assumption]. }
  assert (Hdot : forall rest,
    matchOne (Globstar :: Magic (tokens ".*") :: rest) below = false).
  { intros rest.
    destruct (matchOne (Globstar :: Magic (tokens ".*") :: rest) below) eqn:Hm;
      [| reflexivity].
    apply matchOne_globstar_some in Hm; [| discriminate].
    apply Exists_exists in Hm as (f & Hin & Hacc).
    apply dotted_accepts_inv in Hacc.
    rewrite Forall_forall in Hvis.
    pose proof (visible_not_dotted f (Hvis f Hin)). congruence. }
  assert (Hmod : forall rest,
    matchOne (Globstar :: Literal "node_modules" :: rest) below = false).
  { intros rest.
    destruct (matchOne (Globstar :: Literal "node_modules" :: rest) below)
      eqn:Hm; [| reflexivity].
    apply matchOne_globstar_some in Hm; [| discriminate].
    apply Exists_exists in Hm as (f & Hin & Hacc).
    apply String.eqb_eq in Hacc. rewrite Forall_forall in Hnm.
    now destruct (Hnm f Hin). }
  change default_parts with
    [ [Globstar; Magic (TStar :: tokens ".xpi")];
      [Globstar; Magic (TStar :: tokens ".zip")];
      [Globstar; Magic (tokens ".*")];
      [Globstar; Magic (tokens ".*"); Globstar; Magic (tokens "*")];
      [Globstar; Literal "node_modules"];
      [Globstar; Literal "node_modules"; Globstar; Magic (tokens "*")] ].
  cbn [existsb].
  now rewrite (Hext ".xpi" eq_refl Hxpi), (Hext ".zip" eq_refl Hzip),
    !Hdot, !Hmod.
Qed.

Lemma ordinary_files_wanted_witness :
  wantFile "/home/dev" (fun _ _ => false)
    (new "/home/dev" None None "/proj" None) "src/background.js" = true.
Proof.
  apply (ordinary_files_wanted "/home/dev" (fun _ _ => false) "/proj"
           "src/background.js" ["src"; "background.js"] "background.js").
  - repeat constructor.
  - reflexivity.
  - reflexivity.
  - repeat constructor.
  - repeat constructor; discriminate.
  - reflexivity.
  - reflexivity.
Defined.

End FileFilterExtras.

(* ===================================================================== *)
(** ** More on the methods of the runner *)
(* ===================================================================== *)

Module RunnerMore.
Import Runner RunnerSpec RunnerLogic RunnerMoreSpec.
Import TrackingFacts InstallFacts CleanupFacts ReloadFacts.
Local Open Scope runner_scope.

Section Setup.
Variable world : collaborators.

Lemma proxy_loop_spec exts st tr :
  for_of exts
    (fun extension =>
       await (fun tr => installExtension world tr (ext_sourceDir extension))
         (EvInstallExtension true (ext_sourceDir extension))) st tr =
  ((proxy_loop world (List.map ext_sourceDir exts) tr).1, st,
   tr ++ (proxy_loop world (List.map ext_sourceDir exts) tr).2).
Proof.
  revert tr. induction exts as [|ext exts IH]; intros tr;
    cbn [for_of List.map proxy_loop].
  - unfold ret. cbn. now rewrite app_nil_r.
  - unfold bind at 1, await.
    destruct (installExtension world tr (ext_sourceDir ext)) as [[] | v];
      [| reflexivity].
    rewrite IH.
    destruct (proxy_loop world (List.map ext_sourceDir exts)
                (tr ++ [EvInstallExtension true (ext_sourceDir ext)
                          (Returned tt)])) as [r es].
    cbn [fst snd]. now rewrite <- app_assoc.
Qed.

(** What [setupProfileDir] does, step by step. *)
Lemma setupProfileDir_spec st tr :
  setupProfileDir world st tr =
  let mode := profile_mode_of (params st) in
  let tr1 := tr ++ [EvLogDebug (profile_log mode)] in
  let r := profile_request world mode tr1 in
  let tr2 := tr1 ++ [profile_event mode r] in
  match r with
  | Thrown v => (Thrown v, st, tr2)
  | Returned h =>
      if preInstall (params st) then
        ((proxy_loop world (List.map ext_sourceDir (extensions (params st)))
            tr2).1,
         set_profile h st,
         tr2 ++
         (proxy_loop world (List.map ext_sourceDir (extensions (params st)))
            tr2).2)
      else (Returned tt, set_profile h st, tr2)
  end.
Proof.
  unfold setupProfileDir. unfold bind at 1, get. unfold bind at 1.
  assert (Hfirst :
    (match profilePath (params st) with
     | Some path =>
         if JsString.truthy path then
           if keepProfileChanges (params st) then
             emit (EvLogDebug (UsingProfile path)) ;;;
             let* h := await (fun tr => useProfile world tr path)
                         (EvUseProfile path) in
             modify (set_profile h)
           else
             emit (EvLogDebug (CopyingProfile path)) ;;;
             let* h := await (fun tr => copyProfile world tr path)
                         (EvCopyProfile path) in
             modify (set_profile h)
         else
           emit (EvLogDebug CreatingProfile) ;;;
           let* h := await (createProfile world) EvCreateProfile in
           modify (set_profile h)
     | None =>
         emit (EvLogDebug CreatingProfile) ;;;
         let* h := await (createProfile world) EvCreateProfile in
         modify (set_profile h)
     end) st tr =
    let mode := profile_mode_of (params st) in
    let tr1 := tr ++ [EvLogDebug (profile_log mode)] in
    let r := profile_request world mode tr1 in
    let tr2 := tr1 ++ [profile_event mode r] in
    match r with
    | Thrown v => (Thrown v, st, tr2)
    | Returned h => (Returned tt, set_profile h st, tr2)
    end).
  { unfold profile_mode_of.
    destruct (profilePath (params st)) as [path|];
      [destruct (JsString.truthy path);
       [destruct (keepProfileChanges (params st)) |] |];
      cbv [bind emit await modify profile_log profile_request profile_event];
      match goal with
      | |- context [match ?x with Returned _ => _ | Thrown _ => _ end] =>
          destruct x; reflexivity
      end. }
  rewrite Hfirst. cbv zeta.
  destruct (profile_request world (profile_mode_of (params st))
              (tr ++ [EvLogDebug (profile_log (profile_mode_of (params st)))]))
    as [h | v]; [| reflexivity].
  change (params (set_profile h st)) with (params st).
  destruct (preInstall (params st)); [| reflexivity].
  apply proxy_loop_spec.
Qed.

Lemma proxy_loop_resolved dirs tr :
  proxies_resolve world dirs tr = true ->
  proxy_loop world dirs tr = (Returned tt, resolved_proxies dirs).
Proof.
  revert tr. induction dirs as [|dir dirs IH]; intros tr;
    cbn [proxy_loop proxies_resolve]; [reflexivity |].
  destruct (installExtension world tr dir) as [[] | v]; [| discriminate].
  intros H. now rewrite (IH _ H).
Qed.

(** The first proxy install that is rejected ends the loop. *)
Lemma proxy_loop_rejected before dir after tr v :
  proxies_resolve world before tr = true ->
  installExtension world (tr ++ resolved_proxies before) dir = Thrown v ->
  proxy_loop world (before ++ dir :: after) tr =
  (Thrown v,
   resolved_proxies before ++ [EvInstallExtension true dir (Thrown v)]).
Proof.
  revert tr. induction before as [|d before IH]; intros tr;
    cbn [proxy_loop proxies_resolve app resolved_proxies List.map].
  - intros _ H. rewrite app_nil_r in H. now rewrite H.
  - destruct (installExtension world tr d) as [[] | v0]; [| discriminate].
    intros Hres Hrej. rewrite (IH _ Hres); [reflexivity |].
    now rewrite <- app_assoc.
Qed.

Lemma proxy_loop_events dirs tr :
  Forall (fun e => match e with
                   | EvInstallExtension true _ _ => True
                   | _ => False
                   end) (proxy_loop world dirs tr).2.
Proof.
  revert tr. induction dirs as [|dir dirs IH]; intros tr; cbn [proxy_loop].
  - constructor.
  - destruct (installExtension world tr dir) as [[] | v].
    + specialize (IH (tr ++ [EvInstallExtension true dir (Returned tt)])).
      destruct (proxy_loop world dirs
                  (tr ++ [EvInstallExtension true dir (Returned tt)]))
        as [r es].
      now constructor.
    + now repeat constructor.
Qed.

(** A profile step that throws ends the run there. *)
Lemma run_setup_thrown st tr v st1 tr1 :
  setupProfileDir world st tr = (Thrown v, st1, tr1) ->
  run world st tr = (Thrown v, st1, tr1).
Proof. intros H. unfold run, bind. now rewrite H. Qed.

(** Where [startFirefoxInstance] stands after the launch: the profile step
    returned, then the browser was asked to start. *)
Lemma run_launch st tr st1 tr1 :
  setupProfileDir world st tr = (Returned tt, st1, tr1) ->
  run world st tr = startFirefoxInstance world st1 tr1.
Proof. intros H. unfold run, bind. now rewrite H. Qed.
End Setup.

End RunnerMore.

(* ===================================================================== *)
(** ** What the operations record, and what a run leaves behind *)
(* ===================================================================== *)

Module RecordingFacts.
Import Runner RunnerSpec RunnerLogic RunnerMoreSpec RunnerMore.
Import TrackingFacts InstallFacts CleanupFacts ReloadFacts.
Local Open Scope runner_scope.

Lemma only_since_refl ok tr0 st : only_since ok tr0 st tr0.
Proof. exists []. now rewrite app_nil_r. Qed.

Lemma only_since_snoc ok tr0 st tr e :
  ok e = true -> only_since ok tr0 st tr -> only_since ok tr0 st (tr ++ [e]).
Proof.
  intros He (new & -> & Hnew). exists (new ++ [e]).
  split; [now rewrite app_assoc |].
  apply Forall_app. split; [assumption | now constructor].
Qed.

Ltac only_step :=
  lazymatch goal with
  | |- keeps _ (ret _) => apply keeps_ret
  | |- keeps _ (throw _) => apply keeps_throw
  | |- keeps _ get => apply keeps_get
  | |- keeps _ (emit _) =>
      apply triple_emit; intros;
      (apply only_since_snoc; [reflexivity | assumption])
  | |- keeps _ (await _ _) =>
      apply triple_await; intros;
      (apply only_since_snoc; [reflexivity | assumption])
  | |- keeps _ (modify _) => apply triple_modify; intros; assumption
  | |- keeps _ (bind _ _) => apply keeps_bind; [| intros ?]
  | |- keeps _ (try_catch _ _) => apply keeps_try_catch; [| intros ?]
  | |- keeps _ (for_of _ _) => apply keeps_for_of; intros ?
  | |- keeps _ (install_one _ _ _ _) => unfold install_one
  | |- keeps _ (match ?x with _ => _ end) => destruct x eqn:?
  end.

Section Recording.
Variable world : collaborators.
Variable tr0 : trace.

Lemma run_records : keeps (only_since (may_record OpRun) tr0) (run world).
Proof.
  unfold run, setupProfileDir, startFirefoxInstance. repeat only_step.
Qed.

Lemma reloadExtensionBySourceDir_records op dir :
  (forall s id r, may_record op (EvReloadAddon s id r) = true) ->
  keeps (only_since (may_record op) tr0)
    (reloadExtensionBySourceDir world dir).
Proof.
  intros Hop. unfold reloadExtensionBySourceDir.
  repeat first
    [ only_step
    | apply triple_await; intros;
      (apply only_since_snoc; [apply Hop | assumption]) ].
Qed.

Lemma reload_loop_records op exts errs :
  (forall s id r, may_record op (EvReloadAddon s id r) = true) ->
  keeps (only_since (may_record op) tr0) (reload_loop world exts errs).
Proof.
  intros Hop. revert errs. induction exts as [|ext exts IH]; intros errs;
    cbn [reload_loop].
  - apply keeps_ret.
  - apply keeps_bind; [now apply reloadExtensionBySourceDir_records |].
    intros [|res results]; [apply keeps_throw |].
    destruct (reloadError res) as [v|]; [| apply IH].
    destruct (instanceof_Error v); apply IH.
Qed.

(** Every operation records only the calls that are its own. *)
Lemma perform_records op :
  keeps (only_since (may_record op) tr0) (perform world op).
Proof.
  destruct op; cbn [perform]; unfold forget.
  - apply run_records.
  - unfold reloadAllExtensions.
    apply keeps_bind; [| intros; apply keeps_ret].
    apply keeps_bind; [apply keeps_get | intros st].
    apply keeps_bind; [now apply reload_loop_records | intros errs].
    repeat only_step.
  - apply keeps_bind; [| intros; apply keeps_ret].
    now apply reloadExtensionBySourceDir_records.
  - unfold registerCleanup. repeat only_step.
  - unfold exit. repeat only_step.
  - unfold closeObserver. repeat only_step.
Qed.
End Recording.

(** *** The runner after the profile step *)

Section AfterSetup.
Variable world : collaborators.

(** The profile step records its log entry, the profile request and the
    proxy installs, and nothing else. *)
Lemma setupProfileDir_records ok tr0 :
  (forall m, ok (EvLogDebug m) = true) ->
  (forall e, is_profile_event e = true -> ok e = true) ->
  (forall dir r, ok (EvInstallExtension true dir r) = true) ->
  keeps (only_since ok tr0) (setupProfileDir world).
Proof.
  intros Hlog Hprofile Hproxy. unfold setupProfileDir.
  repeat first
    [ only_step
    | apply triple_emit; intros;
      (apply only_since_snoc; [apply Hlog | assumption])
    | apply triple_await; intros;
      (apply only_since_snoc;
       [first [apply Hproxy | apply Hprofile; reflexivity] | assumption]) ].
Qed.

(** With [preInstall], [startFirefoxInstance()] launches the browser,
    attaches the close observer and stops there. *)
Lemma startFirefoxInstance_preInstall st tr :
  preInstall (params st) = true ->
  startFirefoxInstance world st tr =
  let binaryArgs := binaryArgs_of (params st) in
  let r := firefoxApp_run world tr binaryArgs in
  match r with
  | Thrown v => (Thrown v, st, tr ++ [EvRun binaryArgs r])
  | Returned None =>
      (Thrown (undefined_property "firefox"), set_runningInfo None st,
       tr ++ [EvRun binaryArgs r])
  | Returned (Some info) =>
      match firefox info with
      | None =>
          (Thrown (undefined_property "on"), set_runningInfo (Some info) st,
           tr ++ [EvRun binaryArgs r])
      | Some proc =>
          (Returned tt, set_runningInfo (Some info) st,
           (tr ++ [EvRun binaryArgs r]) ++ [EvOnClose proc])
      end
  end.
Proof.
  intros Hpre. unfold startFirefoxInstance.
  cbv [bind get await modify throw emit ret].
  change (params (set_runningInfo _ st)) with (params st).
  rewrite Hpre. cbn [negb].
  destruct (firefoxApp_run world tr (binaryArgs_of (params st)))
    as [[info|] | v]; [destruct (firefox info) as [proc|] | |];
    reflexivity.
Qed.

Lemma setupProfileDir_state st tr :
  (setupProfileDir world st tr).1.2 = st \/
  exists h, (setupProfileDir world st tr).1.2 = set_profile h st.
Proof.
  rewrite setupProfileDir_spec. cbv zeta.
  destruct (profile_request world _ _) as [h | v]; [| now left].
  right. exists h. now destruct (preInstall (params st)).
Qed.

Lemma setupProfileDir_keeps_fields st tr r st1 tr1 :
  setupProfileDir world st tr = (r, st1, tr1) ->
  params st1 = params st /\ cleanupCallbacks st1 = cleanupCallbacks st /\
  reloadableExtensions st1 = reloadableExtensions st /\
  remoteFirefox st1 = remoteFirefox st /\ runningInfo st1 = runningInfo st.
Proof.
  intros H. pose proof (setupProfileDir_state st tr) as Hst.
  rewrite H in Hst. cbn [fst snd] in Hst.
  destruct Hst as [-> | (h & ->)]; repeat split; reflexivity.
Qed.

(** *** The install loop *)

Lemma install_one_returned remote dv ext st tr st' tr' :
  install_one world remote dv ext st tr = (Returned tt, st', tr') ->
  exists s id,
    remote = Some s /\ JsString.truthy id = true /\
    st' = set_reloadable (ext_sourceDir ext) id st /\
    tr' = tr ++ [EvInstallTemporaryAddon s (ext_sourceDir ext) dv
                   (Returned (Addon (Some id)))].
Proof.
  unfold install_one, try_catch, bind, await, throw, modify, ret, emit.
  destruct remote as [s|]; [| cbn; congruence].
  destruct (installTemporaryAddon world tr s (ext_sourceDir ext) dv)
    as [[| | [id|]] | v0]; cbn; try congruence.
  - destruct (JsString.truthy id) eqn:Hid; cbn; [| congruence].
    intros [= <- <-]. now exists s, id.
  - destruct (instanceof_RemoteTempInstallNotSupported v0); cbn;
      congruence.
Qed.

(** An install loop that returns has tracked every extension it was given
    under an addon id that is not empty, kept what was tracked, possibly
    under a new id, and needed a session if it had anything to install. *)
Lemma install_loop_returned remote dv exts st tr st' tr' :
  for_of exts (install_one world remote dv) st tr = (Returned tt, st', tr') ->
  remoteFirefox st' = remoteFirefox st /\
  (exts <> [] -> exists s, remote = Some s) /\
  (forall dir,
     In dir (List.map ext_sourceDir exts) \/
     (exists id, reloadableExtensions st !! dir = Some id /\
                 JsString.truthy id = true) ->
     exists id, reloadableExtensions st' !! dir = Some id /\
                JsString.truthy id = true).
Proof.
  revert st tr. induction exts as [|ext exts IH]; intros st tr;
    cbn [for_of List.map].
  - unfold ret. intros [= <- <-]. split; [reflexivity |].
    split; [congruence |]. intros dir [[] | H]. exact H.
  - unfold bind at 1.
    destruct (install_one world remote dv ext st tr) as [[[[] | v] st1] tr1]
      eqn:Hone; [| discriminate].
    apply install_one_returned in Hone as (s & id & -> & Hid & -> & ->).
    intros Hloop. apply IH in Hloop as (Hremote & _ & Htracked).
    split; [exact Hremote |]. split; [intros _; now exists s |].
    intros dir Hdir. apply Htracked.
    destruct (String.eqb_spec (ext_sourceDir ext) dir) as [<- | Hne].
    + right. exists id. cbn. now rewrite lookup_insert_eq.
    + destruct Hdir as [[Heq | Hin] | (id' & Hid' & Ht)].
      * now destruct Hne.
      * now left.
      * right. exists id'. cbn. now rewrite lookup_insert_ne.
Qed.

(** A reload of a directory tracked under an addon id that is not empty,
    with a session open, asks the session to reload that addon, once. *)
Lemma reload_tracked dir id s st tr :
  reloadableExtensions st !! dir = Some id ->
  JsString.truthy id = true ->
  remoteFirefox st = Some s ->
  reloadExtensionBySourceDir world dir st tr =
  (Returned [reload_result_of dir (reloadAddon world tr s id)], st,
   tr ++ [EvReloadAddon s id (reloadAddon world tr s id)]).
Proof.
  intros Hmap Hid Hs.
  unfold reloadExtensionBySourceDir, bind, get, try_catch, ret, throw, await.
  rewrite Hmap, Hid, Hs. cbn [negb].
  now destruct (reloadAddon world tr s id) as [[] | v].
Qed.

(** A reload of a directory that is not tracked does nothing. *)
Lemma reload_untracked dir st tr :
  reloadableExtensions st !! dir = None ->
  reloadExtensionBySourceDir world dir st tr =
  (Returned [not_reloadable dir], st, tr).
Proof.
  intros Hmap. unfold reloadExtensionBySourceDir, bind, get, ret.
  now rewrite Hmap.
Qed.

Lemma reload_each_untracked dirs st tr :
  reloadableExtensions st = ∅ ->
  reload_each world dirs st tr =
  (List.map (fun dir => (dir, not_reloadable dir)) dirs, tr).
Proof.
  intros Hmap. induction dirs as [|dir dirs IH]; [reflexivity |].
  cbn [reload_each List.map].
  rewrite reload_untracked by (rewrite Hmap; apply lookup_empty).
  now rewrite IH.
Qed.

Lemma failures_untracked dirs :
  failures (List.map (fun dir => (dir, not_reloadable dir)) dirs) =
  List.map (fun dir => (dir, not_reloadable_error dir)) dirs.
Proof.
  induction dirs as [|dir dirs IH]; [reflexivity |].
  cbn [List.map failures flat_map] in *. cbn. now rewrite <- IH.
Qed.

Lemma fold_record_map (f : string -> js_value) dirs
    (m : gmap string js_value) dir :
  fold_left record_failure (List.map (fun d => (d, f d)) dirs) m !! dir =
  if existsb (String.eqb dir) dirs then Some (f dir) else m !! dir.
Proof.
  revert m. induction dirs as [|d dirs IH]; intros m; [reflexivity |].
  cbn [List.map fold_left existsb]. rewrite IH. unfold record_failure.
  cbn [fst snd].
  destruct (existsb (String.eqb dir) dirs); [now rewrite orb_true_r |].
  rewrite orb_false_r.
  destruct (String.eqb_spec dir d) as [-> | Hne].
  - now rewrite lookup_insert_eq.
  - now rewrite lookup_insert_ne.
Qed.
End AfterSetup.

End RecordingFacts.

(* ===================================================================== *)
(** ** Further properties of the runner *)
(* ===================================================================== *)

Module RunnerExtras.
Import Runner RunnerSpec RunnerExamples RunnerLogic.
Import RunnerMoreSpec RunnerMoreExamples RunnerMore RecordingFacts.
Import TrackingFacts InstallFacts CleanupFacts ReloadFacts.
Local Open Scope runner_scope.

(** X10.  [setupProfileDir()] asks for exactly one profile, chosen by the
    configuration: a profile path that is set and not empty is used in
    place when changes are to be kept and copied otherwise; without one a
    new profile is created.  The request is logged first.  When it is
    rejected, the method, and [run()] with it, throws the rejection at
    once and the runner is unchanged; when it resolves, the profile is
    stored. *)
Theorem profile_requested_once (world : collaborators) (st : state)
    (tr : trace) :
  let mode := profile_mode_of (params st) in
  let tr1 := tr ++ [EvLogDebug (profile_log mode)] in
  let r := profile_request world mode tr1 in
  (exists rest,
     (setupProfileDir world st tr).2 = tr1 ++ profile_event mode r :: rest /\
     Forall (fun e => is_profile_event e = false) rest) /\
  (forall v, r = Thrown v ->
     setupProfileDir world st tr =
       (Thrown v, st, tr1 ++ [profile_event mode r]) /\
     run world st tr = (Thrown v, st, tr1 ++ [profile_event mode r])) /\
  (forall h, r = Returned h ->
     (setupProfileDir world st tr).1.2 = set_profile h st).
Proof.
  cbv zeta.
  pose proof (setupProfileDir_spec world st tr) as Hspec. cbv zeta in Hspec.
  remember (profile_mode_of (params st)) as mode eqn:Emode in *.
  remember (tr ++ [EvLogDebug (profile_log mode)]) as tr1 eqn:Etr1 in *.
  remember (profile_request world mode tr1) as r eqn:Er in *.
  split; [| split].
  - rewrite Hspec. destruct r as [h | v].
    + destruct (preInstall (params st)).
      * eexists. cbn [snd]. split; [now rewrite <- app_assoc |].
        eapply List.Forall_impl; [| apply proxy_loop_events].
        intros [] He; try contradiction. reflexivity.
      * exists []. split; [reflexivity | constructor].
    + exists []. split; [reflexivity | constructor].
  - intros v ->. split; [exact Hspec | now apply run_setup_thrown].
  - intros h ->. rewrite Hspec. now destruct (preInstall (params st)).
Qed.

Lemma profile_requested_once_witness :
  setupProfileDir broken_profile (new (config [ext_a] false)) [] =
    (Thrown (ErrorObject PlainError "disk full"),
     new (config [ext_a] false),
     [EvLogDebug CreatingProfile;
      EvCreateProfile (Thrown (ErrorObject PlainError "disk full"))]) /\
  run broken_profile (new (config [ext_a] false)) [] =
    (Thrown (ErrorObject PlainError "disk full"),
     new (config [ext_a] false),
     [EvLogDebug CreatingProfile;
      EvCreateProfile (Thrown (ErrorObject PlainError "disk full"))]).
Proof.
  apply (proj1 (proj2 (profile_requested_once broken_profile
                         (new (config [ext_a] false)) []))).
  reflexivity.
Defined.

(** X11.  The proxy installs of [setupProfileDir()], once the profile is
    there: without [preInstall] there is none; with it the configured
    extensions are installed into the profile in their order, each recorded
    with how it ended, and the method returns when all of them resolve; the
    first one that is rejected ends the loop: the method, and [run()] with
    it, throws that rejection, and no later extension is installed. *)
Theorem proxy_installs_in_order (world : collaborators) (st : state)
    (tr : trace) (h : profile_handle) :
  let mode := profile_mode_of (params st) in
  let tr1 := tr ++ [EvLogDebug (profile_log mode)] in
  let tr2 := tr1 ++ [profile_event mode (Returned h)] in
  let dirs := List.map ext_sourceDir (extensions (params st)) in
  profile_request world mode tr1 = Returned h ->
  (preInstall (params st) = false ->
   setupProfileDir world st tr = (Returned tt, set_profile h st, tr2)) /\
  (preInstall (params st) = true ->
   proxies_resolve world dirs tr2 = true ->
   setupProfileDir world st tr =
     (Returned tt, set_profile h st, tr2 ++ resolved_proxies dirs)) /\
  (preInstall (params st) = true ->
   forall before dir after v,
     dirs = before ++ dir :: after ->
     proxies_resolve world before tr2 = true ->
     installExtension world (tr2 ++ resolved_proxies before) dir
       = Thrown v ->
     setupProfileDir world st tr =
       (Thrown v, set_profile h st,
        tr2 ++ resolved_proxies before ++
        [EvInstallExtension true dir (Thrown v)]) /\
     run world st tr =
       (Thrown v, set_profile h st,
        tr2 ++ resolved_proxies before ++
        [EvInstallExtension true dir (Thrown v)])).
Proof.
  cbv zeta. intros Hprofile.
  pose proof (setupProfileDir_spec world st tr) as Hspec. cbv zeta in Hspec.
  rewrite Hprofile in Hspec.
  split; [| split].
  - intros Hpre. now rewrite Hpre in Hspec.
  - intros Hpre Hall. rewrite Hpre in Hspec.
    now rewrite (proxy_loop_resolved world _ _ Hall) in Hspec.
  - intros Hpre before dir after v Hdirs Hbefore Hrej.
    rewrite Hpre, Hdirs in Hspec.
    rewrite (proxy_loop_rejected world _ _ after _ _ Hbefore Hrej) in Hspec.
    cbn [fst snd] in Hspec.
    split; [exact Hspec | now apply run_setup_thrown].
Qed.

Lemma proxy_installs_in_order_witness :
  run rejecting_proxy_b (new (config [ext_a; ext_b; ext_c] true)) [] =
  (Thrown (ErrorObject PlainError "not an extension"),
   set_profile 3 (new (config [ext_a; ext_b; ext_c] true)),
   ([] ++ [EvLogDebug CreatingProfile] ++ [EvCreateProfile (Returned 3)]) ++
   resolved_proxies ["/ext/a"] ++
   [EvInstallExtension true "/ext/b"
      (Thrown (ErrorObject PlainError "not an extension"))]).
Proof.
  apply (proj2 (proj2 (proxy_installs_in_order rejecting_proxy_b
                         (new (config [ext_a; ext_b; ext_c] true)) [] 3
                         eq_refl))
           eq_refl ["/ext/a"] "/ext/b" ["/ext/c"]
           (ErrorObject PlainError "not an extension")
           eq_refl eq_refl eq_refl).
Defined.

(** X12.  With [preInstall], [run()] opens no protocol session and installs
    nothing over one: no connection and no temporary install is recorded,
    and the session and the map of the runner are as they were. *)
Theorem preInstall_run_opens_no_session (world : collaborators)
    (st : state) (tr : trace) :
  preInstall (params st) = true ->
  exists new,
    (run world st tr).2 = tr ++ new /\
    Forall (fun e => is_session_event e = false) new /\
    remoteFirefox (run world st tr).1.2 = remoteFirefox st /\
    reloadableExtensions (run world st tr).1.2 = reloadableExtensions st.
Proof.
  intros Hpre.
  pose proof (setupProfileDir_records world
                (fun e => negb (is_session_event e)) tr
                (fun _ => eq_refl)) as Hsetup.
  specialize (Hsetup
    (fun e => match e with
              | EvUseProfile _ _ | EvCopyProfile _ _ | EvCreateProfile _ =>
                  fun _ => eq_refl
              | _ => fun H => False_ind _ (Bool.diff_false_true H)
              end)
    (fun _ _ => eq_refl) st tr (only_since_refl _ tr st)).
  unfold run, bind.
  destruct (setupProfileDir world st tr) as [[r0 st1] tr1] eqn:Hs.
  destruct (setupProfileDir_keeps_fields world st tr r0 st1 tr1 Hs)
    as (Hparams & _ & Hmap & Hremote & _).
  destruct Hsetup as (es & -> & Hes).
  assert (Hes' : Forall (fun e => is_session_event e = false) es).
  { eapply List.Forall_impl; [| exact Hes].
    intros e He. now apply negb_true_iff. }
  destruct r0 as [[] | v].
  - rewrite startFirefoxInstance_preInstall by congruence. cbv zeta.
    destruct (firefoxApp_run world (tr ++ es) (binaryArgs_of (params st1)))
      as [[info|] | v]; [destruct (firefox info) as [proc|] | |];
      cbn [fst snd];
      (eexists; split;
       [rewrite <- ?app_assoc; reflexivity |
        split; [| split; assumption]]);
      repeat (apply Forall_app; split);
      try assumption; repeat constructor.
  - exists es. cbn [fst snd]. now repeat split.
Qed.

Lemma preInstall_run_opens_no_session_witness :
  exists added,
    (run friendly (new (config [ext_a; ext_b] true)) []).2 = [] ++ added /\
    Forall (fun e => is_session_event e = false) added /\
    remoteFirefox (run friendly (new (config [ext_a; ext_b] true)) []).1.2 =
      None /\
    reloadableExtensions
      (run friendly (new (config [ext_a; ext_b] true)) []).1.2 = ∅.
Proof.
  apply (preInstall_run_opens_no_session friendly
           (new (config [ext_a; ext_b] true)) []).
  reflexivity.
Defined.

(** X13.  A temporary install that the session rejects ends the install
    loop at that extension, with the runner as the installs before left
    it: a rejection with [RemoteTempInstallNotSupported] is logged and
    replaced by a [WebExtError] that points to [--pre-install]; any other
    rejection is thrown as it is.  The extensions after it are not
    installed. *)
Theorem install_rejection_ends_the_loop (world : collaborators)
    (s : session_handle) (dv : bool) (before : list extension)
    (ext : extension) (after : list extension) (st : state) (tr : trace)
    (st1 : state) (tr1 : trace) (v : js_value) :
  for_of before (install_one world (Some s) dv) st tr
    = (Returned tt, st1, tr1) ->
  installTemporaryAddon world tr1 s (ext_sourceDir ext) dv = Thrown v ->
  for_of (before ++ ext :: after) (install_one world (Some s) dv) st tr =
  if instanceof_RemoteTempInstallNotSupported v
  then (Thrown (ErrorObject WebExtError temp_install_unsupported_message),
        st1,
        tr1 ++ [EvInstallTemporaryAddon s (ext_sourceDir ext) dv (Thrown v);
                EvLogDebug (CaughtError v)])
  else (Thrown v, st1,
        tr1 ++ [EvInstallTemporaryAddon s (ext_sourceDir ext) dv
                  (Thrown v)]).
Proof.
  intros Hbefore Hrej. rewrite for_of_app, Hbefore. cbn [for_of].
  unfold bind at 1.
  unfold install_one, try_catch, bind, await, throw, modify, ret, emit.
  rewrite Hrej.
  destruct (instanceof_RemoteTempInstallNotSupported v);
    [now rewrite <- app_assoc | reflexivity].
Qed.

Lemma install_rejection_ends_the_loop_witness :
  for_of ([ext_a] ++ ext_b :: [ext_c])
    (install_one failing_install_of_b (Some 1) false)
    (new (config [ext_a; ext_b; ext_c] false)) [] =
  (Thrown (ErrorObject WebExtError temp_install_unsupported_message),
   set_reloadable "/ext/a" "addon@/ext/a"
     (new (config [ext_a; ext_b; ext_c] false)),
   [EvInstallTemporaryAddon 1 "/ext/a" false
      (Returned (Addon (Some "addon@/ext/a")))] ++
   [EvInstallTemporaryAddon 1 "/ext/b" false
      (Thrown (ErrorObject RemoteTempInstallNotSupported "too old"));
    EvLogDebug
      (CaughtError (ErrorObject RemoteTempInstallNotSupported "too old"))]).
Proof.
  apply (install_rejection_ends_the_loop failing_install_of_b 1 false
           [ext_a] ext_b [ext_c]
           (new (config [ext_a; ext_b; ext_c] false)) []
           (set_reloadable "/ext/a" "addon@/ext/a"
              (new (config [ext_a; ext_b; ext_c] false)))
           [EvInstallTemporaryAddon 1 "/ext/a" false
              (Returned (Addon (Some "addon@/ext/a")))]
           (ErrorObject RemoteTempInstallNotSupported "too old"));
    reflexivity.
Defined.

(** X14.  Every operation records only the calls that are its own:
    [run()] never kills, reloads or calls a cleanup callback; a reload only
    asks the session to reload; [exit()] only kills; the close observer
    only calls callbacks and logs the ones that throw; a registration calls
    nothing.  So [exit()] is the only operation that kills the browser. *)
Theorem operations_record_their_own_events (world : collaborators)
    (op : operation) (st : state) (tr : trace) :
  exists added,
    (perform world op st tr).2 = tr ++ added /\
    Forall (fun e => may_record op e = true) added /\
    (op <> OpExit -> Forall (fun e => is_kill e = false) added).
Proof.
  pose proof (perform_records world tr op st tr (only_since_refl _ tr st))
    as H.
  destruct (perform world op st tr) as [[r st1] tr1].
  destruct H as (added & -> & Hadded). exists added.
  split; [reflexivity | split; [exact Hadded |]].
  intros Hop. eapply List.Forall_impl; [| exact Hadded].
  intros e He. destruct op; try (now destruct Hop); now destruct e.
Qed.

Lemma operations_record_their_own_events_witness :
  exists added,
    (perform friendly OpRun (new (config [ext_a] false)) []).2 =
      [] ++ added /\
    Forall (fun e => may_record OpRun e = true) added /\
    Forall (fun e => is_kill e = false) added.
Proof.
  destruct (operations_record_their_own_events friendly OpRun
              (new (config [ext_a] false)) [])
    as (added & Htr & Hown & Hkill).
  exists added. split; [exact Htr | split; [exact Hown |]].
  apply Hkill. discriminate.
Defined.

(** X15.  After a [run()] without [preInstall] that returned, every
    configured extension is tracked under an addon id that is not empty
    and a session is open; a reload of its directory then asks that
    session to reload that addon, once, and reports how it ended. *)
Theorem run_tracks_every_extension (world : collaborators) (st : state)
    (tr : trace) (st' : state) (tr' : trace) :
  run world st tr = (Returned tt, st', tr') ->
  preInstall (params st) = false ->
  forall ext, In ext (extensions (params st)) ->
    exists s id,
      remoteFirefox st' = Some s /\
      reloadableExtensions st' !! ext_sourceDir ext = Some id /\
      id <> "" /\
      reloadExtensionBySourceDir world (ext_sourceDir ext) st' tr' =
        (Returned [reload_result_of (ext_sourceDir ext)
                     (reloadAddon world tr' s id)],
         st', tr' ++ [EvReloadAddon s id (reloadAddon world tr' s id)]).
Proof.
  intros Hrun Hpre ext Hin. unfold run, bind in Hrun.
  destruct (setupProfileDir world st tr) as [[[[] | v] st1] tr1] eqn:Hs;
    [| discriminate].
  destruct (setupProfileDir_keeps_fields world st tr _ st1 tr1 Hs)
    as (Hparams & _).
  unfold startFirefoxInstance in Hrun.
  cbv [bind get await modify throw emit ret] in Hrun.
  rewrite Hparams, Hpre in Hrun. cbn [negb] in Hrun.
  destruct (firefoxApp_run world tr1 (binaryArgs_of (params st)))
    as [[info|] | v]; [| discriminate | discriminate].
  destruct (firefox info) as [proc|]; [| discriminate].
  destruct (firefoxClient world _ (debuggerPort info)) as [remote | v];
    [| discriminate].
  apply install_loop_returned in Hrun as (Hremote & Hsome & Htracked).
  destruct Hsome as (s & ->).
  { intros E. rewrite E in Hin. destruct Hin. }
  destruct (Htracked (ext_sourceDir ext)) as (id & Hid & Ht).
  { left. now apply in_map. }
  exists s, id. split; [exact Hremote |]. split; [exact Hid |].
  split; [now apply truthy_not_empty |]. now apply reload_tracked.
Qed.

Lemma run_tracks_every_extension_witness :
  exists s id,
    remoteFirefox (run friendly (new (config [ext_a; ext_b] false)) []).1.2
      = Some s /\
    reloadableExtensions
      (run friendly (new (config [ext_a; ext_b] false)) []).1.2 !! "/ext/b"
      = Some id /\
    id <> "" /\
    reloadExtensionBySourceDir friendly "/ext/b"
      (run friendly (new (config [ext_a; ext_b] false)) []).1.2
      (run friendly (new (config [ext_a; ext_b] false)) []).2 =
    (Returned [reload_result_of "/ext/b" (Returned tt)],
     (run friendly (new (config [ext_a; ext_b] false)) []).1.2,
     (run friendly (new (config [ext_a; ext_b] false)) []).2 ++
     [EvReloadAddon s id (Returned tt)]).
Proof.
  apply (run_tracks_every_extension friendly
           (new (config [ext_a; ext_b] false)) []
           (run friendly (new (config [ext_a; ext_b] false)) []).1.2
           (run friendly (new (config [ext_a; ext_b] false)) []).2
           eq_refl eq_refl ext_b).
  right. now left.
Defined.

(** X16.  With [preInstall] nothing is ever reloadable: whatever was done
    with the runner since it was created, a reload of any directory
    reports that it is not reloadable, and [reloadAllExtensions()] reports
    exactly that for each configured directory, without a call to the
    session; with no extension configured it reports success. *)
Theorem preInstall_nothing_reloadable (world : collaborators)
    (p : params_t) (ops : list operation) :
  preInstall p = true ->
  let st := (perform_all world ops (new p) []).1 in
  let tr := (perform_all world ops (new p) []).2 in
  (forall dir,
     reloadExtensionBySourceDir world dir st tr =
       (Returned [not_reloadable dir], st, tr)) /\
  exists res,
    reloadAllExtensions world st tr = (Returned [res], st, tr) /\
    sourceDir res = None /\
    match extensions p with
    | [] => reloadError res = None
    | _ :: _ =>
        exists errors,
          reloadError res = Some (MultiExtensionsReloadError errors) /\
          forall dir,
            errors !! dir =
              if existsb (String.eqb dir)
                   (List.map ext_sourceDir (extensions p))
              then Some (not_reloadable_error dir)
              else None
    end.
Proof.
  intros Hpre st tr.
  pose proof (tracking_perform_all world p ops (new p) []
                (tracking_new p)) as Hinv.
  fold st tr in Hinv. destruct Hinv as (Hparams & Hmap & _ & Htemp).
  assert (Hempty : reloadableExtensions st = ∅).
  { apply map_empty. intros dir.
    destruct (reloadableExtensions st !! dir) as [id|] eqn:Hdir;
      [| reflexivity].
    destruct (Hmap dir id Hdir) as (_ & s & dv & Hin).
    pose proof (proj1 (List.Forall_forall _ _) (Htemp Hpre) _ Hin) as Hev.
    discriminate. }
  split.
  - intros dir. apply reload_untracked. rewrite Hempty. apply lookup_empty.
  - unfold reloadAllExtensions, bind, get.
    rewrite reload_loop_spec, Hparams, reload_each_untracked by assumption.
    cbn [fst snd]. rewrite failures_untracked.
    set (errors :=
           fold_left record_failure
             (List.map (fun dir => (dir, not_reloadable_error dir))
                (List.map ext_sourceDir (extensions p))) ∅).
    assert (Hlookup : forall dir,
      errors !! dir =
        if existsb (String.eqb dir) (List.map ext_sourceDir (extensions p))
        then Some (not_reloadable_error dir)
        else None).
    { intros dir. unfold errors.
      rewrite (fold_record_map not_reloadable_error). 
      now rewrite lookup_empty. }
    destruct (extensions p) as [|ext exts] eqn:Hexts.
    + eexists. split; [reflexivity |]. split; reflexivity.
    + assert (Hsize : Nat.ltb 0 (size errors) = true).
      { apply Nat.ltb_lt.
        assert (Hne : errors <> ∅).
        { intros E. specialize (Hlookup (ext_sourceDir ext)).
          rewrite E, lookup_empty in Hlookup. cbn [List.map existsb] in Hlookup.
          now rewrite String.eqb_refl in Hlookup. }
        apply map_size_non_empty_iff in Hne. lia. }
      rewrite Hsize. eexists. split; [reflexivity |].
      split; [reflexivity |]. exists errors. split; [reflexivity |].
      exact Hlookup.
Qed.

Lemma preInstall_nothing_reloadable_witness :
  reloadExtensionBySourceDir friendly "/ext/a"
    (perform_all friendly [OpRun] (new (config [ext_a; ext_b] true)) []).1
    (perform_all friendly [OpRun] (new (config [ext_a; ext_b] true)) []).2 =
  (Returned [not_reloadable "/ext/a"],
   (perform_all friendly [OpRun] (new (config [ext_a; ext_b] true)) []).1,
   (perform_all friendly [OpRun] (new (config [ext_a; ext_b] true)) []).2).
Proof.
  apply (proj1 (preInstall_nothing_reloadable friendly
                  (config [ext_a; ext_b] true) [OpRun] eq_refl)).
Defined.

(** X17.  What each operation may change of the runner: a reload, an
    [exit()] and the close observer change nothing; a registration only
    adds the callback; [run()] leaves the callbacks and the configuration
    as they are and forgets no tracked directory. *)
Theorem operations_frame (world : collaborators) (op : operation)
    (st : state) (tr : trace) :
  match op with
  | OpRun =>
      cleanupCallbacks (perform world op st tr).1.2 = cleanupCallbacks st /\
      params (perform world op st tr).1.2 = params st /\
      forall dir,
        is_Some (reloadableExtensions st !! dir) ->
        is_Some (reloadableExtensions (perform world op st tr).1.2 !! dir)
  | OpRegisterCleanup fn => (perform world op st tr).1.2 = add_cleanup fn st
  | _ => (perform world op st tr).1.2 = st
  end.
Proof.
  destruct op; cbn [perform]; unfold forget.
  - pose proof (keeps_run world
      (fun s _ =>
         cleanupCallbacks s = cleanupCallbacks st /\
         params s = params st /\
         forall dir,
           is_Some (reloadableExtensions st !! dir) ->
           is_Some (reloadableExtensions s !! dir))) as Hkeeps.
    specialize (Hkeeps ltac:(
      split; intros; try assumption;
      match goal with H : _ /\ _ /\ _ |- _ => destruct H as (? & ? & Hk) end;
      (split; [assumption | split; [assumption |]]);
      intros dir Hdir; cbn; apply lookup_insert_is_Some';
      right; now apply Hk) st tr).
    destruct (run world st tr) as [[r st1] tr1]. apply Hkeeps.
    now repeat split.
  - unfold bind at 1. unfold reloadAllExtensions, bind, get.
    rewrite reload_loop_spec.
    now destruct (Nat.ltb 0 _).
  - unfold bind.
    now destruct (reloadExtensionBySourceDir_total world
                    extensionSourceDir st tr) as (res & new & -> & _).
  - reflexivity.
  - unfold exit, bind, get.
    destruct (runningInfo st) as [info|]; [| reflexivity].
    now destruct (firefox info).
  - now rewrite closeObserver_spec.
Qed.

Lemma operations_frame_witness :
  is_Some
    (reloadableExtensions
       (perform friendly OpRun
          (run friendly (new (config [ext_a] false)) []).1.2
          (run friendly (new (config [ext_a] false)) []).2).1.2
     !! "/ext/a").
Proof.
  apply (proj2 (proj2 (operations_frame friendly OpRun
                         (run friendly (new (config [ext_a] false)) []).1.2
                         (run friendly (new (config [ext_a] false)) []).2))).
  exists "addon@/ext/a". reflexivity.
Defined.

(** X18.  When the browser does not start, [run()] throws the rejection of
    the launch: the launch is the last thing recorded, and the runner is
    as the profile step left it, so no process and no session is tracked
    that was not tracked before and the map is as it was. *)
Theorem launch_failure_propagates (world : collaborators) (st : state)
    (tr : trace) (st1 : state) (tr1 : trace) (v : js_value) :
  setupProfileDir world st tr = (Returned tt, st1, tr1) ->
  firefoxApp_run world tr1 (binaryArgs_of (params st)) = Thrown v ->
  run world st tr =
    (Thrown v, st1, tr1 ++ [EvRun (binaryArgs_of (params st)) (Thrown v)]) /\
  runningInfo st1 = runningInfo st /\
  remoteFirefox st1 = remoteFirefox st /\
  reloadableExtensions st1 = reloadableExtensions st.
Proof.
  intros Hs Hlaunch.
  destruct (setupProfileDir_keeps_fields world st tr _ st1 tr1 Hs)
    as (Hparams & _ & Hmap & Hremote & Hinfo).
  split; [| now repeat split].
  rewrite (run_launch world st tr st1 tr1 Hs).
  unfold startFirefoxInstance. cbv [bind get await modify throw emit ret].
  rewrite Hparams, Hlaunch. reflexivity.
Qed.

Lemma launch_failure_propagates_witness :
  run no_browser (new (config [ext_a] false)) [] =
    (Thrown (ErrorObject PlainError "binary not found"),
     set_profile 3 (new (config [ext_a] false)),
     [EvLogDebug CreatingProfile; EvCreateProfile (Returned 3)] ++
     [EvRun [] (Thrown (ErrorObject PlainError "binary not found"))]).
Proof.
  apply (proj1 (launch_failure_propagates no_browser
                  (new (config [ext_a] false)) []
                  (set_profile 3 (new (config [ext_a] false)))
                  [EvLogDebug CreatingProfile; EvCreateProfile (Returned 3)]
                  (ErrorObject PlainError "binary not found")
                  eq_refl eq_refl)).
Defined.

(** X19.  Once the browser has started, [run()] does not give it up: however
    the rest of the run ends, the process is the one the runner tracks, the
    close observer is attached to it, the run sends it no kill, and an
    [exit()] after the run kills it. *)
Theorem failed_run_keeps_the_process (world : collaborators) (st : state)
    (tr : trace) (st1 : state) (tr1 : trace) (info : running_info)
    (proc : process_handle) :
  setupProfileDir world st tr = (Returned tt, st1, tr1) ->
  firefoxApp_run world tr1 (binaryArgs_of (params st))
    = Returned (Some info) ->
  firefox info = Some proc ->
  launched_with info proc (run world st tr).1.2 (run world st tr).2 /\
  (exists added,
     (run world st tr).2 = tr ++ added /\
     Forall (fun e => is_kill e = false) added) /\
  exit (run world st tr).1.2 (run world st tr).2 =
    (Returned tt, (run world st tr).1.2,
     (run world st tr).2 ++ [EvKill proc]).
Proof.
  intros Hs Hlaunch Hproc.
  destruct (setupProfileDir_keeps_fields world st tr _ st1 tr1 Hs)
    as (Hparams & _).
  assert (Hlaunched :
    launched_with info proc (run world st tr).1.2 (run world st tr).2).
  { rewrite (run_launch world st tr st1 tr1 Hs).
    unfold startFirefoxInstance. cbv [bind get await modify throw emit ret].
    rewrite Hparams, Hlaunch, Hproc.
    assert (Hnow :
      launched_with info proc (set_runningInfo (Some info) st1)
        ((tr1 ++ [EvRun (binaryArgs_of (params st))
                    (Returned (Some info))]) ++ [EvOnClose proc])).
    { split; [reflexivity | split; [assumption |]].
      apply in_or_app. right. now left. }
    assert (Hev : forall st tr e, launched_with info proc st tr ->
                                  launched_with info proc st (tr ++ [e])).
    { intros s0 t0 e (H1 & H2 & H3). split; [assumption |].
      split; [assumption |]. apply in_or_app. now left. }
    destruct (negb (preInstall (params st))); [| exact Hnow].
    destruct (firefoxClient world _ (debuggerPort info)) as [remote | v];
      [| now apply Hev].
    pose proof (keeps_for_of (launched_with info proc)
                  (extensions (params st))
                  (install_one world remote (devtools (params st)))
                  (fun ext =>
                     keeps_install_one world _ remote _ ext Hev
                       (fun st tr k v H => H))) as Hloop.
    specialize
      (Hloop (set_remoteFirefox remote (set_runningInfo (Some info) st1))
         _ (Hev (set_remoteFirefox remote
                   (set_runningInfo (Some info) st1)) _
              (EvConnect (debuggerPort info) (Returned remote)) Hnow)).
    now destruct (for_of _ _ _ _) as [[r st2] tr2]. }
  split; [exact Hlaunched | split].
  - pose proof (run_records world tr st tr (only_since_refl _ tr st)) as H.
    destruct (run world st tr) as [[r st2] tr2].
    destruct H as (added & -> & Hadded). exists added.
    split; [reflexivity |].
    eapply List.Forall_impl; [| exact Hadded]. intros e He. now destruct e.
  - destruct Hlaunched as (Hinfo & _ & _).
    unfold exit, bind, get, emit. now rewrite Hinfo, Hproc.
Qed.

Lemma failed_run_keeps_the_process_witness :
  (run failing_install_of_b (new (config [ext_a; ext_b] false)) []).1.1 =
    Thrown (ErrorObject WebExtError temp_install_unsupported_message) /\
  exit
    (run failing_install_of_b (new (config [ext_a; ext_b] false)) []).1.2
    (run failing_install_of_b (new (config [ext_a; ext_b] false)) []).2 =
  (Returned tt,
   (run failing_install_of_b (new (config [ext_a; ext_b] false)) []).1.2,
   (run failing_install_of_b (new (config [ext_a; ext_b] false)) []).2 ++
   [EvKill 1]).
Proof.
  split; [reflexivity |].
  apply (proj2 (proj2 (failed_run_keeps_the_process failing_install_of_b
                         (new (config [ext_a; ext_b] false)) []
                         (set_profile 3 (new (config [ext_a; ext_b] false)))
                         [EvLogDebug CreatingProfile;
                          EvCreateProfile (Returned 3)]
                         {| firefox := Some 1; debuggerPort := 6000%N |} 1
                         eq_refl eq_refl eq_refl))).
Defined.



End RunnerExtras.
